(** * SimOTA label assignment (mmdet/core/bbox/assigners/sim_ota_assigner.py)

    A shallow embedding of [SimOTAAssigner] and the properties of its
    matching pipeline: candidate filter, cost matrix, dynamic-k selection,
    conflict resolution, result assembly and the CPU fallback of [assign].

    Numbers.  Tensor entries are float32 in the source.  They are modelled
    as exact rationals ([Q]): [+], [-], [*], [/ 2.0] and the comparisons are
    the rational ones, [Tensor.int()] truncates toward zero, and the
    transcendental functions ([torch.log], [sqrt_], the cross entropy) are
    operations of an abstract backend.  Rounding, NaN and infinities are
    outside the model.

    Tensors.  A 1-D tensor is a list; a 2-D tensor is a list of rows
    together with its number of columns, so that a tensor with no rows still
    has a shape.  Rows of four coordinates are records.

    Failures.  Operations that raise in torch return a [Res]; the exception
    carries its Python class, which is all that [except RuntimeError] sees.

    Effects.  [dynamic_k_matching] writes the mask it is given in place; the
    model returns the written mask with the results.  [assign] returns the
    warning and the cache release it performs as a list of events.

    Hooks and scripts.  Next to the assigner the file models the two hooks
    of YOLOX (mmdet/core/hook): the learning-rate schedule of
    [CosineAnnealingWithStopLrUpdaterHook], and of [YOLOXProcessHook] the
    change of the image size, the switch of the augmentation and
    [all_reduce] (also in tools/dist_test.py); and the reordering loop of
    DataTransformer.py.  What mmcv and torch.distributed provide
    ([annealing_cos], the collective behind [dist.all_reduce]) is a
    parameter of the definitions that call it; a random draw and the
    content of a file are arguments.

    The file has four parts: the model, the definitions the statements use,
    the properties, and the properties at concrete inputs. *)

From Stdlib Require Import QArith Qminmax ZArith Bool Lia Lqa.
From stdpp Require Import base list sorting strings.

Local Open Scope Q_scope.

(** ** Rational helpers *)

(** [a > b] on tensor entries, as a boolean. *)
Definition Qgtb (a b : Q) : bool := negb (Qle_bool a b).

(** [Tensor.int()]: conversion of a float to an integer truncates toward
    zero. *)
Definition Qtrunc (q : Q) : Z := Z.quot (Qnum q) (Zpos (Qden q)).

(** [Tensor.sum()] over a list of entries. *)
Definition Qsum (l : list Q) : Q := foldr Qplus 0 l.
Arguments Qsum : simpl never.

(** The sum of a boolean tensor counts its [True] entries. *)
Fixpoint count_true (l : list bool) : nat :=
  match l with
  | [] => O
  | b :: l' => ((if b then 1 else 0) + count_true l')%nat
  end.

(** ** Exceptions and results *)

(** The [RuntimeError]s that the modelled operations raise.  Python's
    [except RuntimeError] sees only the class, not the cause. *)
Inductive runtime_cause : Set :=
  | OutOfMemory          (* CUDA out of memory *)
  | KOutOfRange          (* torch.topk: selected index k out of range *)
  | ClassValueOutOfRange (* F.one_hot: class values outside [0, num_classes) *)
  | ShapeMismatch.       (* operands or values that cannot be broadcast *)

Inductive exn : Set :=
  | RuntimeError (c : runtime_cause)
  | IndexError
  | ValueError
  | UnboundLocalError.

Inductive Res (A : Type) : Type :=
  | Ok (a : A)
  | Raise (e : exn).
Arguments Ok {A} a.
Arguments Raise {A} e.

Definition bindR {A B} (c : Res A) (k : A -> Res B) : Res B :=
  match c with
  | Ok a => k a
  | Raise e => Raise e
  end.

Notation "x <- c ;; k" := (bindR c (fun x => k))
  (at level 100, c at next level, right associativity).

Fixpoint mapR {A B} (f : A -> Res B) (l : list A) : Res (list B) :=
  match l with
  | [] => Ok []
  | x :: l' => y <- f x ;; ys <- mapR f l' ;; Ok (y :: ys)
  end.

Definition is_Ok {A} (r : Res A) : Prop := exists a, r = Ok a.

(** ** Two-dimensional tensors *)

Record Tensor2 : Type := T2 { ncols : nat; rows : list (list Q) }.

Definition nrows (t : Tensor2) : nat := length (rows t).

(** Every row of a tensor has [ncols] entries. *)
Definition wf (t : Tensor2) : Prop := Forall (fun r => length r = ncols t) (rows t).

Definition same_shape (a b : Tensor2) : Prop :=
  nrows a = nrows b /\ ncols a = ncols b.

(** [t[:, j]]: indexing a column outside the tensor raises. *)
Definition column (t : Tensor2) (j : nat) : Res (list Q) :=
  if (j <? ncols t)%nat then Ok (map (fun r => default 0 (r !! j)) (rows t))
  else Raise IndexError.

(** [torch.zeros_like]. *)
Definition zeros_like (t : Tensor2) : Tensor2 :=
  T2 (ncols t) (map (map (fun _ => 0)) (rows t)).

(** ** Boolean-mask indexing *)

(** [filter_mask mask xs] keeps the entries of [xs] under a [True]. *)
Fixpoint filter_mask {A} (mask : list bool) (xs : list A) : list A :=
  match mask, xs with
  | b :: mask', x :: xs' => if b then x :: filter_mask mask' xs' else filter_mask mask' xs'
  | _, _ => []
  end.

(** [xs[mask]]: the mask must be as long as the indexed dimension. *)
Definition mask_select {A} (mask : list bool) (xs : list A) : Res (list A) :=
  if (length mask =? length xs)%nat then Ok (filter_mask mask xs) else Raise IndexError.

(** [mask.nonzero()]: the positions of the [True] entries, ascending. *)
Fixpoint nonzero_from (i : nat) (mask : list bool) : list nat :=
  match mask with
  | [] => []
  | b :: mask' => if b then i :: nonzero_from (S i) mask' else nonzero_from (S i) mask'
  end.
Definition nonzero (mask : list bool) : list nat := nonzero_from 0 mask.

(** [scatter_mask mask vals] writes [vals], in order, at the [True]
    positions of [mask]; the other positions become [False]. *)
Fixpoint scatter_mask (mask : list bool) (vals : list bool) : list bool :=
  match mask with
  | [] => []
  | false :: mask' => false :: scatter_mask mask' vals
  | true :: mask' =>
      match vals with
      | v :: vals' => v :: scatter_mask mask' vals'
      | [] => false :: scatter_mask mask' []
      end
  end.

(** [t[t.clone()] = vals] on a boolean tensor [t]: [vals] must have one
    entry per [True] of [t], or a single entry, which is broadcast. *)
Definition masked_put (t : list bool) (vals : list bool) : Res (list bool) :=
  if (length vals =? count_true t)%nat then Ok (scatter_mask t vals)
  else match vals with
       | [v] => Ok (map (fun b => b && v) t)
       | _ => Raise (RuntimeError ShapeMismatch)
       end.

(** ** Reductions and selections of torch *)

(** [torch.argmin] / [torch.min(dim)] indices over one row: the index of the
    first minimal entry. *)
Fixpoint argmin (l : list Q) : nat :=
  match l with
  | [] => O
  | x :: l' =>
      match l' with
      | [] => O
      | _ => let j := argmin l' in
             if Qle_bool x (default 0 (l' !! j)) then O else S j
      end
  end.

(** [torch.argmax] over one row: the index of the first maximal entry. *)
Fixpoint argmax (l : list Q) : nat :=
  match l with
  | [] => O
  | x :: l' =>
      match l' with
      | [] => O
      | _ => let j := argmax l' in
             if Qle_bool (default 0 (l' !! j)) x then O else S j
      end
  end.

(** A reduction along a dimension of size zero raises. *)
Definition reduce_dim1 (f : list Q -> nat) (n_cols : nat) (rs : list (list Q)) : Res (list nat) :=
  if (n_cols =? 0)%nat then Raise IndexError else Ok (map f rs).

(** [torch.topk] orders the entries by value.  The order among equal values
    is not specified by torch; the model keeps them in index order. *)
Fixpoint insert_entry (before : Q -> Q -> bool) (x : nat * Q) (l : list (nat * Q))
  : list (nat * Q) :=
  match l with
  | [] => [x]
  | y :: l' => if before (snd y) (snd x) then y :: insert_entry before x l' else x :: l
  end.

Definition sort_entries (before : Q -> Q -> bool) (xs : list Q) : list (nat * Q) :=
  foldr (insert_entry before) [] (zip (seq 0 (length xs)) xs).

(** [torch.topk(xs, k, largest)] on a 1-D tensor: the [k] largest (or
    smallest) values and their indices; [k] must lie in [0, len(xs)]. *)
Definition topk (xs : list Q) (k : Z) (largest : bool) : Res (list Q * list nat) :=
  if (0 <=? k)%Z && (k <=? Z.of_nat (length xs))%Z then
    let before := if largest then Qgtb else (fun a b => Qgtb b a) in
    let best := take (Z.to_nat k) (sort_entries before xs) in
    Ok (map snd best, map fst best)
  else Raise (RuntimeError KOutOfRange).

(** [torch.topk(t, k, dim=0)] values of a 2-D tensor, one list of [k] values
    per column of [t] (the transpose of torch's [k, M] layout).  The range
    of [k] is checked against the number of rows before anything else. *)
Definition topk_dim0 (t : Tensor2) (k : Z) : Res (list (list Q)) :=
  if (0 <=? k)%Z && (k <=? Z.of_nat (nrows t))%Z then
    mapR (fun j => c <- column t j ;; r <- topk c k true ;; Ok (fst r)) (seq 0 (ncols t))
  else Raise (RuntimeError KOutOfRange).

(** ** Indexed writes *)

(** [rs[i][j] = v] for every pair [(i, j)] of [idx]. *)
Definition index_put (rs : list (list Q)) (idx : list (nat * nat)) (v : Q) : list (list Q) :=
  foldr (fun ij acc => alter (fun r => <[ij.2 := v]> r) ij.1 acc) rs idx.

(** [t[:, j][pos_idx] = v]: the column is a view, the write lands in [t]. *)
Definition put_column (t : Tensor2) (j : nat) (pos_idx : list nat) (v : Q) : Tensor2 :=
  T2 (ncols t) (index_put (rows t) (map (fun i => (i, j)) pos_idx) v).

(** [t[mask, :] *= c]. *)
Definition scale_rows (mask : list bool) (rs : list (list Q)) (c : Q) : list (list Q) :=
  zip_with (fun (b : bool) r => if b then map (fun x => x * c) r else r) mask rs.

(** Broadcasting of two sizes of one dimension. *)
Definition broadcast_dim (a b : nat) : option nat :=
  if (a =? b)%nat then Some a
  else if (a =? 1)%nat then Some b
  else if (b =? 1)%nat then Some a
  else None.

Definition expand {A} (n : nat) (l : list A) : list A :=
  if (length l =? n)%nat then l
  else match l with
       | [x] => replicate n x
       | _ => l
       end.

(** Elementwise product [a * b] of two 2-D tensors, with broadcasting. *)
Definition tensor_mul (a b : Tensor2) : Res Tensor2 :=
  match broadcast_dim (nrows a) (nrows b), broadcast_dim (ncols a) (ncols b) with
  | Some n, Some m =>
      Ok (T2 m (zip_with (fun r s => zip_with Qmult (expand m r) (expand m s))
                         (expand n (rows a)) (expand n (rows b))))
  | _, _ => Raise (RuntimeError ShapeMismatch)
  end.

(** [xs[idx]] with an index tensor. *)
Definition gather {A} (xs : list A) (idx : list nat) : Res (list A) :=
  mapR (fun j => match xs !! j with Some x => Ok x | None => Raise IndexError end) idx.

(** ** The assigner *)

Record SimOTAAssigner : Type := {
  center_radius : Q;
  candidate_topk : Z
}.

(** [SimOTAAssigner()] with the defaults of [__init__]. *)
Definition default_assigner : SimOTAAssigner :=
  {| center_radius := 5 # 2; candidate_topk := 10 |}.

(** *** dynamic_k_matching, lines 190-198: dynamic k and candidate selection *)

(** [torch.clamp(topk_ious.sum(0).int(), min=1)]. *)
Definition dynamic_ks_of (topk_ious : list (list Q)) : list Z :=
  map (fun c => Z.max 1 (Qtrunc (Qsum c))) topk_ious.

Definition compute_dynamic_ks (self : SimOTAAssigner) (pair_wise_ious : Tensor2)
  : Res (list Z) :=
  topk_ious <- topk_dim0 pair_wise_ious (candidate_topk self) ;;
  Ok (dynamic_ks_of topk_ious).

(** One iteration of [for gt_idx in range(num_gt)].  The state is the
    matching matrix and the binding of the local [pos_idx]. *)
Definition select_step (cost : Tensor2) (dynamic_ks : list Z)
    (st : Tensor2 * option (list nat)) (gt_idx : nat)
  : Res (Tensor2 * option (list nat)) :=
  c <- column cost gt_idx ;;
  k <- match dynamic_ks !! gt_idx with Some k => Ok k | None => Raise IndexError end ;;
  r <- topk c k false ;;
  Ok (put_column st.1 gt_idx r.2 1, Some r.2).

Fixpoint select_loop (cost : Tensor2) (dynamic_ks : list Z)
    (st : Tensor2 * option (list nat)) (gt_idxs : list nat)
  : Res (Tensor2 * option (list nat)) :=
  match gt_idxs with
  | [] => Ok st
  | gt_idx :: rest =>
      st' <- select_step cost dynamic_ks st gt_idx ;;
      select_loop cost dynamic_ks st' rest
  end.

(** Lines 190-200, up to and including [del topk_ious, dynamic_ks, pos_idx]:
    [pos_idx] is unbound when the loop body never ran. *)
Definition select_candidates (self : SimOTAAssigner) (cost pair_wise_ious : Tensor2)
    (num_gt : nat) : Res Tensor2 :=
  let matching_matrix := zeros_like cost in
  dynamic_ks <- compute_dynamic_ks self pair_wise_ious ;;
  st <- select_loop cost dynamic_ks (matching_matrix, None) (seq 0 num_gt) ;;
  match st.2 with
  | Some _ => Ok st.1
  | None => Raise UnboundLocalError
  end.

(** *** dynamic_k_matching, lines 202-207: conflict resolution *)

Definition resolve_conflicts (matching_matrix cost : Tensor2) : Res Tensor2 :=
  let prior_match_gt_mask := map (fun r => Qgtb (Qsum r) 1) (rows matching_matrix) in
  if (0 <? count_true prior_match_gt_mask)%nat then
    cost_sel <- mask_select prior_match_gt_mask (rows cost) ;;
    cost_argmin <- reduce_dim1 argmin (ncols cost) cost_sel ;;
    let zeroed := scale_rows prior_match_gt_mask (rows matching_matrix) 0 in
    Ok (T2 (ncols matching_matrix)
           (index_put zeroed (zip (nonzero prior_match_gt_mask) cost_argmin) 1))
  else Ok matching_matrix.

(** *** dynamic_k_matching, lines 208-219: result assembly *)

Record Matching : Type := {
  num_fg : nat;
  gt_matched_classes : list Z;
  pred_ious_this_matching : list Q;
  matched_gt_inds : list nat
}.

(** [fg_mask] is the caller's [valid_mask] tensor, written in place at
    line 211; the model returns the written tensor next to the results. *)
Definition assemble (matching_matrix pair_wise_ious : Tensor2) (gt_classes : list Z)
    (fg_mask : list bool) : Res (list bool * Matching) :=
  let fg_mask_inboxes := map (fun r => Qgtb (Qsum r) 0) (rows matching_matrix) in
  let num_fg := count_true fg_mask_inboxes in
  fg_mask' <- masked_put fg_mask fg_mask_inboxes ;;
  fg_rows <- mask_select fg_mask_inboxes (rows matching_matrix) ;;
  matched_gt_inds <- reduce_dim1 argmax (ncols matching_matrix) fg_rows ;;
  gt_matched_classes <- gather gt_classes matched_gt_inds ;;
  prod <- tensor_mul matching_matrix pair_wise_ious ;;
  pred_ious_this_matching <- mask_select fg_mask_inboxes (map Qsum (rows prod)) ;;
  Ok (fg_mask', {| num_fg := num_fg;
                   gt_matched_classes := gt_matched_classes;
                   pred_ious_this_matching := pred_ious_this_matching;
                   matched_gt_inds := matched_gt_inds |}).

Definition dynamic_k_matching (self : SimOTAAssigner) (cost pair_wise_ious : Tensor2)
    (gt_classes : list Z) (num_gt : nat) (fg_mask : list bool)
  : Res (list bool * Matching) :=
  matching_matrix <- select_candidates self cost pair_wise_ious num_gt ;;
  matching_matrix <- resolve_conflicts matching_matrix cost ;;
  assemble matching_matrix pair_wise_ious gt_classes fg_mask.

(** *** get_in_gt_and_in_center_info, lines 144-186: the candidate filter *)

(** One row of [priors]: [cx, cy, stride_w, stride_h]. *)
Record Prior : Type := {
  prior_x : Q;
  prior_y : Q;
  prior_stride_x : Q;
  prior_stride_y : Q
}.

(** One row of [gt_bboxes] or [decoded_bboxes]: [tl_x, tl_y, br_x, br_y]. *)
Record BBox : Type := {
  tl_x : Q;
  tl_y : Q;
  br_x : Q;
  br_y : Q
}.

(** [torch.stack([a, b, c, d], dim=1).min(dim=1).values]. *)
Definition min4 (a b c d : Q) : Q := Qmin (Qmin a b) (Qmin c d).

(** Entry [i, j] of [is_in_gts], for prior [p] and ground truth [g]. *)
Definition is_in_gt (p : Prior) (g : BBox) : bool :=
  let l_ := prior_x p - tl_x g in
  let t_ := prior_y p - tl_y g in
  let r_ := br_x g - prior_x p in
  let b_ := br_y g - prior_y p in
  Qgtb (min4 l_ t_ r_ b_) 0.

(** Entry [i, j] of [is_in_cts]. *)
Definition is_in_ct (self : SimOTAAssigner) (p : Prior) (g : BBox) : bool :=
  let gt_cxs := (tl_x g + br_x g) / 2 in
  let gt_cys := (tl_y g + br_y g) / 2 in
  let ct_box_l := gt_cxs - center_radius self * prior_stride_x p in
  let ct_box_t := gt_cys - center_radius self * prior_stride_y p in
  let ct_box_r := gt_cxs + center_radius self * prior_stride_x p in
  let ct_box_b := gt_cys + center_radius self * prior_stride_y p in
  let cl_ := prior_x p - ct_box_l in
  let ct_ := prior_y p - ct_box_t in
  let cr_ := ct_box_r - prior_x p in
  let cb_ := ct_box_b - prior_y p in
  Qgtb (min4 cl_ ct_ cr_ cb_) 0.

(** [m.sum(dim=1) > 0] on a boolean matrix. *)
Definition any_in_row (m : list (list bool)) : list bool :=
  map (fun r => (0 <? count_true r)%nat) m.

Definition get_in_gt_and_in_center_info (self : SimOTAAssigner)
    (priors : list Prior) (gt_bboxes : list BBox) : list bool * list (list bool) :=
  let is_in_gts := map (fun p => map (is_in_gt p) gt_bboxes) priors in
  let is_in_gts_all := any_in_row is_in_gts in
  let is_in_cts := map (fun p => map (is_in_ct self p) gt_bboxes) priors in
  let is_in_cts_all := any_in_row is_in_cts in
  let is_in_gts_or_centers := zip_with orb is_in_gts_all is_in_cts_all in
  let is_in_boxes_and_centers :=
    zip_with (zip_with andb)
             (filter_mask is_in_gts_or_centers is_in_gts)
             (filter_mask is_in_gts_or_centers is_in_cts) in
  (is_in_gts_or_centers, is_in_boxes_and_centers).

(** *** _assign, lines 109-142 *)

Inductive Device : Set := Cuda | Cpu.

(** What the assigner takes from torch and from [mmdet.core]: the
    transcendental functions, the IoU of two boxes and the capacity of a
    device. *)
Class Backend : Type := {
  torch_log : Q -> Q;
  torch_sqrt : Q -> Q;
  (** [F.binary_cross_entropy(input, target, reduction='none')], one entry *)
  binary_cross_entropy : Q -> Q -> Q;
  (** the overlap of two boxes, one entry of [bbox_overlaps] *)
  box_iou : BBox -> BBox -> Q;
  (** [out_of_memory d n]: device [d] cannot hold a new tensor of [n] entries *)
  out_of_memory : Device -> nat -> bool
}.

(** The arguments of [assign] and [_assign]; [gt_bboxes_ignore] is never
    read.  [device] is the device the tensors live on. *)
Record Inputs : Type := {
  device : Device;
  pred_scores : Tensor2;        (* [num_priors, num_classes] *)
  priors : list Prior;          (* [num_priors, 4] *)
  decoded_bboxes : list BBox;   (* [num_priors, 4] *)
  gt_bboxes : list BBox;        (* [num_gts, 4] *)
  gt_labels : list Z;           (* [num_gts] *)
  eps : Q
}.

(** The default of the [eps] argument, [1e-7]. *)
Definition default_eps : Q := 1 # 10000000.

Record AssignResult : Type := {
  result_device : Device;
  valid_mask : list bool;
  matching : Matching
}.

Definition INF : Q := 100000000.

(** [F.one_hot(gt_labels, num_classes).float()]. *)
Definition one_hot (labels : list Z) (num_classes : nat) : Res (list (list Q)) :=
  mapR (fun l : Z =>
          if (0 <=? l)%Z && (l <? Z.of_nat num_classes)%Z
          then Ok (map (fun c : nat => if (Z.of_nat c =? l)%Z then 1 else 0)
                       (seq 0 num_classes))
          else Raise (RuntimeError ClassValueOutOfRange))
       labels.

Section Assign.
Context `{Backend}.

(** [mmdet.core.bbox_overlaps(bboxes1, bboxes2)]: the tensor of shape
    [len(bboxes1), len(bboxes2)] of the pairwise overlaps. *)
Definition bbox_overlaps (bboxes1 bboxes2 : list BBox) : list (list Q) :=
  map (fun a => map (box_iou a) bboxes2) bboxes1.

(** [-torch.log(pair_wise_ious + eps)]. *)
Definition iou_cost_of (pair_wise_ious : list (list Q)) (eps : Q) : list (list Q) :=
  map (map (fun x => - torch_log (x + eps))) pair_wise_ious.

(** Creating a tensor of [n] entries on device [dev]. *)
Definition alloc (dev : Device) (n : nat) : Res unit :=
  if out_of_memory dev n then Raise (RuntimeError OutOfMemory) else Ok tt.

(** Lines 123-131.  The two operands of the cross entropy, of shapes
    [num_valid, len(gt_labels), C] and [num_valid, num_gt, C], are the
    largest tensors of the call; the model lets the device run out of memory
    there.  [F.binary_cross_entropy] refuses operands of different sizes. *)
Definition cls_cost_of (dev : Device) (valid_pred_scores : list (list Q))
    (gt_labels : list Z) (num_classes num_gt : nat) : Res (list (list Q)) :=
  let num_valid := length valid_pred_scores in
  onehot <- one_hot gt_labels num_classes ;;
  _ <- alloc dev (num_valid * length gt_labels * num_classes) ;;
  _ <- alloc dev (num_valid * num_gt * num_classes) ;;
  if (length gt_labels =? num_gt)%nat then
    Ok (map (fun scores =>
               map (fun target =>
                      Qsum (zip_with binary_cross_entropy (map torch_sqrt scores) target))
                   onehot)
            valid_pred_scores)
  else Raise ValueError.

(** Line 133: [cls_cost + 3.0 * iou_cost + INF * (~is_in_boxes_and_center)].
    The three operands have shape [num_valid, num_gt]. *)
Definition cost_matrix_of (cls_cost iou_cost : list (list Q))
    (is_in_boxes_and_center : list (list bool)) (num_gt : nat) : Tensor2 :=
  T2 num_gt
     (zip_with (fun (cr : list Q) (ir : list (Q * bool)) =>
                  zip_with (fun (c : Q) (ib : Q * bool) =>
                              c + 3 * ib.1 + INF * (if negb ib.2 then 1 else 0))
                           cr ir)
               cls_cost
               (zip_with zip iou_cost is_in_boxes_and_center)).

Definition _assign (self : SimOTAAssigner) (inp : Inputs) : Res AssignResult :=
  let num_gt := length (gt_bboxes inp) in
  let '(valid_mask, is_in_boxes_and_center) :=
    get_in_gt_and_in_center_info self (priors inp) (gt_bboxes inp) in
  valid_decoded_bbox <- mask_select valid_mask (decoded_bboxes inp) ;;
  valid_pred_scores <- mask_select valid_mask (rows (pred_scores inp)) ;;
  let pair_wise_ious := bbox_overlaps valid_decoded_bbox (gt_bboxes inp) in
  let iou_cost := iou_cost_of pair_wise_ious (eps inp) in
  cls_cost <- cls_cost_of (device inp) valid_pred_scores (gt_labels inp)
                          (ncols (pred_scores inp)) num_gt ;;
  let cost_matrix := cost_matrix_of cls_cost iou_cost is_in_boxes_and_center num_gt in
  r <- dynamic_k_matching self cost_matrix (T2 num_gt pair_wise_ious)
                          (gt_labels inp) num_gt valid_mask ;;
  Ok {| result_device := device inp; valid_mask := r.1; matching := r.2 |}.

(** *** assign, lines 53-81: the CPU fallback *)

(** What [assign] does besides computing: the warning and the release of
    the CUDA cache. *)
Inductive Event : Set :=
  | WarnOOM      (* warnings.warn('OOM RuntimeError is raised ...') *)
  | EmptyCache.  (* torch.cuda.empty_cache() *)

(** [pred_scores.cpu()], [priors.cpu()], ... *)
Definition to_cpu (inp : Inputs) : Inputs :=
  {| device := Cpu;
     pred_scores := pred_scores inp;
     priors := priors inp;
     decoded_bboxes := decoded_bboxes inp;
     gt_bboxes := gt_bboxes inp;
     gt_labels := gt_labels inp;
     eps := eps inp |}.

(** [x.to(origin_device)] on every tensor of the result. *)
Definition to_device (d : Device) (r : AssignResult) : AssignResult :=
  {| result_device := d; valid_mask := valid_mask r; matching := matching r |}.

Definition assign (self : SimOTAAssigner) (inp : Inputs) : list Event * Res AssignResult :=
  match _assign self inp with
  | Ok assign_results => ([], Ok assign_results)
  | Raise (RuntimeError _) =>
      let origin_device := device inp in
      let log := [WarnOOM; EmptyCache] in
      match _assign self (to_cpu inp) with
      | Ok assign_results => (log, Ok (to_device origin_device assign_results))
      | Raise e => (log, Raise e)
      end
  | Raise e => ([], Raise e)
  end.

End Assign.

(** ** A backend to run the model on concrete inputs *)

(** Modelled from the spec: [mmdet.core.bbox_overlaps] is not among the
    sources.  The spec has it as the "intersection-over-union of
    DecodedBoxes[i] and GroundTruth[j], in [0,1]", the "ratio of overlap
    area to union area between two boxes". *)
Definition iou_of (a b : BBox) : Q :=
  let w := Qmax 0 (Qmin (br_x a) (br_x b) - Qmax (tl_x a) (tl_x b)) in
  let h := Qmax 0 (Qmin (br_y a) (br_y b) - Qmax (tl_y a) (tl_y b)) in
  let overlap := w * h in
  let area1 := (br_x a - tl_x a) * (br_y a - tl_y a) in
  let area2 := (br_x b - tl_x b) * (br_y b - tl_y b) in
  Qred (overlap / (area1 + area2 - overlap)).

(** The example backend: exact IoU, no memory limit, and rational
    stand-ins for the transcendental functions (first-order expansions
    around 1), which the theorems below never look into. *)
Definition example_backend : Backend := {|
  torch_log := fun x => x - 1;
  torch_sqrt := fun x => (x + 1) / 2;
  binary_cross_entropy := fun x t => Qred (- (t * (x - 1) + (1 - t) * (- x)));
  box_iou := iou_of;
  out_of_memory := fun _ _ => false
|}.

(** * The hooks of YOLOX *)

(** The exceptions of the hooks: those of the assigner and three more. *)
Inductive hook_exn : Type :=
  | ZeroDivisionError
  | KeyError
  | EmptyCat (* the RuntimeError of torch.cat on an empty list *)
  | Builtin (e : exn).

(** A computation of a hook returns a value or raises. *)
Inductive HookRes (A : Type) : Type :=
  | Done (a : A)
  | Fail (e : hook_exn).
Arguments Done {A} a.
Arguments Fail {A} e.

(** [runner.epoch], [runner.max_epochs], [runner.iter], [runner.max_iters]
    and [len(runner.data_loader)]. *)
Record Runner : Type := {
  epoch : Z;
  max_epochs : Z;
  iter : Z;
  max_iters : Z;
  data_loader_len : Z
}.

(** ** CosineAnnealingWithStopLrUpdaterHook *)

Module LrUpdater.

(** The keyword arguments handed on to [CosineAnnealingLrUpdaterHook] and
    [LrUpdaterHook] of mmcv, which store them under the same names.  mmcv
    asserts that exactly one of [min_lr] and [min_lr_ratio] is given;
    [min_lr] is read only when [min_lr_ratio] is [None]. *)
Record Kwargs : Type := {
  kw_by_epoch : bool;
  kw_warmup_iters : Z;
  kw_min_lr : Q;
  kw_min_lr_ratio : option Q
}.

Record Hook : Type := {
  base_lr_ : Q;
  no_aug_epoch : Z;
  warmup_ratio : Q;
  warmup_iters : Z;
  by_epoch : bool;
  min_lr : Q;
  min_lr_ratio : option Q
}.

(** [__init__], lines 18-22; [work_size] is the world size of
    [get_dist_info()]. *)
Definition __init__ (work_size : Z) (no_aug_epoch : Z) (warmup_ratio : Q)
    (kwargs : Kwargs) : Hook :=
  let base_lr_ := warmup_ratio * inject_Z work_size in
  {| base_lr_ := base_lr_;
     no_aug_epoch := no_aug_epoch;
     warmup_ratio := base_lr_;
     warmup_iters := kw_warmup_iters kwargs;
     by_epoch := kw_by_epoch kwargs;
     min_lr := kw_min_lr kwargs;
     min_lr_ratio := kw_min_lr_ratio kwargs |}.

(** The inner [_get_warmup_lr], lines 25-30. *)
Definition _get_warmup_lr (self : Hook) (cur_iters : Z) (regular_lr : list Q)
  : HookRes (list Q) :=
  if (warmup_iters self =? 0)%Z then Fail ZeroDivisionError
  else
    let k := warmup_ratio self
             * (inject_Z cur_iters / inject_Z (warmup_iters self)) ^ 2 in
    Done (map (fun _lr => k) regular_lr).

(** [self.regular_lr]: a list with one rate per parameter group, or a
    dict of such lists, one per optimizer. *)
Inductive RegularLr (K : Type) : Type :=
  | LrList (lrs : list Q)
  | LrDict (groups : list (K * list Q)).
Arguments LrList {K} lrs.
Arguments LrDict {K} groups.

(** The loop of lines 34-35 over the items of the dict. *)
Fixpoint warmup_groups {K} (self : Hook) (cur_iters : Z) (items : list (K * list Q))
  : HookRes (list (K * list Q)) :=
  match items with
  | [] => Done []
  | (key, regular_lr) :: rest =>
      match _get_warmup_lr self cur_iters regular_lr with
      | Done lr =>
          match warmup_groups self cur_iters rest with
          | Done groups => Done ((key, lr) :: groups)
          | Fail e => Fail e
          end
      | Fail e => Fail e
      end
  end.

(** [get_warmup_lr], lines 24-38; [regular_lr] is [self.regular_lr]. *)
Definition get_warmup_lr {K} (self : Hook) (regular_lr : RegularLr K) (cur_iters : Z)
  : HookRes (RegularLr K) :=
  match regular_lr with
  | LrDict groups =>
      match warmup_groups self cur_iters groups with
      | Done lr_groups => Done (LrDict lr_groups)
      | Fail e => Fail e
      end
  | LrList lrs =>
      match _get_warmup_lr self cur_iters lrs with
      | Done lr => Done (LrList lr)
      | Fail e => Fail e
      end
  end.

Section GetLr.
(** [mmcv.runner.hooks.lr_updater.annealing_cos(start, end, factor)]. *)
Variable annealing_cos : Q -> Q -> Q -> Q.

(** [no_aug_iter], line 42. *)
Definition no_aug_iter (self : Hook) (runner : Runner) : Z :=
  (data_loader_len runner * no_aug_epoch self)%Z.

(** [progress] and [max_progress], lines 44-49. *)
Definition progress (self : Hook) (runner : Runner) : Z :=
  if by_epoch self then epoch runner else iter runner.

Definition max_progress (self : Hook) (runner : Runner) : Z :=
  if by_epoch self then max_epochs runner else max_iters runner.

(** [target_lr], lines 51-54. *)
Definition target_lr (self : Hook) : Q :=
  match min_lr_ratio self with
  | Some ratio => base_lr_ self * ratio
  | None => min_lr self
  end.

(** [get_lr], lines 40-60.  The argument [base_lr] is not read. *)
Definition get_lr (self : Hook) (runner : Runner) (base_lr : Q) : HookRes Q :=
  let no_aug_iter := no_aug_iter self runner in
  let progress := progress self runner in
  let max_progress := max_progress self runner in
  let target_lr := target_lr self in
  if (max_progress - no_aug_iter <=? progress)%Z then Done target_lr
  else
    let span := (max_progress - warmup_iters self - no_aug_iter)%Z in
    if (span =? 0)%Z then Fail ZeroDivisionError
    else Done (annealing_cos (base_lr_ self) target_lr
                 (inject_Z (progress - warmup_iters self) / inject_Z span)).

End GetLr.

End LrUpdater.

(** ** YOLOXProcessHook *)

Module ProcessHook.

(** [random_resize], lines 13-28, on one process.  [drawn] is the value
    [random.randint] returns, [tensor] what the new [LongTensor(2)] holds,
    [received] what [dist.broadcast] delivers from rank 0 on another
    rank.  The result is the [dynamic_scale] written to the dataset. *)
Definition random_resize (random_size : Z * Z) (rank : Z) (is_distributed : bool)
    (input_size : Z * Z) (drawn : Z) (tensor received : Z * Z) : HookRes (Z * Z) :=
  let written :=
    if (rank =? 0)%Z then
      if (input_size.1 =? 0)%Z then Fail ZeroDivisionError
      else
        let size_factor := inject_Z input_size.2 * 1 / inject_Z input_size.1 in
        if (random_size.1 <=? random_size.2)%Z then
          let size := drawn in
          Done ((32 * size)%Z, (32 * Qtrunc (inject_Z size * size_factor))%Z)
        else Fail (Builtin ValueError)
    else Done tensor in
  match written with
  | Done tensor =>
      Done (if is_distributed && negb (rank =? 0)%Z then received else tensor)
  | Fail e => Fail e
  end.

Record Hook : Type := {
  rank : Z;
  is_distributed : bool;
  ratio_range : option (Z * Z);
  img_scale : Z * Z;
  no_aug_epoch : Z;
  sync_interval : Z;
  change_scale_interval : Z
}.

(** [__init__], lines 142-149; [dist_info] is [get_dist_info()]. *)
Definition __init__ (dist_info : Z * Z) (ratio_range : option (Z * Z))
    (img_scale : Z * Z) (no_aug_epoch sync_interval change_scale_interval : Z) : Hook :=
  {| rank := dist_info.1;
     is_distributed := (1 <? dist_info.2)%Z;
     ratio_range := ratio_range;
     img_scale := img_scale;
     no_aug_epoch := no_aug_epoch;
     sync_interval := sync_interval;
     change_scale_interval := change_scale_interval |}.

(** What the hook switches: the two flags of the dataset and [use_l1] of
    the head. *)
Record Training : Type := {
  enable_mosaic : bool;
  enable_mixup : bool;
  use_l1 : bool
}.

(** [after_train_iter], lines 151-158: the new [dynamic_scale], if the
    image size is changed after this iteration. *)
Definition after_train_iter (self : Hook) (runner : Runner)
    (drawn : Z) (tensor received : Z * Z) : HookRes (option (Z * Z)) :=
  let progress_in_iter := iter runner in
  match ratio_range self with
  | Some range =>
      if (change_scale_interval self =? 0)%Z then Fail ZeroDivisionError
      else if ((progress_in_iter + 1) mod change_scale_interval self =? 0)%Z then
        match random_resize range (rank self) (is_distributed self) (img_scale self)
                drawn tensor received with
        | Done scale => Done (Some scale)
        | Fail e => Fail e
        end
      else Done None
  | None => Done None
  end.

(** [before_train_epoch], lines 160-171. *)
Definition before_train_epoch (self : Hook) (runner : Runner) (st : Training) : Training :=
  if (epoch runner + 1 =? max_epochs runner - no_aug_epoch self)%Z then
    {| enable_mosaic := false; enable_mixup := false; use_l1 := true |}
  else st.

(** [after_train_epoch], lines 173-177: whether the norm statistics are
    synchronised after this epoch. *)
Definition after_train_epoch (self : Hook) (runner : Runner) : HookRes bool :=
  if (sync_interval self =? 0)%Z then Fail ZeroDivisionError
  else Done ((epoch runner + 1) mod sync_interval self =? 0)%Z.

(** The calls of [before_train_epoch] by the runner for [n] consecutive
    epochs from [runner.epoch]. *)
Fixpoint train_epochs (self : Hook) (runner : Runner) (n : nat) (st : Training)
  : Training :=
  match n with
  | O => st
  | S n' =>
      let st' := before_train_epoch self runner st in
      train_epochs self
        {| epoch := epoch runner + 1; max_epochs := max_epochs runner;
           iter := (iter runner + data_loader_len runner)%Z;
           max_iters := max_iters runner;
           data_loader_len := data_loader_len runner |} n' st'
  end.

End ProcessHook.

(** ** all_reduce (yolox_process_hook.py and tools/dist_test.py) *)

(** A tensor of any rank: its shape and its entries in the order of
    [flatten()]. *)
Record NdTensor : Type := {
  shape : list nat;
  data : list Q
}.

(** [t.numel()]. *)
Definition numel (t : NdTensor) : nat := length (data t).

(** The number of entries of a shape. *)
Definition shape_numel (s : list nat) : nat := foldr Nat.mul 1%nat s.

(** [x.reshape(shape)] of a 1-D tensor. *)
Definition reshape (x : list Q) (s : list nat) : HookRes NdTensor :=
  if (shape_numel s =? length x)%nat then Done {| shape := s; data := x |}
  else Fail (Builtin (RuntimeError ShapeMismatch)).

(** [str.lower()], on ASCII. *)
Definition lower_char (c : Ascii.ascii) : Ascii.ascii :=
  let n := Ascii.nat_of_ascii c in
  if (65 <=? n)%nat && (n <=? 90)%nat then Ascii.ascii_of_nat (n + 32) else c.

Fixpoint lower (s : string) : string :=
  match s with
  | EmptyString => EmptyString
  | String c s' => String (lower_char c) (lower s')
  end.

Inductive ReduceOp : Set := SUM.

(** [_get_reduce_op], lines 61-65. *)
Definition _get_reduce_op (op_name : string) : HookRes ReduceOp :=
  if String.eqb (lower op_name) "sum" then Done SUM
  else if String.eqb (lower op_name) "mean" then Done SUM
  else Fail KeyError.

(** [torch.split(x, sizes)] without the check of the sizes. *)
Fixpoint split_sizes (x : list Q) (sizes : list nat) : list (list Q) :=
  match sizes with
  | [] => []
  | n :: rest => take n x :: split_sizes (drop n x) rest
  end.

(** [torch.split(x, sizes)]: the sizes must add up to the length. *)
Definition torch_split (x : list Q) (sizes : list nat) : HookRes (list (list Q)) :=
  if (foldr Nat.add 0%nat sizes =? length x)%nat then Done (split_sizes x sizes)
  else Fail (Builtin (RuntimeError ShapeMismatch)).

(** [torch.cat(xs)] of 1-D tensors: the list must not be empty. *)
Definition torch_cat (xs : list (list Q)) : HookRes (list Q) :=
  match xs with
  | [] => Fail EmptyCat
  | _ => Done (concat xs)
  end.

Fixpoint mapH {A B} (f : A -> HookRes B) (l : list A) : HookRes (list B) :=
  match l with
  | [] => Done []
  | x :: l' =>
      match f x with
      | Done y =>
          match mapH f l' with
          | Done ys => Done (y :: ys)
          | Fail e => Fail e
          end
      | Fail e => Fail e
      end
  end.

Section AllReduce.
Context {K : Type} `{EqDecision K}.

(** A dict from keys to tensors, in insertion order. *)
Definition PyDict : Type := list (K * NdTensor).

Definition keys (d : PyDict) : list K := d.*1.

Fixpoint dict_get (d : PyDict) (k : K) : option NdTensor :=
  match d with
  | [] => None
  | (k', t) :: d' => if decide (k' = k) then Some t else dict_get d' k
  end.

(** [py_dict[k]]. *)
Definition getitem (d : PyDict) (k : K) : HookRes NdTensor :=
  match dict_get d k with
  | Some t => Done t
  | None => Fail KeyError
  end.

(** [dist.all_reduce(tensor, op)] on the rank [rank]: given the tensor each
    rank of the group passes, in the order of the ranks, or the exception
    that kept it from the call, what the tensor of this rank holds when
    the call returns. *)
Variable dist_all_reduce : ReduceOp -> list (HookRes (list Q)) -> nat -> HookRes (list Q).

(** Lines 104-107: the tensor a process passes to [dist.all_reduce]. *)
Definition flatten_of (py_dict : PyDict) (py_key : list K) : HookRes (list Q) :=
  match mapH (getitem py_dict) py_key with
  | Done tensors => torch_cat (map data tensors)
  | Fail e => Fail e
  end.

(** Lines 112-117. *)
Definition rebuild (py_key : list K) (flatten_tensor : list Q)
    (tensor_numels : list nat) (tensor_shapes : list (list nat)) : HookRes PyDict :=
  match torch_split flatten_tensor tensor_numels with
  | Done parts =>
      match mapH (fun xs => reshape xs.1 xs.2) (zip parts tensor_shapes) with
      | Done split_tensors => Done (zip py_key split_tensors)
      | Fail e => Fail e
      end
  | Fail e => Fail e
  end.

(** [all_reduce], lines 81-117, on the process whose dict is [py_dict];
    [before] and [after] are the dicts of the processes of lower and of
    higher rank.  [dist.broadcast] delivers the key list of rank 0. *)
Definition all_reduce (before : list PyDict) (py_dict : PyDict) (after : list PyDict)
    (op : string) : HookRes PyDict :=
  let world := before ++ py_dict :: after in
  let rank := length before in
  let world_size := length world in
  if (world_size =? 1)%nat then Done py_dict
  else
    let py_key := keys (default py_dict (head before)) in
    match mapH (getitem py_dict) py_key with
    | Done tensors =>
        let tensor_shapes := map shape tensors in
        let tensor_numels := map numel tensors in
        match torch_cat (map data tensors), _get_reduce_op op with
        | Done _, Done reduce_op =>
            match dist_all_reduce reduce_op
                    (map (fun d => flatten_of d py_key) world) rank with
            | Done flatten_tensor =>
                let flatten_tensor :=
                  if String.eqb op "mean"
                  then map (fun x => x / inject_Z (Z.of_nat world_size)) flatten_tensor
                  else flatten_tensor in
                rebuild py_key flatten_tensor tensor_numels tensor_shapes
            | Fail e => Fail e
            end
        | Fail e, _ => Fail e
        | Done _, Fail e => Fail e
        end
    | Fail e => Fail e
    end.

End AllReduce.

(** * DataTransformer.py: results in the order of the image numbers *)

(** The position a Python list of length [len] has for the index [j]:
    negative indices count from the end. *)
Definition py_index (len : nat) (j : Z) : option nat :=
  if (0 <=? j)%Z && (j <? Z.of_nat len)%Z then Some (Z.to_nat j)
  else if (- Z.of_nat len <=? j)%Z && (j <? 0)%Z then Some (Z.to_nat (Z.of_nat len + j))
  else None.

(** [l[j]]. *)
Definition py_getitem {A} (l : list A) (j : Z) : Res A :=
  match py_index (length l) j ≫= (l !!.) with
  | Some x => Ok x
  | None => Raise IndexError
  end.

(** [l[j] = v]. *)
Definition py_setitem {A} (l : list A) (j : Z) (v : A) : Res (list A) :=
  match py_index (length l) j with
  | Some n => Ok (<[n := v]> l)
  | None => Raise IndexError
  end.

(** An entry of [ans]: the [0] it is created with, or the result of an
    image. *)
Inductive Slot (A : Type) : Type :=
  | Zero
  | Result (r : A).
Arguments Zero {A}.
Arguments Result {A} r.

(** Lines 14-17: [image_order], from the numbers read from the file. *)
Definition image_order_of (numbers : list Z) : list Z :=
  map (fun line => (line - 10001)%Z) numbers.

(** Lines 23-24: [for i in ...: ans[image_order[i]] = content[i]]. *)
Fixpoint fill {A} (image_order : list Z) (content : list A) (ans : list (Slot A))
    (range : list nat) : Res (list (Slot A)) :=
  match range with
  | [] => Ok ans
  | i :: rest =>
      c <- py_getitem content (Z.of_nat i) ;;
      j <- py_getitem image_order (Z.of_nat i) ;;
      ans' <- py_setitem ans j (Result c) ;;
      fill image_order content ans' rest
  end.

(** Lines 14-24. *)
Definition reorder {A} (numbers : list Z) (content : list A) : Res (list (Slot A)) :=
  let image_order := image_order_of numbers in
  let ans := replicate 3000 Zero in
  fill image_order content ans (seq 0 3000).

(** * Definitions used in the statements *)

(** ** The candidate filter, in the words of the specification *)

(** In-box: the four margins from the prior's center to the edges of the
    ground-truth box are strictly positive. *)
Definition in_box (p : Prior) (g : BBox) : Prop :=
  0 < prior_x p - tl_x g /\ 0 < prior_y p - tl_y g /\
  0 < br_x g - prior_x p /\ 0 < br_y g - prior_y p.

(** The center region of [g] seen from [p]: centered at the centroid of
    [g], of half-size [center_radius] times the stride of [p]. *)
Definition center_l (self : SimOTAAssigner) (p : Prior) (g : BBox) : Q :=
  (tl_x g + br_x g) / 2 - center_radius self * prior_stride_x p.
Definition center_t (self : SimOTAAssigner) (p : Prior) (g : BBox) : Q :=
  (tl_y g + br_y g) / 2 - center_radius self * prior_stride_y p.
Definition center_r (self : SimOTAAssigner) (p : Prior) (g : BBox) : Q :=
  (tl_x g + br_x g) / 2 + center_radius self * prior_stride_x p.
Definition center_b (self : SimOTAAssigner) (p : Prior) (g : BBox) : Q :=
  (tl_y g + br_y g) / 2 + center_radius self * prior_stride_y p.

(** In-center: the four margins to the center region are strictly
    positive. *)
Definition in_center (self : SimOTAAssigner) (p : Prior) (g : BBox) : Prop :=
  0 < prior_x p - center_l self p g /\ 0 < prior_y p - center_t self p g /\
  0 < center_r self p g - prior_x p /\ 0 < center_b self p g - prior_y p.

(** ** Matrices *)

(** A tensor entry that is 0 or 1. *)
Definition bit (x : Q) : Prop := x == 0 \/ x == 1.

(** A 0/1 matrix. *)
Definition bits (m : Tensor2) : Prop := Forall (Forall bit) (rows m).

(** A value in the unit interval. *)
Definition unit_interval (x : Q) : Prop := 0 <= x <= 1.

(** Column [j] of a tensor, for [j] in range. *)
Definition column_values (t : Tensor2) (j : nat) : list Q :=
  map (fun r => default 0 (r !! j)) (rows t).

(** The invariant of the loop over the ground truths: the matching matrix
    is a 0/1 matrix of the shape of the cost matrix. *)
Definition matching_inv (cost m : Tensor2) : Prop :=
  wf m /\ same_shape m cost /\ bits m.

(** ** torch.topk *)

(** Entries in non-increasing order of value. *)
Definition value_ge (a b : nat * Q) : Prop := b.2 <= a.2.

(** The values [torch.topk(xs, k)] returns, for [k] in range. *)
Definition top_values (k : nat) (xs : list Q) : list Q :=
  (take k (sort_entries Qgtb xs)).*2.

(** ** Conflict resolution, row by row *)

(** A prior matched to more than one ground truth. *)
Definition conflict (r : list Q) : bool := Qgtb (Qsum r) 1.

(** What conflict resolution does to one row of the matching matrix,
    given the same row of the cost matrix. *)
Definition resolved_row (r c : list Q) : list Q :=
  if Qgtb (Qsum r) 1 then <[argmin c := 1]> (map (fun x => x * 0) r) else r.

(** The matching matrix after conflict resolution. *)
Definition resolved (m cost : Tensor2) : Tensor2 :=
  T2 (ncols m) (zip_with resolved_row (rows m) (rows cost)).

(** The foreground mask of a matching matrix: the rows with a positive
    sum. *)
Definition foreground (m : Tensor2) : list bool :=
  map (fun r => Qgtb (Qsum r) 0) (rows m).

(** An index pair one row further down. *)
Definition shift_row (ij : nat * nat) : nat * nat := (S ij.1, ij.2).

(** ** The dynamic-k selection, entry by entry *)

(** Entries in non-decreasing order of value. *)
Definition value_le (a b : nat * Q) : Prop := a.2 <= b.2.

(** The indices [torch.topk(xs, k, largest=False)] returns, for [k] in
    range. *)
Definition bottom_indices (k : nat) (xs : list Q) : list nat :=
  (take k (sort_entries (fun a b => Qgtb b a) xs)).*1.

(** Entry [(i, j)] of a tensor. *)
Definition entry (t : Tensor2) (i j : nat) : option Q := rows t !! i ≫= (.!! j).

(** Prior [i] is among the [k_j] priors of lowest cost for ground truth
    [j]. *)
Definition selected (cost : Tensor2) (ks : list Z) (i j : nat) : bool :=
  match ks !! j with
  | Some k => bool_decide (i ∈ bottom_indices (Z.to_nat k) (column_values cost j))
  | None => false
  end.

(** The state of the selection loop after the ground truths [done_] have
    been processed. *)
Definition selection_state (cost : Tensor2) (ks : list Z) (done_ : list nat)
    (m : Tensor2) : Prop :=
  matching_inv cost m /\
  forall i j, (i < nrows cost)%nat -> (j < ncols cost)%nat ->
    entry m i j = Some (if bool_decide (j ∈ done_) && selected cost ks i j then 1 else 0).

(** The priors selected for ground truth [j], for all [j < num_gt]. *)
Definition selections (cost : Tensor2) (ks : list Z) (num_gt : nat) : list nat :=
  concat (map (fun j => match ks !! j with
                        | Some k => bottom_indices (Z.to_nat k) (column_values cost j)
                        | None => []
                        end) (seq 0 num_gt)).

(** The sum of the dynamic k of the ground truths [j < num_gt]. *)
Definition total_k (ks : list Z) (num_gt : nat) : Z :=
  foldr Z.add 0%Z (map (fun j => default 0%Z (ks !! j)) (seq 0 num_gt)).

(** ** The hooks *)

(** The state after the switch of [before_train_epoch]. *)
Definition no_aug : ProcessHook.Training :=
  {| ProcessHook.enable_mosaic := false; ProcessHook.enable_mixup := false;
     ProcessHook.use_l1 := true |}.

(** Entry [i] of the tensor of key [k] in a dict, 0 where there is none. *)
Definition dict_entry {K} `{EqDecision K} (d : PyDict) (k : K) (i : nat) : Q :=
  default 0 (dict_get d k ≫= fun t => data t !! i).

(** The tensor of a key, for a key of the dict. *)
Definition tensor_of {K} `{EqDecision K} (d : PyDict) (k : K) : NdTensor :=
  default {| shape := []; data := [] |} (dict_get d k).

(** ** Concrete inputs *)

Definition mk_prior (x y s : Q) : Prior :=
  {| prior_x := x; prior_y := y; prior_stride_x := s; prior_stride_y := s |}.

Definition mk_box (a b c d : Q) : BBox :=
  {| tl_x := a; tl_y := b; br_x := c; br_y := d |}.

(** An assigner that looks at the two best IoUs of each ground truth. *)
Definition top2_assigner : SimOTAAssigner :=
  {| center_radius := 5 # 2; candidate_topk := 2 |}.

(** One ground truth [(10, 10, 50, 50)] of label 2 and three priors of
    stride 8 at [(20, 20)], [(30, 30)] and [(100, 100)]: the first two lie
    in the box and in its center region, the third in neither. *)
Definition one_gt_inputs : Inputs := {|
  device := Cuda;
  pred_scores :=
    T2 3 [[1 # 10; 1 # 5; 7 # 10]; [1 # 5; 1 # 5; 1 # 2]; [3 # 10; 3 # 10; 3 # 10]];
  priors := [mk_prior 20 20 8; mk_prior 30 30 8; mk_prior 100 100 8];
  decoded_bboxes := [mk_box 12 12 48 48; mk_box 10 10 40 40; mk_box 90 90 110 110];
  gt_bboxes := [mk_box 10 10 50 50];
  gt_labels := [2%Z];
  eps := default_eps
|}.

(** The same image without ground truth. *)
Definition no_gt_inputs : Inputs := {|
  device := Cuda;
  pred_scores := pred_scores one_gt_inputs;
  priors := priors one_gt_inputs;
  decoded_bboxes := decoded_bboxes one_gt_inputs;
  gt_bboxes := [];
  gt_labels := [];
  eps := default_eps
|}.

(** The same image with a label outside the three classes. *)
Definition bad_label_inputs : Inputs := {|
  device := Cuda;
  pred_scores := pred_scores one_gt_inputs;
  priors := priors one_gt_inputs;
  decoded_bboxes := decoded_bboxes one_gt_inputs;
  gt_bboxes := gt_bboxes one_gt_inputs;
  gt_labels := [7%Z];
  eps := default_eps
|}.

(** Three valid priors and two ground truths.  The first prior is selected
    for both ground truths in [ex_matching]; its cost is lower for the
    second. *)
Definition ex_cost : Tensor2 := T2 2 [[3; 2]; [1; 5]; [4; 4 # 3]].
Definition ex_iou : Tensor2 := T2 2 [[4 # 5; 9 # 10]; [7 # 10; 1 # 10]; [3 # 5; 1 # 2]].
Definition ex_matching : Tensor2 := T2 2 [[1; 1]; [1; 0]; [0; 0]].

(** The IoUs of the two valid priors of [one_gt_inputs]. *)
Definition small_iou : Tensor2 := T2 1 [[81 # 100]; [9 # 16]].

(** A CUDA device with room for four entries, next to a CPU without
    limit; the operations are those of [example_backend]. *)
Definition small_cuda_backend : Backend := {|
  torch_log := @torch_log example_backend;
  torch_sqrt := @torch_sqrt example_backend;
  binary_cross_entropy := @binary_cross_entropy example_backend;
  box_iou := iou_of;
  out_of_memory := fun d n => match d with Cuda => (4 <? n)%nat | Cpu => false end
|}.

(** Scores for two priors, in the image with three. *)
Definition short_scores_inputs : Inputs := {|
  device := Cuda;
  pred_scores := T2 3 [[1 # 10; 1 # 5; 7 # 10]; [1 # 5; 1 # 5; 1 # 2]];
  priors := priors one_gt_inputs;
  decoded_bboxes := decoded_bboxes one_gt_inputs;
  gt_bboxes := gt_bboxes one_gt_inputs;
  gt_labels := gt_labels one_gt_inputs;
  eps := default_eps
|}.

(** ** Concrete inputs of the hooks and of the script *)

(** The keyword arguments of the YOLOX schedule: five warm-up epochs of
    100 iterations, [min_lr_ratio=0.05]. *)
Definition yolox_kwargs : LrUpdater.Kwargs :=
  {| LrUpdater.kw_by_epoch := false;
     LrUpdater.kw_warmup_iters := 500;
     LrUpdater.kw_min_lr := 0;
     LrUpdater.kw_min_lr_ratio := Some (5 # 100) |}.

(** The hook on 8 processes, with 15 epochs without augmentation. *)
Definition yolox_lr_hook : LrUpdater.Hook :=
  LrUpdater.__init__ 8 15 (125 # 100000) yolox_kwargs.

(** A runner of 300 epochs of 100 iterations, at the iteration [it]. *)
Definition runner_at (it : Z) : Runner :=
  {| epoch := it / 100; max_epochs := 300; iter := it; max_iters := 30000;
     data_loader_len := 100 |}.

(** A stand-in for mmcv's cosine: the straight line from [start] to
    [end]. *)
Definition linear_annealing (start end_ factor : Q) : Q :=
  end_ + (start - end_) * (1 - factor).

(** The running statistics of one norm layer on two processes; the second
    process holds its entries in the other order. *)
Definition norm_rank0 : PyDict (K := string) :=
  [("bn.running_mean"%string, {| shape := [2%nat]; data := [1; 3] |});
   ("bn.running_var"%string, {| shape := [1%nat; 2%nat]; data := [4; 8] |})].

Definition norm_rank1 : PyDict (K := string) :=
  [("bn.running_var"%string, {| shape := [1%nat; 2%nat]; data := [6; 2] |});
   ("bn.running_mean"%string, {| shape := [2%nat]; data := [5; 1] |})].

(** A collective that adds the tensors entry by entry. *)
Definition sum_all_reduce (op : ReduceOp) (tensors : list (HookRes (list Q)))
    (rank : nat) : HookRes (list Q) :=
  match mapH (fun t => t) tensors with
  | Done flats =>
      Done (map (fun i => Qsum (map (fun f => default 0 (f !! i)) flats))
                (seq 0 (length (default [] (head flats)))))
  | Fail e => Fail e
  end.

(** Image numbers in descending order, and the results of the images
    under their position in the file. *)
Definition descending_numbers : list Z := map (fun i => 13000 - Z.of_nat i)%Z (seq 0 3000).
Definition positions : list nat := seq 0 3000.

(** * Properties *)

(** ** Comparisons and sums of entries *)

Lemma Qgtb_lt a b : Qgtb a b = true <-> b < a.
Proof.
  unfold Qgtb. rewrite negb_true_iff. split.
  - intros E. apply Qnot_le_lt. intros L. apply Qle_bool_iff in L. congruence.
  - intros L. destruct (Qle_bool a b) eqn:E; [|done].
    apply Qle_bool_iff in E. exfalso. by apply (Qlt_not_le b a).
Qed.

Lemma Qgtb_le a b : Qgtb a b = false <-> a <= b.
Proof.
  unfold Qgtb. rewrite negb_false_iff. apply Qle_bool_iff.
Qed.

Lemma min4_pos a b c d : 0 < min4 a b c d <-> 0 < a /\ 0 < b /\ 0 < c /\ 0 < d.
Proof.
  unfold min4. rewrite !Q.min_glb_lt_iff. tauto.
Qed.

Lemma Qsum_nil : Qsum [] = 0.
Proof. done. Qed.

Lemma Qsum_cons x l : Qsum (x :: l) = x + Qsum l.
Proof. done. Qed.

Lemma Qsum_zero l : Forall (fun x => x == 0) l -> Qsum l == 0.
Proof.
  induction 1 as [|x l Hx _ IH]; [done|]. rewrite Qsum_cons, Hx, IH. done.
Qed.

Lemma Qsum_insert_zero l j v :
  Forall (fun x => x == 0) l -> (j < length l)%nat -> Qsum (<[j := v]> l) == v.
Proof.
  intros Hl. revert j. induction Hl as [|x l Hx Hl IH]; intros j Hj; simpl in *; [lia|].
  destruct j; simpl.
  - rewrite Qsum_cons, (Qsum_zero l Hl). ring.
  - rewrite Qsum_cons, Hx, IH by lia. ring.
Qed.

Lemma Qsum_gt_nonempty r : 1 < Qsum r -> r <> [].
Proof. intros H ->. by vm_compute in H. Qed.

Lemma Qsum_bits_nat l : Forall bit l -> exists n : nat, Qsum l == inject_Z (Z.of_nat n).
Proof.
  induction 1 as [|x l Hx _ [n IH]]; [by exists O|].
  destruct Hx as [Hx | Hx].
  - exists n. rewrite Qsum_cons, IH, Hx. ring.
  - exists (S n). rewrite Qsum_cons, IH, Hx.
    rewrite Nat2Z.inj_succ, <- Z.add_1_l, inject_Z_plus. done.
Qed.

Lemma Qsum_bits_le_1 l : Forall bit l -> Qsum l <= 1 -> Qsum l == 0 \/ Qsum l == 1.
Proof.
  intros [n E]%Qsum_bits_nat L. rewrite E in *.
  change 1 with (inject_Z 1) in L. rewrite <- Zle_Qle in L.
  destruct n as [|[|n]]; [by left|by right|lia].
Qed.

Lemma Qsum_bits_nonneg l : Forall bit l -> 0 <= Qsum l.
Proof.
  intros [n E]%Qsum_bits_nat. rewrite E. change 0 with (inject_Z 0).
  rewrite <- Zle_Qle. lia.
Qed.

Lemma Qsum_bits_zero l : Forall bit l -> Qsum l == 0 -> Forall (fun x => x == 0) l.
Proof.
  induction 1 as [|x l Hx Hl IH]; [done|]. rewrite Qsum_cons. intros E.
  pose proof (Qsum_bits_nonneg l Hl) as Hnn.
  destruct Hx as [Hx|Hx].
  - constructor; [done|]. apply IH. lra.
  - exfalso. lra.
Qed.

Lemma Qsum_le_length l : Forall (fun x => x <= 1) l -> Qsum l <= inject_Z (Z.of_nat (length l)).
Proof.
  induction 1 as [|x l Hx _ IH]; [done|].
  rewrite Qsum_cons. simpl length. rewrite Nat2Z.inj_succ, <- Z.add_1_l, inject_Z_plus.
  by apply Qplus_le_compat.
Qed.

Lemma Qsum_mul_zero r s : Forall (fun x => x == 0) r -> Qsum (zip_with Qmult r s) == 0.
Proof.
  intros Hr. revert s. induction Hr as [|x r Hx _ IH]; intros [|v s]; try done.
  simpl. rewrite Qsum_cons, IH, Hx. ring.
Qed.

Lemma Qtrunc_le q (n : Z) : (0 <= n)%Z -> q <= inject_Z n -> (Qtrunc q <= n)%Z.
Proof.
  intros Hn Hq. unfold Qtrunc. destruct q as [a b]. unfold Qle in Hq. simpl in *.
  destruct (Z.le_gt_cases 0 a) as [Ha|Ha].
  - apply Z.quot_le_upper_bound; lia.
  - assert (a ÷ Z.pos b <= 0)%Z; [|lia].
    apply Z.quot_le_upper_bound; lia.
Qed.

(** A row with entries 0 or 1 that sums to 1 holds a single 1. *)
Lemma single_one r j x :
  Forall bit r -> Qsum r == 1 -> r !! j = Some x -> x == 1 ->
  forall j' y, j' <> j -> r !! j' = Some y -> y == 0.
Proof.
  intros Hb. revert j. induction Hb as [|x0 r Hx0 Hr IH]; intros j Hsum Hj Hx j' y Hne Hj'.
  { done. }
  rewrite Qsum_cons in Hsum. pose proof (Qsum_bits_nonneg r Hr) as Hnn.
  assert (x0 == 1 -> Forall (fun z => z == 0) r) as Hone.
  { intros E. apply Qsum_bits_zero; [done|]. lra. }
  destruct j as [|j], j' as [|j']; simplify_eq/=.
  - apply Hone in Hx. by eapply Forall_lookup in Hx.
  - destruct Hx0 as [E|E]; [done|]. apply Hone in E.
    eapply Forall_lookup in E; [|exact Hj]. simpl in E. lra.
  - destruct Hx0 as [E|E].
    + eapply (IH j); [lra|done|done| |done]. congruence.
    + apply Hone in E. eapply Forall_lookup in E; [|exact Hj]. simpl in E. lra.
Qed.

Lemma row_product_unit r s :
  Forall bit r -> Qsum r <= 1 -> Forall unit_interval s ->
  unit_interval (Qsum (zip_with Qmult r s)).
Proof.
  intros Hr. revert s. induction Hr as [|x r Hx Hr IH]; intros s Hsum Hs.
  { simpl. rewrite Qsum_nil. unfold unit_interval. lra. }
  destruct Hs as [|v s Hv Hs].
  { simpl. rewrite Qsum_nil. unfold unit_interval. lra. }
  simpl. rewrite Qsum_cons in *. pose proof (Qsum_bits_nonneg r Hr) as Hnn.
  unfold unit_interval in *. destruct Hx as [Hx|Hx]; rewrite Hx in *.
  - assert (Qsum r <= 1) as Hle by lra. specialize (IH s Hle Hs). lra.
  - assert (Qsum r == 0) as Hz by lra.
    rewrite (Qsum_mul_zero r s (Qsum_bits_zero r Hr Hz)). lra.
Qed.

(** ** Results *)

Lemma bindR_Ok {A B} (c : Res A) (k : A -> Res B) b :
  bindR c k = Ok b -> exists a, c = Ok a /\ k a = Ok b.
Proof. destruct c as [a|e]; [|done]. intros E. by exists a. Qed.

Lemma mapR_Ok {A B} (f : A -> Res B) (g : A -> B) (l : list A) :
  (forall x, x ∈ l -> f x = Ok (g x)) -> mapR f l = Ok (map g l).
Proof.
  induction l as [|x l IH]; intros Hf; [done|]. simpl.
  rewrite Hf by left. simpl. rewrite IH; [done|].
  intros y Hy. apply Hf. by right.
Qed.

Lemma mapR_length {A B} (f : A -> Res B) l ys : mapR f l = Ok ys -> length ys = length l.
Proof.
  revert ys. induction l as [|x l IH]; intros ys; simpl; [by intros [= <-]|].
  intros (y & _ & (ys' & E & [= <-])%bindR_Ok)%bindR_Ok. simpl. f_equal. by apply IH.
Qed.

(** ** Masks: counting, selection, positions and scatter *)

Lemma count_true_pos (l : list bool) : (0 <? count_true l)%nat = true <-> true ∈ l.
Proof.
  rewrite Nat.ltb_lt. induction l as [|b l IH]; simpl.
  - split; [lia | by intros ?%elem_of_nil].
  - destruct b; simpl.
    + split; [intros _; by left | lia].
    + rewrite IH. split; [by right|].
      intros [?|?]%elem_of_cons; done.
Qed.

Lemma count_true_zero (mask : list bool) :
  count_true mask = O -> Forall (fun b => b = false) mask.
Proof.
  induction mask as [|b mask IH]; [done|]. simpl. destruct b; [lia|].
  intros E. constructor; [done|]. by apply IH.
Qed.

Lemma count_true_le_length (l : list bool) : (count_true l <= length l)%nat.
Proof. induction l as [|[] l IH]; simpl; lia. Qed.

Lemma count_true_mono (l k : list bool) :
  length l = length k ->
  (forall p, l !! p = Some true -> k !! p = Some true) ->
  (count_true l <= count_true k)%nat.
Proof.
  revert k. induction l as [|b l IH]; intros [|c k] Hlen Hsub; simplify_eq/=; [lia|].
  assert (count_true l <= count_true k)%nat as Hle.
  { apply IH; [done|]. intros p Hp. apply (Hsub (S p) Hp). }
  destruct b; [|destruct c; lia].
  specialize (Hsub O eq_refl). simpl in Hsub. injection Hsub as ->. lia.
Qed.

Lemma filter_mask_fmap {A B} (f : A -> B) mask (l : list A) :
  filter_mask mask (map f l) = map f (filter_mask mask l).
Proof.
  revert l. induction mask as [|b mask IH]; intros [|x l]; simpl; try done.
  destruct b; simpl; by rewrite IH.
Qed.

Lemma filter_mask_length {A} mask (l : list A) :
  length mask = length l -> length (filter_mask mask l) = count_true mask.
Proof.
  revert l. induction mask as [|b mask IH]; intros [|x l]; simpl; try done.
  intros [=E]. destruct b; simpl; by rewrite IH.
Qed.

Lemma filter_mask_none {A} (mask : list bool) (xs : list A) :
  Forall (fun b => b = false) mask -> filter_mask mask xs = [].
Proof.
  intros Hm. revert xs. induction Hm as [|b mask -> _ IH]; intros [|x xs]; simpl; try done.
Qed.

Lemma filter_mask_Forall {A} (P : A -> Prop) mask l :
  Forall P l -> Forall P (filter_mask mask l).
Proof.
  intros Hl. revert mask. induction Hl as [|x l Hx _ IH]; intros [|[] mask]; simpl; try done.
  by constructor.
Qed.

Lemma mask_select_length {A} mask (xs ys : list A) :
  mask_select mask xs = Ok ys -> length mask = length xs /\ length ys = count_true mask.
Proof.
  unfold mask_select. destruct (_ =? _)%nat eqn:E; [|done]. apply Nat.eqb_eq in E.
  intros [= <-]. split; [done|]. by apply filter_mask_length.
Qed.

Lemma nonzero_from_S i mask : nonzero_from (S i) mask = map S (nonzero_from i mask).
Proof.
  revert i. induction mask as [|b mask IH]; intros i; [done|].
  simpl. destruct b; simpl; by rewrite IH.
Qed.

Lemma nonzero_length (mask : list bool) : length (nonzero mask) = count_true mask.
Proof.
  unfold nonzero. generalize O. induction mask as [|b mask IH]; intros i; [done|].
  simpl. destruct b; simpl; by rewrite IH.
Qed.

Lemma nonzero_lookup_true (mask : list bool) n i :
  nonzero mask !! n = Some i -> mask !! i = Some true.
Proof.
  revert n i. induction mask as [|b mask IH]; intros n i; [done|].
  unfold nonzero. simpl. rewrite nonzero_from_S. fold (nonzero mask).
  destruct b.
  - destruct n as [|n]; simpl; [by intros [= <-]|].
    rewrite list_lookup_fmap. destruct (nonzero mask !! n) eqn:E; [|done].
    intros [= <-]. simpl. by eapply IH.
  - rewrite list_lookup_fmap. destruct (nonzero mask !! n) eqn:E; [|done].
    intros [= <-]. simpl. by eapply IH.
Qed.

Lemma filter_mask_lookup {A} (mask : list bool) (xs : list A) n :
  length mask = length xs ->
  filter_mask mask xs !! n = nonzero mask !! n ≫= (xs !!.).
Proof.
  revert xs n. induction mask as [|b mask IH]; intros [|x xs] n Hlen; simplify_eq/=; [done|].
  unfold nonzero. simpl. rewrite nonzero_from_S. fold (nonzero mask).
  destruct b.
  - destruct n as [|n]; [done|]. simpl. rewrite IH by done.
    rewrite list_lookup_fmap. by destruct (nonzero mask !! n).
  - rewrite IH by done. rewrite list_lookup_fmap. by destruct (nonzero mask !! n).
Qed.

Lemma scatter_mask_length t vals : length (scatter_mask t vals) = length t.
Proof.
  revert vals. induction t as [|b t IH]; intros vals; [done|].
  simpl. destruct b; [destruct vals|]; simpl; by rewrite IH.
Qed.

Lemma scatter_mask_count t vals :
  length vals = count_true t -> count_true (scatter_mask t vals) = count_true vals.
Proof.
  revert vals. induction t as [|b t IH]; intros vals; simpl.
  - by destruct vals.
  - destruct b; [destruct vals as [|v vals]|]; simpl; intros Hlen; try done.
    + rewrite IH by lia. done.
    + by apply IH.
Qed.

Lemma scatter_mask_lookup t vals p :
  scatter_mask t vals !! p = Some true <->
  exists n, nonzero t !! n = Some p /\ vals !! n = Some true.
Proof.
  revert vals p. induction t as [|b t IH]; intros vals p.
  { simpl. split; [done|]. by intros (n & ? & _). }
  unfold nonzero. simpl. rewrite nonzero_from_S. fold (nonzero t).
  destruct b.
  - destruct vals as [|v vals].
    + split; [|by intros (n & _ & ?)].
      destruct p as [|p]; simpl; [done|]. intros (n & _ & ?)%IH. done.
    + destruct p as [|p]; simpl.
      * split.
        -- intros [= ->]. by exists O.
        -- intros ([|n] & Hn & Hv); simplify_eq/=; [done|].
           rewrite list_lookup_fmap in Hn. by destruct (nonzero t !! n).
      * rewrite IH. split.
        -- intros (n & Hn & Hv). exists (S n). simpl. by rewrite list_lookup_fmap, Hn.
        -- intros ([|n] & Hn & Hv); simplify_eq/=.
           rewrite list_lookup_fmap in Hn. destruct (nonzero t !! n) eqn:E; simplify_eq/=.
           by exists n.
  - destruct p as [|p]; simpl.
    + split; [done|]. intros (n & Hn & _). rewrite list_lookup_fmap in Hn.
      by destruct (nonzero t !! n).
    + rewrite IH. split.
      * intros (n & Hn & Hv). exists n. by rewrite list_lookup_fmap, Hn.
      * intros (n & Hn & Hv). rewrite list_lookup_fmap in Hn.
        destruct (nonzero t !! n) eqn:E; simplify_eq/=. by exists n.
Qed.

Lemma masked_put_exact t vals :
  length vals = count_true t -> masked_put t vals = Ok (scatter_mask t vals).
Proof. intros E. unfold masked_put. by rewrite E, Nat.eqb_refl. Qed.

(** ** argmin and argmax *)

Lemma argmin_lt (l : list Q) : l <> [] -> (argmin l < length l)%nat.
Proof.
  induction l as [|x l IH]; [done|]. intros _. simpl.
  destruct l as [|y l]; [simpl; lia|].
  destruct (Qle_bool _ _); [simpl; lia|].
  assert (argmin (y :: l) < length (y :: l))%nat by (by apply IH). simpl in *. lia.
Qed.

Lemma argmin_cons2 y z l :
  argmin (y :: z :: l) =
  if Qle_bool y (default 0 ((z :: l) !! argmin (z :: l))) then O else S (argmin (z :: l)).
Proof. done. Qed.

Lemma argmin_least (l : list Q) j x :
  l !! j = Some x -> default 0 (l !! argmin l) <= x.
Proof.
  revert j x. induction l as [|y l IH]; [done|]. intros j x Hj.
  destruct l as [|z l].
  { destruct j; simplify_eq/=. apply Qle_refl. }
  rewrite argmin_cons2. destruct (Qle_bool _ _) eqn:E.
  - destruct j; simplify_eq/=; [apply Qle_refl|].
    apply Qle_bool_iff in E. eapply Qle_trans; [exact E|]. by eapply IH.
  - rewrite lookup_cons_ne_0 by done. simpl pred.
    destruct j as [|j]; simplify_eq/=; [|by eapply IH].
    apply Qlt_le_weak, Qnot_le_lt. intros L. apply Qle_bool_iff in L. congruence.
Qed.

Lemma argmax_lt (l : list Q) : l <> [] -> (argmax l < length l)%nat.
Proof.
  induction l as [|x l IH]; [done|]. intros _. simpl.
  destruct l as [|y l]; [simpl; lia|].
  destruct (Qle_bool _ _); [simpl; lia|].
  assert (argmax (y :: l) < length (y :: l))%nat by (by apply IH). simpl in *. lia.
Qed.

Lemma argmax_cons2 y z l :
  argmax (y :: z :: l) =
  if Qle_bool (default 0 ((z :: l) !! argmax (z :: l))) y then O else S (argmax (z :: l)).
Proof. done. Qed.

Lemma argmax_greatest (l : list Q) j x :
  l !! j = Some x -> x <= default 0 (l !! argmax l).
Proof.
  revert j x. induction l as [|y l IH]; [done|]. intros j x Hj.
  destruct l as [|z l].
  { destruct j; simplify_eq/=. apply Qle_refl. }
  rewrite argmax_cons2. destruct (Qle_bool _ _) eqn:E.
  - destruct j; simplify_eq/=; [apply Qle_refl|].
    apply Qle_bool_iff in E. eapply Qle_trans; [|exact E]. by eapply IH.
  - rewrite lookup_cons_ne_0 by done. simpl pred.
    destruct j as [|j]; simplify_eq/=; [|by eapply IH].
    apply Qlt_le_weak, Qnot_le_lt. intros L. apply Qle_bool_iff in L. congruence.
Qed.

(** [argmax] of such a row finds the 1. *)
Lemma argmax_one r :
  Forall bit r -> Qsum r == 1 ->
  exists x, r !! argmax r = Some x /\ x == 1.
Proof.
  intros Hb Hsum.
  assert (r <> []) as Hne by (intros ->; by vm_compute in Hsum).
  destruct (lookup_lt_is_Some_2 r (argmax r) (argmax_lt r Hne)) as [x Hx].
  exists x. split; [done|].
  eapply Forall_lookup in Hb as Hbx; [|exact Hx]. destruct Hbx as [E|E]; [|done].
  exfalso.
  assert (Forall (fun z => z == 0) r) as Hz.
  { apply Forall_lookup. intros i z Hi. simpl.
    pose proof (argmax_greatest r i z Hi) as Hle. rewrite Hx in Hle. simpl in Hle.
    eapply Forall_lookup in Hb; [|exact Hi]. destruct Hb as [E'|E']; [done|].
    lra. }
  pose proof (Qsum_zero r Hz). lra.
Qed.

(** ** The candidate filter *)

Lemma zip_with_fmap_same {A B C D} (h : B -> C -> D) (f : A -> B) (g : A -> C) (l : list A) :
  zip_with h (map f l) (map g l) = map (fun x => h (f x) (g x)) l.
Proof. induction l; simpl; congruence. Qed.

Lemma is_in_gt_spec p g : is_in_gt p g = true <-> in_box p g.
Proof. unfold is_in_gt, in_box. cbv zeta. rewrite Qgtb_lt. apply min4_pos. Qed.

Lemma is_in_ct_spec self p g : is_in_ct self p g = true <-> in_center self p g.
Proof. unfold is_in_ct, in_center. cbv zeta. rewrite Qgtb_lt. apply min4_pos. Qed.

Lemma any_in_row_lookup {A} (f : A -> list bool) (l : list A) i x :
  l !! i = Some x ->
  any_in_row (map f l) !! i = Some (0 <? count_true (f x))%nat.
Proof.
  intros E. unfold any_in_row. by rewrite !list_lookup_fmap, E.
Qed.

Lemma candidate_filter_sizes self priors gts :
  let r := get_in_gt_and_in_center_info self priors gts in
  length r.1 = length priors /\ length r.2 = count_true r.1.
Proof.
  cbv zeta. unfold get_in_gt_and_in_center_info. cbv zeta. simpl.
  set (mask := zip_with orb _ _).
  assert (Hlen : length mask = length priors).
  { unfold mask, any_in_row. rewrite length_zip_with, !length_map. lia. }
  split; [done|].
  rewrite length_zip_with, !filter_mask_length by (by rewrite length_map). lia.
Qed.

Lemma candidate_filter_no_gt self priors :
  get_in_gt_and_in_center_info self priors [] = (replicate (length priors) false, []).
Proof.
  unfold get_in_gt_and_in_center_info. cbv zeta.
  assert (zip_with orb (any_in_row (map (fun p => map (is_in_gt p) []) priors))
                       (any_in_row (map (fun p => map (is_in_ct self p) []) priors))
          = replicate (length priors) false) as ->.
  { induction priors as [|p priors IH]; [done|]. simpl. by rewrite <- IH. }
  rewrite !filter_mask_none; [done| |]; apply Forall_replicate; done.
Qed.

(** C7.  For every prior [i], [valid_mask[i]] is true if and only if there
    is a ground truth for which the prior is in-box or in-center, where
    in-box and in-center mean that the four margins to the box, or to the
    center region of half-size [center_radius] times the prior's own
    stride, are strictly positive.  [is_in_boxes_and_centers] has one row
    per valid prior, in order, one entry per ground truth, and the entry is
    true if and only if the prior is both in-box and in-center for that
    ground truth. *)
Theorem candidate_filter_spec (self : SimOTAAssigner) (priors : list Prior)
    (gts : list BBox) :
  let r := get_in_gt_and_in_center_info self priors gts in
  length r.1 = length priors /\
  (forall i p, priors !! i = Some p ->
     (r.1 !! i = Some true <->
      exists g, g ∈ gts /\ (in_box p g \/ in_center self p g))) /\
  length r.2 = count_true r.1 /\
  (forall n p, filter_mask r.1 priors !! n = Some p ->
     exists row, r.2 !! n = Some row /\ length row = length gts /\
       forall j g, gts !! j = Some g ->
         exists b, row !! j = Some b /\
           (b = true <-> in_box p g /\ in_center self p g)).
Proof.
  cbv zeta. unfold get_in_gt_and_in_center_info. cbv zeta. simpl.
  set (mask := zip_with orb _ _).
  assert (Hlen : length mask = length priors).
  { unfold mask, any_in_row. rewrite length_zip_with, !length_map. lia. }
  split; [done|]. split.
  - intros i p Hp. unfold mask. rewrite lookup_zip_with.
    rewrite !(any_in_row_lookup _ _ _ _ Hp). simpl.
    split.
    + intros [=E]. apply orb_true_iff in E as [E|E]; apply count_true_pos in E;
        apply list_elem_of_fmap in E as (g & E & Hg); exists g; split; try done.
      * left. by apply is_in_gt_spec.
      * right. by apply is_in_ct_spec.
    + intros (g & Hg & [E|E]); f_equal; apply orb_true_iff; [left|right];
        apply count_true_pos, list_elem_of_fmap; exists g; split; try done; symmetry.
      * by apply is_in_gt_spec.
      * by apply is_in_ct_spec.
  - rewrite !filter_mask_fmap, zip_with_fmap_same. split.
    + rewrite length_map. by apply filter_mask_length.
    + intros n p Hp. eexists. rewrite list_lookup_fmap, Hp. simpl. split; [done|].
      rewrite zip_with_fmap_same. split; [by rewrite length_map|].
      intros j g Hg. eexists. rewrite list_lookup_fmap, Hg. simpl. split; [done|].
      by rewrite andb_true_iff, is_in_gt_spec, is_in_ct_spec.
Qed.

(** ** torch.topk returns the k largest values *)

Lemma insert_entry_perm before x l : insert_entry before x l ≡ₚ x :: l.
Proof.
  induction l as [|y l IH]; [done|]. simpl.
  destruct (before _ _); [|done]. rewrite IH. apply Permutation_swap.
Qed.

Lemma insert_entry_sorted x l :
  StronglySorted value_ge l -> StronglySorted value_ge (insert_entry Qgtb x l).
Proof.
  induction 1 as [|y l Hl IH Hy]; simpl.
  - repeat constructor.
  - destruct (Qgtb y.2 x.2) eqn:E.
    + constructor; [done|]. rewrite insert_entry_perm. constructor; [|done].
      apply Qgtb_lt in E. by apply Qlt_le_weak.
    + apply Qgtb_le in E. constructor; [by constructor|].
      constructor; [done|]. eapply Forall_impl; [exact Hy|].
      intros z Hz. unfold value_ge in *. by eapply Qle_trans.
Qed.

Lemma sort_entries_perm before xs :
  sort_entries before xs ≡ₚ zip (seq 0 (length xs)) xs.
Proof.
  unfold sort_entries. induction (zip _ _) as [|x l IH]; [done|].
  simpl. by rewrite insert_entry_perm, IH.
Qed.

Lemma sort_entries_sorted xs : StronglySorted value_ge (sort_entries Qgtb xs).
Proof.
  unfold sort_entries. induction (zip _ _) as [|x l IH]; simpl.
  - constructor.
  - by apply insert_entry_sorted.
Qed.

Lemma sort_entries_length before xs : length (sort_entries before xs) = length xs.
Proof.
  rewrite sort_entries_perm, length_zip, length_seq. lia.
Qed.

Lemma topk_largest_values xs (k : Z) :
  (0 <= k <= Z.of_nat (length xs))%Z ->
  exists idx, topk xs k true = Ok (top_values (Z.to_nat k) xs, idx).
Proof.
  intros Hk. unfold topk.
  replace ((0 <=? k)%Z && (k <=? Z.of_nat (length xs))%Z) with true.
  - by eexists.
  - symmetry. apply andb_true_iff. split; [apply Z.leb_le|apply Z.leb_le]; lia.
Qed.

Lemma top_values_spec (k : nat) xs :
  (k <= length xs)%nat ->
  exists rest, top_values k xs ++ rest ≡ₚ xs /\
    length (top_values k xs) = k /\
    forall v r, v ∈ top_values k xs -> r ∈ rest -> r <= v.
Proof.
  intros Hk. exists ((drop k (sort_entries Qgtb xs)).*2). unfold top_values.
  split; [|split].
  - rewrite <- fmap_app, take_drop, sort_entries_perm. rewrite snd_zip; [done|].
    rewrite length_seq. lia.
  - rewrite length_fmap, length_take, sort_entries_length. lia.
  - intros v r (a & -> & Ha)%list_elem_of_fmap (b & -> & Hb)%list_elem_of_fmap.
    pose proof (sort_entries_sorted xs) as Hs.
    rewrite <- (take_drop k (sort_entries Qgtb xs)) in Hs.
    by apply (StronglySorted_app_1_elem_of _ _ _ a b Hs).
Qed.

(** ** The dynamic k *)

Lemma column_Ok t j : (j < ncols t)%nat -> column t j = Ok (column_values t j).
Proof. intros Hj. unfold column. apply Nat.ltb_lt in Hj. by rewrite Hj. Qed.

Lemma column_values_length t j : length (column_values t j) = nrows t.
Proof. unfold column_values. by rewrite length_map. Qed.

Lemma column_values_Forall (P : Q -> Prop) t j :
  wf t -> (j < ncols t)%nat -> Forall (Forall P) (rows t) -> Forall P (column_values t j).
Proof.
  intros Hwf Hj HP. unfold column_values. apply Forall_fmap, Forall_lookup.
  intros i r Hr. simpl.
  eapply Forall_lookup in Hwf; [|exact Hr]. eapply Forall_lookup in HP; [|exact Hr].
  simpl in Hwf. destruct (lookup_lt_is_Some_2 r j) as [x Hx]; [lia|].
  rewrite Hx. simpl. by eapply Forall_lookup in HP.
Qed.

Lemma compute_dynamic_ks_eq self iou :
  (0 <= candidate_topk self <= Z.of_nat (nrows iou))%Z ->
  compute_dynamic_ks self iou =
  Ok (map (fun j => Z.max 1 (Qtrunc (Qsum (top_values (Z.to_nat (candidate_topk self))
                                                      (column_values iou j)))))
          (seq 0 (ncols iou))).
Proof.
  intros Hk. unfold compute_dynamic_ks, topk_dim0.
  replace ((0 <=? candidate_topk self)%Z && (candidate_topk self <=? Z.of_nat (nrows iou))%Z)
    with true by (symmetry; apply andb_true_iff; split; apply Z.leb_le; lia).
  rewrite (mapR_Ok _ (fun j => top_values (Z.to_nat (candidate_topk self))
                                          (column_values iou j))).
  - simpl. unfold dynamic_ks_of. by rewrite <- list_fmap_compose.
  - intros j Hj. apply elem_of_seq in Hj. rewrite column_Ok by lia. simpl.
    destruct (topk_largest_values (column_values iou j) (candidate_topk self)) as [idx ->].
    + rewrite column_values_length. lia.
    + done.
Qed.

(** C3, as the code has it.  [torch.topk] is called with [candidate_topk]
    itself, not with [min(candidate_topk, Nv)].  When
    [0 <= candidate_topk <= Nv] and [Nv >= 1], the selector returns one
    [k_j] per ground-truth column [j]: the [candidate_topk] largest IoUs of
    the column are summed, the sum is truncated to an integer and clamped
    to a minimum of 1; for IoUs in [0, 1] this gives [1 <= k_j <= Nv]. *)
Theorem dynamic_k_bounds (self : SimOTAAssigner) (iou : Tensor2) :
  wf iou ->
  (0 <= candidate_topk self <= Z.of_nat (nrows iou))%Z ->
  (1 <= nrows iou)%nat ->
  Forall (Forall unit_interval) (rows iou) ->
  exists ks, compute_dynamic_ks self iou = Ok ks /\ length ks = ncols iou /\
    forall j, (j < ncols iou)%nat ->
      exists k col top rest,
        ks !! j = Some k /\ column iou j = Ok col /\
        top ++ rest ≡ₚ col /\
        length top = Z.to_nat (candidate_topk self) /\
        (forall v r, v ∈ top -> r ∈ rest -> r <= v) /\
        k = Z.max 1 (Qtrunc (Qsum top)) /\
        (1 <= k <= Z.of_nat (nrows iou))%Z.
Proof.
  intros Hwf Hk Hn Hunit. eexists. split; [by apply compute_dynamic_ks_eq|].
  split; [by rewrite length_map, length_seq|].
  intros j Hj.
  set (K := Z.to_nat (candidate_topk self)).
  set (col := column_values iou j).
  assert (K <= length col)%nat as HK.
  { unfold col. rewrite column_values_length. lia. }
  destruct (top_values_spec K col HK) as (rest & Hperm & Hlen & Hsplit).
  exists (Z.max 1 (Qtrunc (Qsum (top_values K col)))), col, (top_values K col), rest.
  split; [by rewrite list_lookup_fmap, lookup_seq_lt by done|].
  split; [by apply column_Ok|].
  split; [done|]. split; [done|]. split; [done|]. split; [done|].
  split; [lia|].
  apply Z.max_lub; [lia|]. apply Z.le_trans with (Z.of_nat K); [|lia].
  apply Qtrunc_le; [lia|]. rewrite <- Hlen at 2. apply Qsum_le_length.
  assert (Forall unit_interval col) as Hcol
    by (by apply column_values_Forall).
  apply Forall_forall. intros v Hv.
  assert (v ∈ col) as Hin by (rewrite <- Hperm; apply elem_of_app; by left).
  eapply Forall_forall in Hcol; [|exact Hin]. apply Hcol.
Qed.

(** ** The selection step keeps a 0/1 matrix of the shape of the cost *)

Lemma index_put_length rs idx v : length (index_put rs idx v) = length rs.
Proof.
  unfold index_put. induction idx as [|ij idx IH]; [done|].
  simpl. by rewrite length_alter.
Qed.

Lemma index_put_Forall (P : list Q -> Prop) rs idx v :
  (forall r j, P r -> P (<[j := v]> r)) ->
  Forall P rs -> Forall P (index_put rs idx v).
Proof.
  intros HP Hrs. unfold index_put. induction idx as [|ij idx IH]; [done|].
  simpl. apply Forall_alter; [done|]. intros r _ Hr. by apply HP.
Qed.

Lemma index_put_shift r rs idx v :
  index_put (r :: rs) (map shift_row idx) v = r :: index_put rs idx v.
Proof.
  unfold index_put. induction idx as [|[i j] idx IH]; [done|].
  simpl. rewrite IH. done.
Qed.

Lemma put_column_shape t j pos_idx v : same_shape (put_column t j pos_idx v) t.
Proof. split; [|done]. unfold nrows. simpl. apply index_put_length. Qed.

Lemma put_column_wf t j pos_idx v : wf t -> wf (put_column t j pos_idx v).
Proof.
  intros Hwf. unfold wf. simpl. apply index_put_Forall; [|done].
  intros r k Hr. by rewrite length_insert.
Qed.

Lemma put_column_bits t j pos_idx : bits t -> bits (put_column t j pos_idx 1).
Proof.
  intros Hb. unfold bits. simpl. apply index_put_Forall; [|done].
  intros r k Hr. apply Forall_insert; [done|]. by right.
Qed.

Lemma zeros_like_shape t : same_shape (zeros_like t) t.
Proof. split; [|done]. unfold nrows. simpl. by rewrite length_map. Qed.

Lemma zeros_like_wf t : wf t -> wf (zeros_like t).
Proof.
  intros Hwf. unfold wf. simpl. apply Forall_fmap.
  eapply Forall_impl; [exact Hwf|]. intros r Hr. simpl. by rewrite length_map.
Qed.

Lemma zeros_like_bits t : bits (zeros_like t).
Proof.
  unfold bits. simpl. apply Forall_fmap, Forall_forall. intros r _. simpl.
  apply Forall_fmap, Forall_forall. intros x _. simpl. by left.
Qed.

Lemma select_step_inv cost ks st gt_idx st' :
  matching_inv cost st.1 ->
  select_step cost ks st gt_idx = Ok st' ->
  matching_inv cost st'.1 /\ is_Some st'.2.
Proof.
  intros (Hwf & [Hr Hc] & Hb). unfold select_step.
  intros (c & _ & (k & _ & (r & _ & E)%bindR_Ok)%bindR_Ok)%bindR_Ok.
  simplify_eq/=. split; [|done]. split; [|split].
  - by apply put_column_wf.
  - destruct (put_column_shape st.1 gt_idx r.2 1) as [Hr' Hc']. split; congruence.
  - by apply put_column_bits.
Qed.

Lemma select_loop_inv cost ks gt_idxs st st' :
  matching_inv cost st.1 ->
  select_loop cost ks st gt_idxs = Ok st' ->
  matching_inv cost st'.1.
Proof.
  revert st. induction gt_idxs as [|j gt_idxs IH]; intros st Hinv; simpl.
  - by intros [= <-].
  - intros (st1 & E1 & E2)%bindR_Ok. eapply IH; [|exact E2].
    by eapply select_step_inv.
Qed.

Lemma select_candidates_inv self cost iou num_gt m :
  wf cost ->
  select_candidates self cost iou num_gt = Ok m ->
  matching_inv cost m.
Proof.
  intros Hwf. unfold select_candidates. cbv zeta.
  intros (ks & _ & (st & E & Hst)%bindR_Ok)%bindR_Ok.
  destruct st.2; simplify_eq/=.
  eapply select_loop_inv; [|exact E]. simpl. split; [|split].
  - by apply zeros_like_wf.
  - apply zeros_like_shape.
  - apply zeros_like_bits.
Qed.

(** X6.  The matrix the dynamic-k selection returns is a well-formed 0/1
    matrix of the shape of the cost matrix. *)
Theorem selection_yields_matching_matrix (self : SimOTAAssigner)
    (cost pair_wise_ious : Tensor2) (num_gt : nat) (m : Tensor2) :
  wf cost ->
  select_candidates self cost pair_wise_ious num_gt = Ok m ->
  wf m /\ same_shape m cost /\ bits m.
Proof. apply select_candidates_inv. Qed.

Lemma select_step_nrows cost ks st gt_idx st' :
  select_step cost ks st gt_idx = Ok st' -> nrows st'.1 = nrows st.1.
Proof.
  unfold select_step.
  intros (c & _ & (k & _ & (r & _ & E)%bindR_Ok)%bindR_Ok)%bindR_Ok.
  simplify_eq/=. apply put_column_shape.
Qed.

Lemma select_loop_nrows cost ks gt_idxs st st' :
  select_loop cost ks st gt_idxs = Ok st' -> nrows st'.1 = nrows st.1.
Proof.
  revert st. induction gt_idxs as [|j gt_idxs IH]; intros st; simpl.
  - by intros [= <-].
  - intros (st1 & E1 & E2)%bindR_Ok. rewrite (IH _ E2). by eapply select_step_nrows.
Qed.

Lemma select_candidates_nrows self cost iou num_gt m :
  select_candidates self cost iou num_gt = Ok m -> nrows m = nrows cost.
Proof.
  unfold select_candidates. cbv zeta.
  intros (ks & _ & (st & E & Hst)%bindR_Ok)%bindR_Ok.
  destruct st.2; simplify_eq/=.
  rewrite (select_loop_nrows _ _ _ _ _ E). apply zeros_like_shape.
Qed.

(** ** Conflict resolution *)

Lemma zip_shift (l : list nat) (k : list nat) :
  zip (map S l) k = map shift_row (zip l k).
Proof.
  revert k. induction l as [|x l IH]; intros [|y k]; simpl; try done.
  by rewrite IH.
Qed.

Lemma resolve_rows_eq (rs cs : list (list Q)) :
  length rs = length cs ->
  index_put (scale_rows (map conflict rs) rs 0)
            (zip (nonzero (map conflict rs))
                 (map argmin (filter_mask (map conflict rs) cs))) 1
  = zip_with resolved_row rs cs.
Proof.
  revert cs. induction rs as [|r rs IH]; intros [|c cs] Hlen; simplify_eq/=; [done|].
  unfold nonzero. simpl. unfold resolved_row at 1. fold (conflict r).
  rewrite nonzero_from_S. fold (nonzero (map conflict rs)).
  destruct (conflict r); simpl.
  - rewrite zip_shift. unfold index_put at 1. simpl.
    fold (index_put (map (fun x => x * 0) r :: scale_rows (map conflict rs) rs 0)
            (map shift_row (zip (nonzero (map conflict rs))
               (map argmin (filter_mask (map conflict rs) cs)))) 1).
    rewrite index_put_shift. simpl. by rewrite IH.
  - rewrite zip_shift, index_put_shift. by rewrite IH.
Qed.

Lemma resolve_rows_id (rs cs : list (list Q)) :
  length rs = length cs ->
  Forall (fun b => b = false) (map conflict rs) ->
  zip_with resolved_row rs cs = rs.
Proof.
  revert cs. induction rs as [|r rs IH]; intros [|c cs] Hlen Hm; simplify_eq/=; [done|].
  apply Forall_cons in Hm as [Hr Hm]. unfold resolved_row at 1. fold (conflict r).
  rewrite Hr. by rewrite IH.
Qed.

Lemma resolve_conflicts_eq (m cost : Tensor2) :
  wf m -> same_shape m cost ->
  resolve_conflicts m cost = Ok (T2 (ncols m) (zip_with resolved_row (rows m) (rows cost))).
Proof.
  intros Hwf [Hrows Hcols]. unfold nrows in Hrows. unfold resolve_conflicts. cbv zeta.
  fold conflict.
  destruct (0 <? count_true (map conflict (rows m)))%nat eqn:Hc.
  - unfold mask_select. rewrite length_map, Hrows, Nat.eqb_refl. simpl.
    unfold reduce_dim1. destruct (ncols cost =? 0)%nat eqn:Hz.
    + exfalso. apply Nat.eqb_eq in Hz. apply count_true_pos in Hc.
      apply list_elem_of_fmap in Hc as (r & Hr & Hin).
      eapply Forall_forall in Hwf; [|exact Hin].
      rewrite Hcols, Hz in Hwf. destruct r; [|done].
      by vm_compute in Hr.
    + simpl. by rewrite resolve_rows_eq.
  - apply Nat.ltb_ge in Hc. assert (count_true (map conflict (rows m)) = O) as Hc0 by lia.
    rewrite resolve_rows_id; [by destruct m | done | by apply count_true_zero].
Qed.

Lemma resolve_conflicts_nrows m cost m' :
  resolve_conflicts m cost = Ok m' -> nrows m' = nrows m.
Proof.
  unfold resolve_conflicts. cbv zeta. destruct (0 <? _)%nat; [|by intros [= <-]].
  intros (sel & Hsel & (am & _ & [= <-])%bindR_Ok)%bindR_Ok.
  unfold mask_select in Hsel. destruct (_ =? _)%nat eqn:E; [|done].
  unfold nrows. simpl. rewrite index_put_length. unfold scale_rows.
  rewrite length_zip_with, length_map. lia.
Qed.

Lemma resolved_row_length r c : length (resolved_row r c) = length r.
Proof.
  unfold resolved_row. destruct (Qgtb _ _); [|done].
  by rewrite length_insert, length_map.
Qed.

Lemma resolved_row_bits r c : Forall bit r -> Forall bit (resolved_row r c).
Proof.
  intros Hb. unfold resolved_row. destruct (Qgtb _ _); [|done].
  apply Forall_insert; [|by right]. apply Forall_fmap, Forall_forall.
  intros x _. left. simpl. ring.
Qed.

Lemma resolved_row_sum r c :
  Forall bit r -> length c = length r ->
  Qsum (resolved_row r c) == 0 \/ Qsum (resolved_row r c) == 1.
Proof.
  intros Hbits Hlen. unfold resolved_row. destruct (Qgtb (Qsum r) 1) eqn:E.
  - right. apply Qgtb_lt in E. apply Qsum_insert_zero.
    + apply Forall_fmap, Forall_forall. intros x _. simpl. ring.
    + rewrite length_map, <- Hlen. apply argmin_lt. intros ->.
      destruct r; [|done]. by vm_compute in E.
  - apply Qgtb_le in E. by apply Qsum_bits_le_1.
Qed.

Lemma resolved_wf m cost : wf m -> wf (resolved m cost).
Proof.
  intros Hm. unfold wf. simpl. apply Forall_lookup. intros i r' Hi.
  apply lookup_zip_with_Some in Hi as (r & c & -> & Hr & Hc).
  rewrite resolved_row_length. by eapply Forall_lookup in Hm.
Qed.

Lemma resolved_shape m cost : same_shape m cost -> same_shape (resolved m cost) m.
Proof.
  intros [Hr Hc]. unfold nrows in Hr. split; [|done].
  unfold nrows. simpl. rewrite length_zip_with. lia.
Qed.

Lemma resolved_bits m cost : bits m -> bits (resolved m cost).
Proof.
  intros Hb. unfold bits. simpl. apply Forall_lookup. intros i r' Hi.
  apply lookup_zip_with_Some in Hi as (r & c & -> & Hr & Hc).
  apply resolved_row_bits. by eapply Forall_lookup in Hb.
Qed.

Lemma resolved_row_sums m cost :
  wf m -> wf cost -> same_shape m cost -> bits m ->
  Forall (fun r => Qsum r == 0 \/ Qsum r == 1) (rows (resolved m cost)).
Proof.
  intros Hm Hcost [Hrows Hcols] Hbits. simpl.
  apply Forall_lookup. intros i r' Hi.
  apply lookup_zip_with_Some in Hi as (r & c & -> & Hr & Hc).
  apply resolved_row_sum.
  - eapply Forall_lookup in Hbits; [exact Hbits|exact Hr].
  - eapply Forall_lookup in Hm; [|exact Hr]. eapply Forall_lookup in Hcost; [|exact Hc].
    simpl in *. lia.
Qed.

(** C5.  Conflict resolution returns a matrix of the same shape that
    differs from its input only in the rows whose sum exceeds 1.  Such a
    row holds a 1 at the column of minimal cost, taken over all the columns
    of the cost row, and zeros everywhere else; a row whose sum is at most
    1 is returned as it was. *)
Theorem resolve_conflicts_frame (m cost : Tensor2) :
  wf m -> wf cost -> same_shape m cost ->
  exists m', resolve_conflicts m cost = Ok m' /\ same_shape m' m /\
    forall i r c, rows m !! i = Some r -> rows cost !! i = Some c ->
      exists r', rows m' !! i = Some r' /\ length r' = length r /\
        length c = ncols cost /\
        (Qsum r <= 1 -> r' = r) /\
        (1 < Qsum r ->
           (exists cj, c !! argmin c = Some cj /\
                       forall j' c', c !! j' = Some c' -> cj <= c') /\
           r' !! argmin c = Some 1 /\
           forall j' x, j' <> argmin c -> r' !! j' = Some x -> x == 0).
Proof.
  intros Hm Hcost Hshape. eexists. split; [by apply resolve_conflicts_eq|].
  destruct Hshape as [Hrows Hcols]. unfold nrows in Hrows.
  split.
  { split; [|done]. unfold nrows. simpl. rewrite length_zip_with. lia. }
  intros i r c Hr Hc. simpl. exists (resolved_row r c).
  assert (length r = ncols m) as Hlr.
  { eapply Forall_forall in Hm; [exact Hm|]. by eapply list_elem_of_lookup_2. }
  assert (length c = ncols cost) as Hlc.
  { eapply Forall_forall in Hcost; [exact Hcost|]. by eapply list_elem_of_lookup_2. }
  split; [by rewrite lookup_zip_with, Hr; simpl; rewrite Hc|].
  split; [apply resolved_row_length|]. split; [done|].
  unfold resolved_row. split.
  - intros L. apply Qgtb_le in L. by rewrite L.
  - intros L. pose proof (Qsum_gt_nonempty r L) as Hne.
    apply Qgtb_lt in L. rewrite L.
    assert (argmin c < length c)%nat as Hlt.
    { apply argmin_lt. intros ->. destruct r; [done|]. simpl in *. lia. }
    split; [|split].
    + destruct (lookup_lt_is_Some_2 c (argmin c) Hlt) as [cj Hcj]. exists cj.
      split; [done|]. intros j' c' Hj'.
      pose proof (argmin_least c j' c' Hj') as Hle. by rewrite Hcj in Hle.
    + apply list_lookup_insert_eq. rewrite length_map. lia.
    + intros j' x Hne' Hx. rewrite list_lookup_insert_ne in Hx by done.
      rewrite list_lookup_fmap in Hx. destruct (r !! j'); simplify_eq/=. ring.
Qed.

(** C4.  After conflict resolution every row of the matching matrix sums
    to 0 or to 1, for every cost matrix and every 0/1 matching matrix of
    its shape (such as the one the dynamic-k selection produces, see
    [select_candidates_inv]). *)
Theorem resolve_conflicts_row_sums (m cost : Tensor2) :
  wf m -> wf cost -> same_shape m cost -> bits m ->
  exists m', resolve_conflicts m cost = Ok m' /\
    Forall (fun r => Qsum r == 0 \/ Qsum r == 1) (rows m').
Proof.
  intros Hm Hcost Hshape Hbits. exists (resolved m cost).
  split; [by apply resolve_conflicts_eq|]. by apply resolved_row_sums.
Qed.

(** ** The result assembler *)

Lemma expand_id {A} n (l : list A) : length l = n -> expand n l = l.
Proof. intros E. unfold expand. by rewrite E, Nat.eqb_refl. Qed.

Lemma broadcast_dim_same n : broadcast_dim n n = Some n.
Proof. unfold broadcast_dim. by rewrite Nat.eqb_refl. Qed.

Lemma zip_with_ext_Forall {A B C} (f g : A -> B -> C) (P : A -> Prop) (Q : B -> Prop) l k :
  (forall x y, P x -> Q y -> f x y = g x y) ->
  Forall P l -> Forall Q k -> zip_with f l k = zip_with g l k.
Proof.
  intros Hfg Hl. revert k. induction Hl as [|x l Hx Hl IH]; intros k Hk; [done|].
  destruct Hk as [|y k Hy Hk]; [done|]. simpl. rewrite Hfg by done. f_equal. by apply IH.
Qed.

Lemma tensor_mul_same_shape a b :
  wf a -> wf b -> same_shape a b ->
  tensor_mul a b = Ok (T2 (ncols a) (zip_with (zip_with Qmult) (rows a) (rows b))).
Proof.
  intros Ha Hb [Hr Hc]. unfold tensor_mul. rewrite Hr, Hc, !broadcast_dim_same.
  rewrite !expand_id by done. do 2 f_equal.
  eapply zip_with_ext_Forall; [|exact Ha|exact Hb].
  intros r s Hlr Hls. simpl in *. rewrite !expand_id by lia. done.
Qed.

Lemma gather_in_range {A} (xs : list A) idx :
  Forall (fun j => j < length xs)%nat idx ->
  exists ys, gather xs idx = Ok ys /\ length ys = length idx /\
    forall n j, idx !! n = Some j -> ys !! n = xs !! j.
Proof.
  unfold gather. induction 1 as [|j idx Hj _ (ys & E & Hlen & Hys)]; simpl.
  - exists []. split; [done|]. split; [done|]. by intros n j.
  - destruct (lookup_lt_is_Some_2 xs j Hj) as [x Hx]. rewrite Hx. simpl. rewrite E. simpl.
    exists (x :: ys). split; [done|]. split; [by simpl; rewrite Hlen|].
    intros [|n] j' Hn; simplify_eq/=; [done|]. by apply Hys.
Qed.

Lemma foreground_lookup m i r :
  rows m !! i = Some r -> foreground m !! i = Some (Qgtb (Qsum r) 0).
Proof. intros Hr. unfold foreground. by rewrite list_lookup_fmap, Hr. Qed.

(** What [assemble] returns on a resolved matching matrix. *)
Lemma assemble_eq m iou gt_classes fg_mask :
  wf m -> wf iou -> same_shape m iou -> (0 < ncols m)%nat ->
  length gt_classes = ncols m -> count_true fg_mask = nrows m ->
  exists classes,
    assemble m iou gt_classes fg_mask =
      Ok (scatter_mask fg_mask (foreground m),
          {| num_fg := count_true (foreground m);
             gt_matched_classes := classes;
             pred_ious_this_matching :=
               filter_mask (foreground m)
                 (map Qsum (zip_with (zip_with Qmult) (rows m) (rows iou)));
             matched_gt_inds := map argmax (filter_mask (foreground m) (rows m)) |}) /\
    length classes = count_true (foreground m) /\
    forall n j, map argmax (filter_mask (foreground m) (rows m)) !! n = Some j ->
                classes !! n = gt_classes !! j.
Proof.
  intros Hm Hiou Hshape Hcols Hcls Hcount.
  assert (length (foreground m) = length (rows m)) as Hfl
    by (unfold foreground; by rewrite length_map).
  destruct (gather_in_range gt_classes (map argmax (filter_mask (foreground m) (rows m))))
    as (classes & Hg & Hlen & Hcl).
  { apply Forall_fmap, Forall_forall. intros r Hr. simpl.
    assert (r ∈ rows m) as Hin.
    { apply list_elem_of_lookup in Hr as [n Hn]. rewrite filter_mask_lookup in Hn by done.
      destruct (nonzero (foreground m) !! n); simplify_eq/=.
      by eapply list_elem_of_lookup_2. }
    eapply Forall_forall in Hm; [|exact Hin]. simpl in Hm.
    rewrite Hcls, <- Hm. apply argmax_lt. intros ->. simpl in *. lia. }
  exists classes. split; [|split; [|done]].
  - unfold assemble. cbv zeta. fold (foreground m).
    rewrite masked_put_exact by (unfold nrows in Hcount; lia). simpl.
    unfold mask_select at 1. rewrite Hfl, Nat.eqb_refl. simpl.
    unfold reduce_dim1. replace (ncols m =? 0)%nat with false
      by (symmetry; apply Nat.eqb_neq; lia). simpl.
    rewrite Hg. simpl. rewrite tensor_mul_same_shape by done. simpl.
    unfold mask_select. rewrite length_map, length_zip_with.
    destruct Hshape as [Hr _]. unfold nrows in Hr.
    replace (length (foreground m) =? length (rows m) `min` length (rows iou))%nat with true
      by (symmetry; apply Nat.eqb_eq; lia).
    done.
  - rewrite Hlen, length_map. by apply filter_mask_length.
Qed.

(** C8.  On the resolved matching matrix, the assembler returns [num_fg],
    the number of rows with a positive sum; for the [n]-th such row, the
    matched ground-truth index is the column that holds the row's only 1
    and the matched class is [gt_classes] at that index; and the mask it
    writes has the length of the mask it was given and is true exactly at
    the original positions of the foreground rows. *)
Theorem assemble_spec (m cost iou : Tensor2) (gt_classes : list Z) (fg_mask : list bool) :
  wf m -> bits m -> wf cost -> same_shape m cost ->
  wf iou -> same_shape iou cost -> (0 < ncols cost)%nat ->
  length gt_classes = ncols cost -> count_true fg_mask = nrows cost ->
  exists m' fg_mask' res,
    resolve_conflicts m cost = Ok m' /\
    assemble m' iou gt_classes fg_mask = Ok (fg_mask', res) /\
    (forall i r, rows m' !! i = Some r ->
       (foreground m' !! i = Some true <-> 0 < Qsum r)) /\
    num_fg res = count_true (foreground m') /\
    (forall n i, nonzero (foreground m') !! n = Some i ->
       exists r j x c,
         rows m' !! i = Some r /\ matched_gt_inds res !! n = Some j /\
         r !! j = Some x /\ x == 1 /\
         (forall j' y, j' <> j -> r !! j' = Some y -> y == 0) /\
         gt_classes !! j = Some c /\ gt_matched_classes res !! n = Some c) /\
    length fg_mask' = length fg_mask /\
    (forall p, fg_mask' !! p = Some true <->
       exists n, nonzero fg_mask !! n = Some p /\ foreground m' !! n = Some true).
Proof.
  intros Hm Hbits Hcost Hshape Hiou Hshape' Hcols Hcls Hcount.
  pose proof (resolved_wf m cost Hm) as Hwf'.
  pose proof (resolved_shape m cost Hshape) as [Hr' Hc'].
  pose proof (resolved_bits m cost Hbits) as Hbits'.
  pose proof (resolved_row_sums m cost Hm Hcost Hshape Hbits) as Hsums.
  destruct Hshape as [Hr Hc]. destruct Hshape' as [Hri Hci].
  destruct (assemble_eq (resolved m cost) iou gt_classes fg_mask)
    as (classes & Hasm & Hlen & Hcl); try done.
  { split; congruence. }
  { lia. }
  { congruence. }
  { congruence. }
  exists (resolved m cost). eexists. eexists.
  split; [by apply resolve_conflicts_eq|]. split; [exact Hasm|].
  cbn [num_fg matched_gt_inds gt_matched_classes].
  split; [|split; [done|split; [|split]]].
  - intros i r Hi. rewrite (foreground_lookup _ _ _ Hi).
    rewrite <- Qgtb_lt. split; [by intros [= ->]|by intros ->].
  - intros n i Hn.
    assert (length (foreground (resolved m cost)) = length (rows (resolved m cost))) as Hfl
      by (unfold foreground; by rewrite length_map).
    pose proof (nonzero_lookup_true _ _ _ Hn) as Hfg.
    destruct (lookup_lt_is_Some_2 (rows (resolved m cost)) i) as [r Hi].
    { rewrite <- Hfl. by eapply lookup_lt_Some. }
    rewrite (foreground_lookup _ _ _ Hi) in Hfg. injection Hfg as Hfg.
    apply Qgtb_lt in Hfg.
    eapply Forall_lookup in Hbits' as Hb; [|exact Hi].
    eapply Forall_lookup in Hsums as Hs; [|exact Hi]. simpl in Hs.
    assert (Qsum r == 1) as Hone by (destruct Hs; [lra|done]).
    destruct (argmax_one r Hb Hone) as (x & Hx & Hx1).
    assert (map argmax (filter_mask (foreground (resolved m cost))
                          (rows (resolved m cost))) !! n = Some (argmax r)) as Hj.
    { rewrite list_lookup_fmap, filter_mask_lookup by done. rewrite Hn.
      change (argmax <$> rows (resolved m cost) !! i = Some (argmax r)).
      by rewrite Hi. }
    destruct (lookup_lt_is_Some_2 gt_classes (argmax r)) as [c Hcj].
    { eapply Forall_lookup in Hwf'; [|exact Hi]. simpl in Hwf'.
      apply lookup_lt_Some in Hx. lia. }
    exists r, (argmax r), x, c. split; [done|]. split; [done|].
    split; [done|]. split; [done|]. split; [by eapply single_one|].
    split; [done|]. by rewrite (Hcl _ _ Hj).
  - apply scatter_mask_length.
  - intros p. apply scatter_mask_lookup.
Qed.

(** C9.  When the pairwise IoUs lie in [0, 1], so does every entry of the
    returned [pred_ious_this_matching]. *)
Theorem matched_ious_unit (self : SimOTAAssigner) (cost iou : Tensor2)
    (gt_classes : list Z) (num_gt : nat) (fg_mask fg_mask' : list bool) (res : Matching) :
  wf cost -> wf iou -> same_shape iou cost ->
  Forall (Forall unit_interval) (rows iou) ->
  dynamic_k_matching self cost iou gt_classes num_gt fg_mask = Ok (fg_mask', res) ->
  Forall unit_interval (pred_ious_this_matching res).
Proof.
  intros Hcost Hiou [Hri Hci] Hunit. unfold dynamic_k_matching.
  intros (m & Hsel & (m' & Hres & Hasm)%bindR_Ok)%bindR_Ok.
  destruct (select_candidates_inv _ _ _ _ _ Hcost Hsel) as (Hm & Hshape & Hbits).
  rewrite resolve_conflicts_eq in Hres by done. injection Hres as <-.
  fold (resolved m cost) in Hasm.
  pose proof (resolved_wf m cost Hm) as Hwf'.
  pose proof (resolved_shape m cost Hshape) as [Hr' Hc'].
  pose proof (resolved_row_sums m cost Hm Hcost Hshape Hbits) as Hsums.
  pose proof (resolved_bits m cost Hbits) as Hbits'.
  destruct Hshape as [Hr Hc].
  unfold assemble in Hasm. cbv zeta in Hasm.
  apply bindR_Ok in Hasm as (mask' & _ & Hasm).
  apply bindR_Ok in Hasm as (fg_rows & _ & Hasm).
  apply bindR_Ok in Hasm as (inds & _ & Hasm).
  apply bindR_Ok in Hasm as (classes & _ & Hasm).
  rewrite tensor_mul_same_shape in Hasm by (try done; split; congruence).
  apply bindR_Ok in Hasm as (prod & [= <-] & Hasm).
  apply bindR_Ok in Hasm as (ious & Hious & [= _ <-]).
  cbn [pred_ious_this_matching]. unfold mask_select in Hious.
  destruct (_ =? _)%nat; simplify_eq/=.
  apply filter_mask_Forall, Forall_fmap, Forall_lookup. intros i rs Hi.
  apply lookup_zip_with_Some in Hi as (r & s & -> & Hr0 & Hs0). simpl.
  apply row_product_unit.
  - by eapply Forall_lookup in Hbits'.
  - eapply Forall_lookup in Hsums; [|exact Hr0]. simpl in Hsums. destruct Hsums; lra.
  - by eapply Forall_lookup in Hunit.
Qed.

(** The sizes of the results of [dynamic_k_matching] when it is called
    as [_assign] calls it, with one row of the cost matrix per [True] of
    the mask. *)
Lemma dynamic_k_matching_sizes self cost iou gt_classes num_gt fg_mask fg_mask' res :
  count_true fg_mask = nrows cost ->
  dynamic_k_matching self cost iou gt_classes num_gt fg_mask = Ok (fg_mask', res) ->
  length (gt_matched_classes res) = num_fg res /\
  length (pred_ious_this_matching res) = num_fg res /\
  length (matched_gt_inds res) = num_fg res /\
  count_true fg_mask' = num_fg res /\
  length fg_mask' = length fg_mask /\
  forall p, fg_mask' !! p = Some true -> fg_mask !! p = Some true.
Proof.
  intros Hcount. unfold dynamic_k_matching.
  intros (m & Hsel & (m' & Hres & Hasm)%bindR_Ok)%bindR_Ok.
  apply select_candidates_nrows in Hsel. apply resolve_conflicts_nrows in Hres.
  unfold assemble in Hasm. cbv zeta in Hasm. fold (foreground m') in Hasm.
  assert (length (foreground m') = count_true fg_mask) as Hfl.
  { unfold foreground. rewrite length_map. unfold nrows in *. lia. }
  rewrite masked_put_exact in Hasm by done.
  apply bindR_Ok in Hasm as (mask' & [= <-] & Hasm).
  apply bindR_Ok in Hasm as (fg_rows & Hrows & Hasm).
  apply bindR_Ok in Hasm as (inds & Hinds & Hasm).
  apply bindR_Ok in Hasm as (classes & Hcls & Hasm).
  apply bindR_Ok in Hasm as (prod & _ & Hasm).
  apply bindR_Ok in Hasm as (ious & Hious & [= <- <-]).
  cbn [num_fg gt_matched_classes pred_ious_this_matching matched_gt_inds].
  unfold mask_select in Hrows, Hious. unfold reduce_dim1 in Hinds.
  destruct (length (foreground m') =? length (rows m'))%nat eqn:E1; [|done].
  destruct (length (foreground m') =? length (map Qsum (rows prod)))%nat eqn:E2; [|done].
  destruct (ncols m' =? 0)%nat; [done|].
  apply Nat.eqb_eq in E1, E2. simplify_eq/=.
  assert (length (map argmax (filter_mask (foreground m') (rows m')))
          = count_true (foreground m')) as Hli.
  { rewrite length_map. by apply filter_mask_length. }
  split; [|split; [|split; [|split; [|split]]]].
  - apply mapR_length in Hcls. congruence.
  - by apply filter_mask_length.
  - done.
  - by apply scatter_mask_count.
  - apply scatter_mask_length.
  - intros p (n & Hn & _)%scatter_mask_lookup. by eapply nonzero_lookup_true.
Qed.

Lemma dynamic_k_matching_empty self gt_classes fg_mask :
  exists e, dynamic_k_matching self (T2 0 []) (T2 0 []) gt_classes 0 fg_mask = Raise e.
Proof.
  unfold dynamic_k_matching, select_candidates, compute_dynamic_ks, topk_dim0. cbv zeta.
  simpl. destruct (_ && _); simpl; by eexists.
Qed.

(** ** _assign and assign *)

Section AssignProperties.
Context `{Backend}.

Lemma cls_cost_of_length dev scores labels num_classes num_gt cls :
  cls_cost_of dev scores labels num_classes num_gt = Ok cls ->
  length cls = length scores.
Proof.
  unfold cls_cost_of. cbv zeta.
  intros (onehot & _ & (? & _ & (? & _ & E)%bindR_Ok)%bindR_Ok)%bindR_Ok.
  destruct (_ =? _)%nat; [|done]. injection E as <-. by rewrite length_map.
Qed.

(** A successful [_assign] went through [dynamic_k_matching] with one row
    of the cost matrix per valid prior. *)
Lemma assign_inner_inv self inp res :
  _assign self inp = Ok res ->
  let pre := (get_in_gt_and_in_center_info self (priors inp) (gt_bboxes inp)).1 in
  length pre = length (priors inp) /\
  exists cost iou,
    count_true pre = nrows cost /\
    dynamic_k_matching self cost iou (gt_labels inp) (length (gt_bboxes inp)) pre
      = Ok (valid_mask res, matching res).
Proof.
  unfold _assign. cbv zeta.
  pose proof (candidate_filter_sizes self (priors inp) (gt_bboxes inp)) as Hf.
  cbv zeta in Hf.
  destruct (get_in_gt_and_in_center_info self (priors inp) (gt_bboxes inp))
    as [mask in_bc] eqn:Hfilter.
  simpl in Hf. destruct Hf as [Hml Hbl].
  intros (boxes & Hboxes & Hrest)%bindR_Ok.
  apply bindR_Ok in Hrest as (scores & Hscores & Hrest).
  apply bindR_Ok in Hrest as (cls & Hcls & Hrest).
  apply bindR_Ok in Hrest as ([mask' fg] & Hdkm & [= <-]).
  cbn [matching valid_mask fst snd].
  apply mask_select_length in Hboxes as [_ Hbx], Hscores as [_ Hsc].
  apply cls_cost_of_length in Hcls.
  split; [done|]. do 2 eexists. split; [|exact Hdkm].
  unfold nrows, cost_matrix_of, iou_cost_of, bbox_overlaps. simpl.
  rewrite !length_zip_with, !length_map. lia.
Qed.

(** C10.  On every successful call of [_assign], the matched classes, the
    matched IoUs and the matched ground-truth indices have [num_fg]
    entries each, the returned [valid_mask] has the length of [priors] and
    [num_fg] true entries, and each of them stands at a position that was
    true in the mask of the candidate filter. *)
Theorem assign_result_sizes (self : SimOTAAssigner) (inp : Inputs) (res : AssignResult) :
  _assign self inp = Ok res ->
  let fg := matching res in
  let pre := (get_in_gt_and_in_center_info self (priors inp) (gt_bboxes inp)).1 in
  length (gt_matched_classes fg) = num_fg fg /\
  length (pred_ious_this_matching fg) = num_fg fg /\
  length (matched_gt_inds fg) = num_fg fg /\
  count_true (valid_mask res) = num_fg fg /\
  length (valid_mask res) = length (priors inp) /\
  forall p, valid_mask res !! p = Some true -> pre !! p = Some true.
Proof.
  intros (Hlen & cost & iou & Hcount & Hdkm)%assign_inner_inv. cbv zeta.
  apply dynamic_k_matching_sizes in Hdkm; [|done].
  destruct Hdkm as (? & ? & ? & ? & ? & ?). repeat split; try done. congruence.
Qed.

Lemma _assign_no_gt self inp :
  gt_bboxes inp = [] -> exists e, _assign self inp = Raise e.
Proof.
  intros Hgt. unfold _assign. cbv zeta. rewrite Hgt, candidate_filter_no_gt.
  unfold mask_select. rewrite !filter_mask_none by (by apply Forall_replicate).
  destruct (_ =? _)%nat; simpl; [|by eexists].
  destruct (_ =? _)%nat; simpl; [|by eexists].
  unfold cls_cost_of. cbv zeta. destruct (one_hot _ _); simpl; [|by eexists].
  destruct (alloc _ _); simpl; [|by eexists].
  try (destruct (alloc _ _); simpl; [|by eexists]).
  destruct (_ =? _)%nat; simpl; [|by eexists].
  unfold cost_matrix_of, bbox_overlaps. simpl.
  destruct (dynamic_k_matching_empty self (gt_labels inp)
              (replicate (length (priors inp)) false)) as [e ->].
  simpl. by eexists.
Qed.

(** C2, as the code has it.  For an image without ground truth the
    candidate filter returns a mask of length [N] that is false everywhere
    and an empty matrix, but [_assign] has no short-circuit: it raises, and
    so does [assign], whose fallback attempt fails in the same way.  No
    assignment result is returned. *)
Theorem assign_no_ground_truth (self : SimOTAAssigner) (inp : Inputs) :
  gt_bboxes inp = [] ->
  get_in_gt_and_in_center_info self (priors inp) (gt_bboxes inp)
    = (replicate (length (priors inp)) false, []) /\
  (exists e, _assign self inp = Raise e) /\
  (exists e, (assign self inp).2 = Raise e).
Proof.
  intros Hgt. split; [rewrite Hgt; apply candidate_filter_no_gt|].
  destruct (_assign_no_gt self inp Hgt) as [e He].
  split; [by exists e|].
  unfold assign. rewrite He.
  destruct e as [c| | |]; try by eexists.
  destruct (_assign_no_gt self (to_cpu inp) Hgt) as [e' ->]. by eexists.
Qed.




(** X2.  On every successful call of [_assign],
    [num_fg <= Nv <= N]: the foreground priors are among the valid priors,
    which are among the priors. *)
Theorem assign_foreground_bounds (self : SimOTAAssigner) (inp : Inputs)
    (res : AssignResult) :
  _assign self inp = Ok res ->
  let pre := (get_in_gt_and_in_center_info self (priors inp) (gt_bboxes inp)).1 in
  (num_fg (matching res) <= count_true pre)%nat /\
  (count_true pre <= length (priors inp))%nat.
Proof.
  intros (Hlen & cost & iou & Hcount & Hdkm)%assign_inner_inv. cbv zeta.
  apply dynamic_k_matching_sizes in Hdkm; [|done].
  destruct Hdkm as (_ & _ & _ & Hfg & Hlen' & Hsub). split.
  - rewrite <- Hfg. by apply count_true_mono.
  - rewrite <- Hlen. apply count_true_le_length.
Qed.


End AssignProperties.

(** ** torch.topk with largest=False: the indices *)

Lemma insert_entry_sorted_asc x l :
  StronglySorted value_le l ->
  StronglySorted value_le (insert_entry (fun a b => Qgtb b a) x l).
Proof.
  induction 1 as [|y l Hl IH Hy]; simpl.
  - repeat constructor.
  - destruct (Qgtb x.2 y.2) eqn:E.
    + constructor; [done|]. rewrite insert_entry_perm. constructor; [|done].
      apply Qgtb_lt in E. by apply Qlt_le_weak.
    + apply Qgtb_le in E. constructor; [by constructor|].
      constructor; [done|]. eapply Forall_impl; [exact Hy|].
      intros z Hz. unfold value_le in *. by eapply Qle_trans.
Qed.

Lemma sort_entries_sorted_asc xs :
  StronglySorted value_le (sort_entries (fun a b => Qgtb b a) xs).
Proof.
  unfold sort_entries. induction (zip _ _) as [|x l IH]; simpl.
  - constructor.
  - by apply insert_entry_sorted_asc.
Qed.

Lemma sort_entries_fst before xs : (sort_entries before xs).*1 ≡ₚ seq 0 (length xs).
Proof.
  rewrite sort_entries_perm. rewrite fst_zip; [done|]. rewrite length_seq. lia.
Qed.

Lemma sort_entries_lookup before xs i v :
  (i, v) ∈ sort_entries before xs -> xs !! i = Some v.
Proof.
  rewrite sort_entries_perm. intros Hin.
  apply list_elem_of_lookup in Hin as [n Hn].
  apply lookup_zip_with_Some in Hn as (a & b & [= -> ->] & Ha & Hb).
  apply lookup_seq in Ha as [-> _]. done.
Qed.

Lemma topk_smallest_indices xs (k : Z) :
  (0 <= k <= Z.of_nat (length xs))%Z ->
  exists vals, topk xs k false = Ok (vals, bottom_indices (Z.to_nat k) xs).
Proof.
  intros Hk. unfold topk.
  replace ((0 <=? k)%Z && (k <=? Z.of_nat (length xs))%Z) with true.
  - by eexists.
  - symmetry. apply andb_true_iff. split; [apply Z.leb_le|apply Z.leb_le]; lia.
Qed.

Lemma topk_Ok_range xs k largest r :
  topk xs k largest = Ok r -> (0 <= k <= Z.of_nat (length xs))%Z.
Proof.
  unfold topk. destruct (_ && _) eqn:E; [|done]. intros _.
  apply andb_true_iff in E as [E1 E2]. apply Z.leb_le in E1, E2. lia.
Qed.

Lemma bottom_indices_spec (k : nat) xs :
  (k <= length xs)%nat ->
  length (bottom_indices k xs) = k /\
  NoDup (bottom_indices k xs) /\
  (forall i, i ∈ bottom_indices k xs -> (i < length xs)%nat) /\
  (forall i i' v v', i ∈ bottom_indices k xs -> i' ∉ bottom_indices k xs ->
     xs !! i = Some v -> xs !! i' = Some v' -> v <= v').
Proof.
  intros Hk. unfold bottom_indices.
  set (s := sort_entries (fun a b => Qgtb b a) xs).
  assert (NoDup s.*1) as Hnd.
  { unfold s. rewrite sort_entries_fst. apply NoDup_seq. }
  split; [|split; [|split]].
  - rewrite length_fmap, length_take. unfold s. rewrite sort_entries_length. lia.
  - rewrite <- (take_drop k s), fmap_app in Hnd. by apply NoDup_app in Hnd as [? _].
  - intros i (a & -> & Ha)%list_elem_of_fmap.
    apply (subseteq_take k s) in Ha. destruct a as [i v].
    apply sort_entries_lookup in Ha. simpl. by eapply lookup_lt_Some.
  - intros i i' v v' (a & -> & Ha)%list_elem_of_fmap Hi' Hv Hv'.
    assert ((i', v') ∈ s) as Hin.
    { unfold s. rewrite sort_entries_perm. apply list_elem_of_lookup. exists i'.
      rewrite lookup_zip_with, lookup_seq_lt by (by eapply lookup_lt_Some).
      simpl. by rewrite Hv'. }
    rewrite <- (take_drop k s) in Hin. apply elem_of_app in Hin as [Hin|Hin].
    { exfalso. apply Hi'. apply list_elem_of_fmap. by exists (i', v'). }
    pose proof (sort_entries_sorted_asc xs) as Hs. fold s in Hs.
    rewrite <- (take_drop k s) in Hs.
    pose proof (StronglySorted_app_1_elem_of _ _ _ a (i', v') Hs Ha Hin) as Hle.
    destruct a as [i0 v0]. apply (subseteq_take k s) in Ha.
    apply sort_entries_lookup in Ha. simpl in *. by simplify_eq.
Qed.

(** ** The entries of the matching matrix after the selection *)

Lemma put_column_rows t j idx v :
  rows (put_column t j idx v)
  = imap (fun i r => if bool_decide (i ∈ idx) then <[j := v]> r else r) (rows t).
Proof.
  unfold put_column. simpl. unfold index_put. induction idx as [|i idx IH]; simpl.
  - apply list_eq. intros n. rewrite list_lookup_imap.
    destruct (rows t !! n); simpl; [|done]. done.
  - rewrite IH. apply list_eq. intros n. rewrite list_lookup_imap.
    destruct (decide (i = n)) as [->|Hne].
    + rewrite list_lookup_alter_eq, list_lookup_imap.
      destruct (rows t !! n) as [r|]; simpl; [|done].
      rewrite (bool_decide_eq_true_2 (n ∈ n :: idx)) by left.
      case_bool_decide; [|done]. by rewrite list_insert_insert_eq.
    + rewrite list_lookup_alter_ne by done. rewrite list_lookup_imap.
      destruct (rows t !! n) as [r|]; simpl; [|done].
      f_equal. rewrite (bool_decide_ext (n ∈ i :: idx) (n ∈ idx)); [done|].
      rewrite elem_of_cons. split; [intros [?|?]; [congruence|done]|by right].
Qed.

Lemma entry_put_column t j idx i j' :
  wf t -> (i < nrows t)%nat -> (j < ncols t)%nat -> (j' < ncols t)%nat ->
  entry (put_column t j idx 1) i j'
  = if bool_decide (j' = j) && bool_decide (i ∈ idx) then Some 1 else entry t i j'.
Proof.
  intros Hwf Hi Hj Hj'. unfold entry. rewrite put_column_rows, list_lookup_imap.
  destruct (lookup_lt_is_Some_2 (rows t) i Hi) as [r Hr]. rewrite Hr. simpl.
  eapply Forall_lookup in Hwf; [|exact Hr]. simpl in Hwf.
  destruct (bool_decide (i ∈ idx)); [|by rewrite andb_false_r].
  rewrite andb_true_r. case_bool_decide as E.
  - subst. apply list_lookup_insert_eq. lia.
  - by apply list_lookup_insert_ne.
Qed.

Lemma entry_zeros_like t i j :
  wf t -> (i < nrows t)%nat -> (j < ncols t)%nat -> entry (zeros_like t) i j = Some 0.
Proof.
  intros Hwf Hi Hj. unfold entry. simpl. rewrite list_lookup_fmap.
  destruct (lookup_lt_is_Some_2 (rows t) i Hi) as [r Hr]. rewrite Hr. simpl.
  eapply Forall_lookup in Hwf; [|exact Hr]. simpl in Hwf.
  rewrite list_lookup_fmap. destruct (lookup_lt_is_Some_2 r j) as [x ->]; [lia|]. done.
Qed.

Lemma select_step_state cost ks done_ st gt_idx st' :
  gt_idx ∉ done_ ->
  selection_state cost ks done_ st.1 ->
  select_step cost ks st gt_idx = Ok st' ->
  selection_state cost ks (gt_idx :: done_) st'.1 /\
  (gt_idx < ncols cost)%nat /\
  exists k, ks !! gt_idx = Some k /\ (0 <= k <= Z.of_nat (nrows cost))%Z.
Proof.
  intros Hnew [Hinv Hent] Hstep.
  pose proof (select_step_inv _ _ _ _ _ Hinv Hstep) as [Hinv' _].
  unfold select_step in Hstep.
  apply bindR_Ok in Hstep as (c & Hc & Hstep).
  apply bindR_Ok in Hstep as (k & Hk & Hstep).
  apply bindR_Ok in Hstep as (r & Hr & [= <-]).
  unfold column in Hc. destruct (gt_idx <? ncols cost)%nat eqn:Hlt; [|done].
  apply Nat.ltb_lt in Hlt. injection Hc as <-. fold (column_values cost gt_idx) in Hr.
  destruct (ks !! gt_idx) as [k0|] eqn:Hks; [|done]. injection Hk as ->.
  pose proof (topk_Ok_range _ _ _ _ Hr) as Hrange.
  rewrite column_values_length in Hrange.
  destruct (topk_smallest_indices (column_values cost gt_idx) k) as [vals Hidx].
  { by rewrite column_values_length. }
  rewrite Hidx in Hr. injection Hr as <-.
  split; [|split; [done|by exists k]].
  split; [done|]. intros i j Hi Hj. simpl.
  destruct Hinv as (Hwf & [Hrows Hcols] & _).
  rewrite entry_put_column by (try done; lia). rewrite Hent by done.
  unfold selected at 1. destruct (decide (j = gt_idx)) as [->|Hne].
  - rewrite bool_decide_eq_true_2 by done. simpl.
    rewrite (bool_decide_eq_true_2 (gt_idx ∈ gt_idx :: done_)) by left.
    rewrite (bool_decide_eq_false_2 (gt_idx ∈ done_)) by done. simpl.
    unfold selected. rewrite Hks. by destruct (bool_decide _).
  - rewrite (bool_decide_eq_false_2 (j = gt_idx)) by done. simpl.
    rewrite (bool_decide_ext (j ∈ gt_idx :: done_) (j ∈ done_)); [done|].
    rewrite elem_of_cons. split; [intros [?|?]; [congruence|done]|by right].
Qed.

Lemma select_loop_state cost ks done_ st gt_idxs st' :
  NoDup (gt_idxs ++ done_) ->
  selection_state cost ks done_ st.1 ->
  select_loop cost ks st gt_idxs = Ok st' ->
  selection_state cost ks (reverse gt_idxs ++ done_) st'.1 /\
  Forall (fun j => (j < ncols cost)%nat /\
            exists k, ks !! j = Some k /\ (0 <= k <= Z.of_nat (nrows cost))%Z) gt_idxs.
Proof.
  revert done_ st. induction gt_idxs as [|j gt_idxs IH]; intros done_ st Hnd Hst; simpl.
  - intros [= <-]. by split.
  - intros (st1 & E1 & E2)%bindR_Ok.
    change ((j :: gt_idxs) ++ done_) with (j :: (gt_idxs ++ done_)) in Hnd.
    apply NoDup_cons in Hnd as [Hj Hnd].
    destruct (select_step_state cost ks done_ st j st1) as (Hst1 & Hlt & Hk); try done.
    { intros Hin. apply Hj. apply elem_of_app. by right. }
    destruct (IH (j :: done_) st1) as [Hfin Hall]; try done.
    { apply NoDup_app. apply NoDup_app in Hnd as (H1 & H2 & H3).
      split; [done|]. split; [|by constructor; [intros ?; apply Hj, elem_of_app; right|]].
      intros x Hx [->|Hx']%elem_of_cons; [|by eapply H2].
      apply Hj, elem_of_app. by left. }
    rewrite reverse_cons, <- app_assoc. split; [exact Hfin|]. by constructor.
Qed.

Lemma compute_dynamic_ks_ge_1 self iou ks :
  compute_dynamic_ks self iou = Ok ks -> Forall (fun k => 1 <= k)%Z ks.
Proof.
  unfold compute_dynamic_ks. intros (t & _ & [= <-])%bindR_Ok.
  unfold dynamic_ks_of. apply Forall_fmap, Forall_forall. intros c _. simpl. lia.
Qed.

Lemma select_candidates_state self cost iou num_gt m :
  wf cost ->
  select_candidates self cost iou num_gt = Ok m ->
  exists ks,
    compute_dynamic_ks self iou = Ok ks /\
    (1 <= num_gt <= ncols cost)%nat /\
    (forall j, (j < num_gt)%nat ->
       exists k, ks !! j = Some k /\ (1 <= k <= Z.of_nat (nrows cost))%Z) /\
    selection_state cost ks (reverse (seq 0 num_gt)) m.
Proof.
  intros Hwf. unfold select_candidates. cbv zeta.
  intros (ks & Hks & (st & Hloop & Hst)%bindR_Ok)%bindR_Ok.
  destruct st.2 eqn:Hpos; [|done]. injection Hst as <-.
  exists ks. split; [done|].
  destruct (select_loop_state cost ks [] (zeros_like cost, None) (seq 0 num_gt) st)
    as [Hfin Hall]; try done.
  { rewrite app_nil_r. apply NoDup_seq. }
  { split.
    - split; [by apply zeros_like_wf|]. split; [apply zeros_like_shape|apply zeros_like_bits].
    - intros i j Hi Hj. simpl. by apply entry_zeros_like. }
  rewrite app_nil_r in Hfin.
  assert (forall j, (j < num_gt)%nat -> (j < ncols cost)%nat /\
            exists k, ks !! j = Some k /\ (1 <= k <= Z.of_nat (nrows cost))%Z) as Hj.
  { intros j Hlt. eapply Forall_forall in Hall; [|apply elem_of_seq; split; [lia|simpl; exact Hlt]].
    destruct Hall as (? & k & Hk & ?). split; [done|]. exists k. split; [done|].
    apply compute_dynamic_ks_ge_1 in Hks. eapply Forall_lookup in Hks; [|exact Hk].
    simpl in Hks. lia. }
  split; [|split; [|done]].
  - destruct num_gt as [|n]; [by simplify_eq/=|]. split; [lia|].
    destruct (Hj n) as [? _]; lia.
  - intros j Hlt. by apply Hj.
Qed.

Lemma Qsum_indicator (P : nat -> bool) (l : list nat) :
  Qsum (map (fun i => if P i then 1 else 0) l)
  == inject_Z (Z.of_nat (length (filter (fun i => P i = true) l))).
Proof.
  induction l as [|i l IH]; [done|]. simpl. rewrite Qsum_cons, IH.
  rewrite filter_cons. destruct (P i) eqn:E.
  - rewrite decide_True by done. simpl length.
    rewrite Nat2Z.inj_succ, <- Z.add_1_l, inject_Z_plus. done.
  - rewrite decide_False by done. ring.
Qed.

Lemma filter_elem_of_seq (idx : list nat) n :
  NoDup idx -> (forall i, i ∈ idx -> (i < n)%nat) ->
  filter (fun i => bool_decide (i ∈ idx) = true) (seq 0 n) ≡ₚ idx.
Proof.
  intros Hnd Hlt. apply NoDup_Permutation; [apply NoDup_filter, NoDup_seq|done|].
  intros i. rewrite list_elem_of_filter, bool_decide_eq_true, elem_of_seq. split.
  - by intros [? _].
  - intros Hi. split; [done|]. specialize (Hlt i Hi). lia.
Qed.

Lemma column_values_entries (m : Tensor2) j (f : nat -> Q) :
  (forall i, (i < nrows m)%nat -> entry m i j = Some (f i)) ->
  column_values m j = map f (seq 0 (nrows m)).
Proof.
  intros Hent. unfold column_values. apply list_eq. intros i.
  rewrite !list_lookup_fmap. destruct (decide (i < nrows m)%nat) as [Hi|Hi].
  - rewrite lookup_seq_lt by done. simpl.
    specialize (Hent i Hi). unfold entry in Hent.
    destruct (rows m !! i) as [r|]; simplify_eq/=. by rewrite Hent.
  - rewrite lookup_seq_ge by lia. unfold nrows in Hi.
    rewrite (lookup_ge_None_2 (rows m) i) by lia. done.
Qed.

Lemma entry_column_values t i j x :
  entry t i j = Some x -> column_values t j !! i = Some x.
Proof.
  unfold entry, column_values. rewrite list_lookup_fmap.
  destruct (rows t !! i) as [r|]; simpl; [|done]. by intros ->.
Qed.

(** X7.  After the dynamic-k selection on a well-formed cost matrix, every
    ground-truth column [j < num_gt] of the matching matrix holds exactly
    [k_j] ones, where [k_j] is the dynamic k of the ground truth, between 1
    and the number of valid priors; and the priors it marks are [k_j]
    priors of lowest cost for that ground truth: no marked prior costs
    more than an unmarked one. *)
Theorem selection_columns (self : SimOTAAssigner) (cost iou : Tensor2) (num_gt : nat)
    (m : Tensor2) :
  wf cost ->
  select_candidates self cost iou num_gt = Ok m ->
  exists ks, compute_dynamic_ks self iou = Ok ks /\
    forall j, (j < num_gt)%nat ->
      exists k, ks !! j = Some k /\ (1 <= k <= Z.of_nat (nrows cost))%Z /\
        Qsum (column_values m j) == inject_Z k /\
        forall i i' c c',
          entry m i j = Some 1 -> entry m i' j = Some 0 ->
          entry cost i j = Some c -> entry cost i' j = Some c' -> c <= c'.
Proof.
  intros Hwf Hsel.
  destruct (select_candidates_state _ _ _ _ _ Hwf Hsel)
    as (ks & Hks & [Hn1 Hn2] & Hk & (Hwfm & [Hrows Hcols] & _) & Hent).
  exists ks. split; [done|]. intros j Hj. destruct (Hk j Hj) as (k & Hkj & Hrange).
  exists k. split; [done|]. split; [done|].
  set (idx := bottom_indices (Z.to_nat k) (column_values cost j)).
  destruct (bottom_indices_spec (Z.to_nat k) (column_values cost j))
    as (Hlen & Hnd & Hlt & Hmin).
  { rewrite column_values_length. lia. }
  fold idx in Hlen, Hnd, Hlt, Hmin. rewrite column_values_length in Hlt.
  assert (forall i, (i < nrows cost)%nat ->
            entry m i j = Some (if bool_decide (i ∈ idx) then 1 else 0)) as Hcol.
  { intros i Hi. rewrite Hent by (try done; lia).
    rewrite bool_decide_eq_true_2 by (apply elem_of_reverse, elem_of_seq; lia).
    simpl. unfold selected. by rewrite Hkj. }
  split.
  - rewrite (column_values_entries m j (fun i => if bool_decide (i ∈ idx) then 1 else 0))
      by (intros i Hi; apply Hcol; lia).
    rewrite Qsum_indicator, Hrows, (filter_elem_of_seq idx _ Hnd Hlt), Hlen.
    by rewrite Z2Nat.id by lia.
  - intros i i' c c' Hi Hi' Hc Hc'.
    assert (i < nrows cost)%nat as Hil.
    { unfold entry in Hc. destruct (rows cost !! i) eqn:E; [|done].
      by eapply lookup_lt_Some. }
    assert (i' < nrows cost)%nat as Hil'.
    { unfold entry in Hc'. destruct (rows cost !! i') eqn:E; [|done].
      by eapply lookup_lt_Some. }
    rewrite Hcol in Hi, Hi' by done.
    apply (Hmin i i' c c').
    + destruct (decide (i ∈ idx)) as [|Hn]; [done|].
      rewrite bool_decide_eq_false_2 in Hi by done. discriminate.
    + intros Hin. rewrite bool_decide_eq_true_2 in Hi' by done. discriminate.
    + by apply entry_column_values.
    + by apply entry_column_values.
Qed.

(** ** Foreground priors *)

Lemma Qgtb_proper a b c : a == b -> Qgtb a c = Qgtb b c.
Proof.
  intros E. destruct (Qgtb b c) eqn:Hb.
  - apply Qgtb_lt. apply Qgtb_lt in Hb. by rewrite E.
  - apply Qgtb_le. apply Qgtb_le in Hb. by rewrite E.
Qed.

Lemma resolved_row_foreground r c :
  Forall bit r -> length c = length r ->
  Qgtb (Qsum (resolved_row r c)) 0 = Qgtb (Qsum r) 0.
Proof.
  intros Hb Hlen. unfold resolved_row. destruct (Qgtb (Qsum r) 1) eqn:E; [|done].
  apply Qgtb_lt in E. rewrite (Qgtb_proper _ 1).
  - symmetry. apply Qgtb_lt. lra.
  - apply Qsum_insert_zero.
    + apply Forall_fmap, Forall_forall. intros x _. simpl. ring.
    + rewrite length_map, <- Hlen. apply argmin_lt. intros ->.
      destruct r; [|done]. rewrite Qsum_nil in E. lra.
Qed.

(** Conflict resolution keeps the foreground priors: a prior selected for
    several ground truths stays matched, to one of them. *)
Lemma foreground_resolved m cost :
  wf m -> wf cost -> same_shape m cost -> bits m ->
  foreground (resolved m cost) = foreground m.
Proof.
  intros Hm Hcost [Hrows Hcols] Hbits. unfold foreground, nrows in *. simpl.
  apply list_eq. intros i. rewrite !list_lookup_fmap, lookup_zip_with.
  destruct (rows m !! i) as [r|] eqn:Hr; simpl; [|done].
  destruct (lookup_lt_is_Some_2 (rows cost) i) as [c Hc].
  { rewrite <- Hrows. by eapply lookup_lt_Some. }
  rewrite Hc. simpl. f_equal. apply resolved_row_foreground.
  - by eapply Forall_lookup in Hbits.
  - eapply Forall_lookup in Hm; [|exact Hr]. eapply Forall_lookup in Hcost; [|exact Hc].
    simpl in *. lia.
Qed.

Lemma nonzero_elem_of (mask : list bool) i :
  i ∈ nonzero mask <-> mask !! i = Some true.
Proof.
  split.
  - intros [n Hn]%list_elem_of_lookup. by eapply nonzero_lookup_true.
  - revert i. induction mask as [|b mask IH]; intros i Hi; [done|].
    unfold nonzero. simpl. rewrite nonzero_from_S. fold (nonzero mask).
    destruct i as [|i]; simpl in Hi.
    + injection Hi as ->. by left.
    + assert (S i ∈ S <$> nonzero mask) by (apply list_elem_of_fmap_2, IH, Hi).
      destruct b; [by right|done].
Qed.

Lemma nonzero_NoDup (mask : list bool) : NoDup (nonzero mask).
Proof.
  induction mask as [|b mask IH]; [constructor|].
  unfold nonzero. simpl. rewrite nonzero_from_S. fold (nonzero mask).
  assert (NoDup (S <$> nonzero mask)) as Hs by (apply NoDup_fmap; [apply _|done]).
  destruct b; [|done]. constructor; [|done].
  intros (x & ? & _)%list_elem_of_fmap. lia.
Qed.

Lemma count_true_ge (mask : list bool) (idx : list nat) :
  NoDup idx -> (forall i, i ∈ idx -> mask !! i = Some true) ->
  (length idx <= count_true mask)%nat.
Proof.
  intros Hnd Hin. rewrite <- nonzero_length. apply submseteq_length.
  apply NoDup_submseteq; [done|]. intros i Hi. by apply nonzero_elem_of, Hin.
Qed.

Lemma count_true_le (mask : list bool) (idx : list nat) :
  (forall i, mask !! i = Some true -> i ∈ idx) ->
  (count_true mask <= length idx)%nat.
Proof.
  intros Hin. rewrite <- nonzero_length. apply submseteq_length.
  apply NoDup_submseteq; [apply nonzero_NoDup|]. intros i Hi.
  by apply Hin, nonzero_elem_of.
Qed.

Lemma bit_row_one_le r j x : Forall bit r -> r !! j = Some x -> x == 1 -> 1 <= Qsum r.
Proof.
  intros Hb. revert j. induction Hb as [|y r Hy Hr IH]; intros j Hj Hx; [done|].
  rewrite Qsum_cons. pose proof (Qsum_bits_nonneg r Hr).
  destruct j as [|j]; simplify_eq/=.
  - lra.
  - specialize (IH j Hj Hx). destruct Hy; lra.
Qed.

Lemma assemble_num_fg m iou gt_classes fg_mask fg_mask' res :
  assemble m iou gt_classes fg_mask = Ok (fg_mask', res) ->
  num_fg res = count_true (foreground m).
Proof.
  unfold assemble. cbv zeta. fold (foreground m).
  intros (? & _ & (? & _ & (? & _ & (? & _ & (? & _ & (? & _ & E)%bindR_Ok)%bindR_Ok)
    %bindR_Ok)%bindR_Ok)%bindR_Ok)%bindR_Ok.
  by injection E as _ <-.
Qed.

Lemma selections_length cost ks num_gt :
  (forall j, (j < num_gt)%nat ->
     exists k, ks !! j = Some k /\ (1 <= k <= Z.of_nat (nrows cost))%Z) ->
  Z.of_nat (length (selections cost ks num_gt)) = total_k ks num_gt.
Proof.
  unfold selections, total_k. intros Hk.
  assert (Forall (fun j => (j < num_gt)%nat) (seq 0 num_gt)) as Hall.
  { apply Forall_forall. intros j Hj%elem_of_seq. lia. }
  induction Hall as [|j l Hj _ IH]; [done|].
  simpl. rewrite length_app, Nat2Z.inj_add, IH.
  destruct (Hk j Hj) as (k & -> & Hr). simpl.
  destruct (bottom_indices_spec (Z.to_nat k) (column_values cost j)) as [Hl _].
  { rewrite column_values_length. lia. }
  rewrite Hl. lia.
Qed.

Lemma selections_elem_of cost ks num_gt i :
  i ∈ selections cost ks num_gt <->
  exists j, (j < num_gt)%nat /\ selected cost ks i j = true.
Proof.
  unfold selections, selected. rewrite list_elem_of_In, in_concat. split.
  - intros (l & Hl & Hi). apply list_elem_of_In in Hl, Hi.
    apply list_elem_of_fmap in Hl as (j & -> & Hj%elem_of_seq).
    exists j. split; [lia|]. destruct (ks !! j); [|by apply elem_of_nil in Hi].
    by apply bool_decide_eq_true.
  - intros (j & Hj & Hsel). eexists. split.
    + apply list_elem_of_In, (list_elem_of_fmap_2 _ _ j), elem_of_seq. lia.
    + apply list_elem_of_In. simpl. destruct (ks !! j); [|done].
      by apply bool_decide_eq_true in Hsel.
Qed.

(** With the selection state reached, a prior is foreground exactly when
    some ground truth selected it. *)
Lemma foreground_selected cost ks num_gt m i :
  (num_gt <= ncols cost)%nat ->
  selection_state cost ks (reverse (seq 0 num_gt)) m ->
  (i < nrows cost)%nat ->
  (foreground m !! i = Some true <-> i ∈ selections cost ks num_gt).
Proof.
  intros Hn [(Hwf & [Hrows Hcols] & Hbits) Hent] Hi.
  destruct (lookup_lt_is_Some_2 (rows m) i) as [r Hr]; [unfold nrows in *; lia|].
  rewrite (foreground_lookup _ _ _ Hr), selections_elem_of.
  eapply Forall_lookup in Hbits as Hb; [|exact Hr].
  eapply Forall_lookup in Hwf as Hlen; [|exact Hr]. simpl in Hlen.
  assert (forall j, (j < ncols cost)%nat ->
            r !! j = Some (if bool_decide (j < num_gt)%nat && selected cost ks i j
                           then 1 else 0)) as Hrow.
  { intros j Hj. specialize (Hent i j Hi Hj). unfold entry in Hent.
    rewrite Hr in Hent. simpl in Hent. rewrite Hent.
    rewrite (bool_decide_ext (j ∈ reverse (seq 0 num_gt)) (j < num_gt)%nat); [done|].
    rewrite elem_of_reverse, elem_of_seq. lia. }
  split.
  - intros [= Hfg]. apply Qgtb_lt in Hfg.
    destruct (existsb (selected cost ks i) (seq 0 num_gt)) eqn:Hex.
    + apply existsb_exists in Hex as (j & Hj & Hsel). exists j.
      apply list_elem_of_In, elem_of_seq in Hj. split; [lia|done].
    + exfalso. assert (Forall (fun x => x == 0) r) as Hz.
      { apply Forall_lookup. intros j x Hx. simpl.
        rewrite Hrow in Hx by (apply lookup_lt_Some in Hx; lia).
        injection Hx as <-. case_bool_decide as Hlt; simpl; [|done].
        destruct (selected cost ks i j) eqn:Hsel; [|done].
        assert (existsb (selected cost ks i) (seq 0 num_gt) = true); [|congruence].
        apply existsb_exists. exists j. split; [|done].
        apply list_elem_of_In, elem_of_seq. lia. }
      pose proof (Qsum_zero r Hz). lra.
  - intros (j & Hj & Hsel). f_equal. apply Qgtb_lt.
    assert (1 <= Qsum r); [|lra]. apply (bit_row_one_le r j 1); [done| |done].
    rewrite Hrow by lia. by rewrite bool_decide_eq_true_2, Hsel by done.
Qed.

(** The number of foreground rows after the selection, against the
    dynamic k of the ground truths. *)
Lemma foreground_bounds cost ks num_gt m :
  (1 <= num_gt <= ncols cost)%nat ->
  (forall j, (j < num_gt)%nat ->
     exists k, ks !! j = Some k /\ (1 <= k <= Z.of_nat (nrows cost))%Z) ->
  selection_state cost ks (reverse (seq 0 num_gt)) m ->
  (forall j k, (j < num_gt)%nat -> ks !! j = Some k ->
     (k <= Z.of_nat (count_true (foreground m)))%Z) /\
  (1 <= count_true (foreground m) <= nrows cost)%nat /\
  (Z.of_nat (count_true (foreground m)) <= total_k ks num_gt)%Z.
Proof.
  intros [Hn1 Hn2] Hk Hstate.
  pose proof Hstate as [(Hwf & [Hrows Hcols] & Hbits) _].
  assert (length (foreground m) = nrows cost) as Hfl.
  { unfold foreground. rewrite length_map. exact Hrows. }
  assert (forall j k, (j < num_gt)%nat -> ks !! j = Some k ->
            (k <= Z.of_nat (count_true (foreground m)))%Z) as Hlow.
  { intros j k Hj Hkj. destruct (Hk j Hj) as (k' & Hkj' & Hrange). simplify_eq.
    destruct (bottom_indices_spec (Z.to_nat k) (column_values cost j))
      as (Hlen & Hnd & Hlt & _).
    { rewrite column_values_length. lia. }
    rewrite column_values_length in Hlt.
    assert (length (bottom_indices (Z.to_nat k) (column_values cost j))
            <= count_true (foreground m))%nat; [|lia].
    apply count_true_ge; [done|]. intros i Hi.
    apply (foreground_selected cost ks num_gt m i Hn2 Hstate (Hlt i Hi)).
    apply selections_elem_of. exists j. split; [done|].
    unfold selected. rewrite Hkj. by apply bool_decide_eq_true. }
  split; [done|]. split; [split|].
  - destruct (Hk O) as (k & Hk0 & Hr0); [lia|]. specialize (Hlow O k ltac:(lia) Hk0). lia.
  - rewrite <- Hfl. apply count_true_le_length.
  - rewrite <- (selections_length cost) by done. apply inj_le.
    apply count_true_le. intros i Hi.
    apply (foreground_selected cost ks num_gt m i Hn2 Hstate); [|done].
    rewrite <- Hfl. by eapply lookup_lt_Some.
Qed.

(** X8.  On every successful call of [dynamic_k_matching] with a
    well-formed cost matrix, the number of foreground priors is at least
    the dynamic k of every ground truth, at least 1, at most the number of
    valid priors and at most the sum of the dynamic k of the ground
    truths. *)
Theorem foreground_count (self : SimOTAAssigner) (cost iou : Tensor2)
    (gt_classes : list Z) (num_gt : nat) (fg_mask fg_mask' : list bool) (res : Matching) :
  wf cost ->
  dynamic_k_matching self cost iou gt_classes num_gt fg_mask = Ok (fg_mask', res) ->
  exists ks, compute_dynamic_ks self iou = Ok ks /\
    (forall j k, (j < num_gt)%nat -> ks !! j = Some k -> (k <= Z.of_nat (num_fg res))%Z) /\
    (1 <= num_fg res <= nrows cost)%nat /\
    (Z.of_nat (num_fg res) <= total_k ks num_gt)%Z.
Proof.
  intros Hcost. unfold dynamic_k_matching.
  intros (m & Hsel & (m' & Hres & Hasm)%bindR_Ok)%bindR_Ok.
  destruct (select_candidates_state _ _ _ _ _ Hcost Hsel)
    as (ks & Hks & Hn & Hk & Hstate).
  pose proof Hstate as [(Hwf & Hshape & Hbits) _].
  rewrite resolve_conflicts_eq in Hres by done. injection Hres as <-.
  fold (resolved m cost) in Hasm.
  apply assemble_num_fg in Hasm. rewrite foreground_resolved in Hasm by done.
  exists ks. split; [done|]. rewrite Hasm. by apply foreground_bounds.
Qed.

(** ** The whole of _assign *)

Lemma filter_mask_nil_r {A} (mask : list bool) : filter_mask mask (@nil A) = [].
Proof. by destruct mask as [|[]]. Qed.

Lemma filter_mask_scatter {A} (t vals : list bool) (xs : list A) :
  filter_mask (scatter_mask t vals) xs = filter_mask vals (filter_mask t xs).
Proof.
  revert vals xs. induction t as [|b t IH]; intros vals xs.
  { simpl. by rewrite filter_mask_nil_r. }
  destruct xs as [|x xs].
  { by rewrite !filter_mask_nil_r. }
  destruct b; simpl.
  - destruct vals as [|v vals]; simpl.
    + rewrite IH. done.
    + destruct v; by rewrite IH.
  - apply IH.
Qed.

Lemma product_one_hot (r s : list Q) j x v :
  r !! j = Some x -> x == 1 ->
  (forall j' y, j' <> j -> r !! j' = Some y -> y == 0) ->
  s !! j = Some v ->
  Qsum (zip_with Qmult r s) == v.
Proof.
  revert s j. induction r as [|y r IH]; intros s j Hj Hx Hz Hv; [done|].
  destruct s as [|w s]; [done|]. cbn [zip_with]. rewrite Qsum_cons.
  destruct j as [|j]; cbn [lookup list_lookup] in Hj, Hv.
  - injection Hj as ->. injection Hv as ->.
    rewrite Qsum_mul_zero, Hx; [ring|].
    apply Forall_lookup. intros n z Hn. cbv beta. by apply (Hz (S n)).
  - assert (Qsum (zip_with Qmult r s) == v) as ->.
    { apply (IH s j); try done. intros j' z ? ?. apply (Hz (S j')); [lia|done]. }
    assert (y == 0) as -> by (by apply (Hz O)).
    ring.
Qed.

Lemma one_hot_length labels num_classes onehot :
  one_hot labels num_classes = Ok onehot -> length onehot = length labels.
Proof. apply mapR_length. Qed.

Lemma candidate_filter_rows self priors gts :
  Forall (fun r => length r = length gts)
         (get_in_gt_and_in_center_info self priors gts).2.
Proof.
  unfold get_in_gt_and_in_center_info. cbv zeta. simpl.
  rewrite !filter_mask_fmap, zip_with_fmap_same.
  apply Forall_fmap, Forall_forall. intros p _. simpl.
  rewrite zip_with_fmap_same. by rewrite length_map.
Qed.

Section AssignWhole.
Context `{Backend}.

Lemma cls_cost_of_rows dev scores labels num_classes num_gt cls :
  cls_cost_of dev scores labels num_classes num_gt = Ok cls ->
  length labels = num_gt /\ Forall (fun r => length r = num_gt) cls.
Proof.
  unfold cls_cost_of. cbv zeta.
  intros (onehot & Hoh & (? & _ & (? & _ & E)%bindR_Ok)%bindR_Ok)%bindR_Ok.
  destruct (_ =? _)%nat eqn:Hl; [|done]. apply Nat.eqb_eq in Hl. injection E as <-.
  split; [done|]. apply Forall_fmap, Forall_forall. intros s _. simpl.
  rewrite length_map. apply one_hot_length in Hoh. lia.
Qed.

Lemma cost_matrix_of_wf cls iou_cost inbc num_gt :
  Forall (fun r => length r = num_gt) cls ->
  Forall (fun r => length r = num_gt) iou_cost ->
  Forall (fun r => length r = num_gt) inbc ->
  wf (cost_matrix_of cls iou_cost inbc num_gt).
Proof.
  intros Hc Hi Hb. unfold wf, cost_matrix_of. simpl.
  apply Forall_lookup. intros n row Hn.
  apply lookup_zip_with_Some in Hn as (cr & ir & -> & Hcr & Hir).
  apply lookup_zip_with_Some in Hir as (io & br & -> & Hio & Hbr).
  eapply Forall_lookup in Hc; [|exact Hcr]. eapply Forall_lookup in Hi; [|exact Hio].
  eapply Forall_lookup in Hb; [|exact Hbr]. simpl in *.
  rewrite length_zip_with, length_zip. lia.
Qed.

Lemma bbox_overlaps_wf b1 b2 : wf (T2 (length b2) (bbox_overlaps b1 b2)).
Proof.
  unfold wf, bbox_overlaps. simpl. apply Forall_fmap, Forall_forall.
  intros a _. simpl. by rewrite length_map.
Qed.

(** A successful [_assign], step by step. *)
Lemma assign_inner_steps self inp res :
  _assign self inp = Ok res ->
  let pre := (get_in_gt_and_in_center_info self (priors inp) (gt_bboxes inp)).1 in
  let num_gt := length (gt_bboxes inp) in
  let iou := T2 num_gt (bbox_overlaps (filter_mask pre (decoded_bboxes inp)) (gt_bboxes inp)) in
  length pre = length (priors inp) /\
  length (decoded_bboxes inp) = length (priors inp) /\
  nrows (pred_scores inp) = length (priors inp) /\
  length (gt_labels inp) = num_gt /\
  exists cost,
    wf cost /\ same_shape iou cost /\ ncols cost = num_gt /\
    nrows cost = count_true pre /\
    dynamic_k_matching self cost iou (gt_labels inp) num_gt pre
      = Ok (valid_mask res, matching res).
Proof.
  unfold _assign. cbv zeta.
  pose proof (candidate_filter_sizes self (priors inp) (gt_bboxes inp)) as Hf.
  pose proof (candidate_filter_rows self (priors inp) (gt_bboxes inp)) as Hfr.
  cbv zeta in Hf.
  destruct (get_in_gt_and_in_center_info self (priors inp) (gt_bboxes inp))
    as [mask in_bc] eqn:Hfilter.
  simpl in Hf, Hfr. destruct Hf as [Hml Hbl].
  intros (boxes & Hboxes & Hrest)%bindR_Ok.
  apply bindR_Ok in Hrest as (scores & Hscores & Hrest).
  apply bindR_Ok in Hrest as (cls & Hcls & Hrest).
  apply bindR_Ok in Hrest as ([mask' fg] & Hdkm & [= <-]).
  cbn [matching valid_mask fst snd].
  pose proof (cls_cost_of_length _ _ _ _ _ _ Hcls) as Hcl.
  apply cls_cost_of_rows in Hcls as [Hlab Hclsr].
  assert (boxes = filter_mask mask (decoded_bboxes inp)) as ->.
  { unfold mask_select in Hboxes. destruct (_ =? _)%nat; by simplify_eq. }
  apply mask_select_length in Hboxes as [Hbl' Hbx], Hscores as [Hsl Hsc].
  split; [done|]. split; [lia|]. split; [unfold nrows; lia|]. split; [done|].
  eexists. split; [|split; [|split; [|split; [|exact Hdkm]]]].
  - apply cost_matrix_of_wf; [done| |done].
    unfold iou_cost_of, bbox_overlaps. apply Forall_fmap, Forall_fmap, Forall_forall.
    intros a _. simpl. by rewrite !length_map.
  - split; [|done]. unfold nrows, cost_matrix_of, iou_cost_of, bbox_overlaps. simpl.
    rewrite !length_zip_with, !length_map. lia.
  - done.
  - unfold nrows, cost_matrix_of, iou_cost_of, bbox_overlaps. simpl.
    rewrite !length_zip_with, !length_map. lia.
Qed.

End AssignWhole.

(** ** The match of a foreground prior *)

(** A successful [dynamic_k_matching], step by step. *)
Lemma dynamic_k_matching_steps self cost iou gt_classes num_gt fg_mask fg_mask' res :
  wf cost -> wf iou -> same_shape iou cost ->
  length gt_classes = ncols cost -> count_true fg_mask = nrows cost ->
  dynamic_k_matching self cost iou gt_classes num_gt fg_mask = Ok (fg_mask', res) ->
  exists ks m,
    compute_dynamic_ks self iou = Ok ks /\
    (1 <= num_gt <= ncols cost)%nat /\
    (forall j, (j < num_gt)%nat ->
       exists k, ks !! j = Some k /\ (1 <= k <= Z.of_nat (nrows cost))%Z) /\
    selection_state cost ks (reverse (seq 0 num_gt)) m /\
    fg_mask' = scatter_mask fg_mask (foreground m) /\
    num_fg res = count_true (foreground m) /\
    pred_ious_this_matching res
      = filter_mask (foreground m)
          (map Qsum (zip_with (zip_with Qmult) (rows (resolved m cost)) (rows iou))) /\
    matched_gt_inds res = map argmax (filter_mask (foreground m) (rows (resolved m cost))) /\
    length (gt_matched_classes res) = count_true (foreground m) /\
    forall n j, matched_gt_inds res !! n = Some j ->
                gt_matched_classes res !! n = gt_classes !! j.
Proof.
  intros Hcost Hiou Hshape Hcls Hcount. unfold dynamic_k_matching.
  intros (m & Hsel & (m' & Hres & Hasm)%bindR_Ok)%bindR_Ok.
  destruct (select_candidates_state _ _ _ _ _ Hcost Hsel) as (ks & Hks & Hn & Hk & Hst).
  exists ks, m. split; [done|]. split; [done|]. split; [done|]. split; [done|].
  destruct Hst as [(Hm & Hms & Hbits) _].
  rewrite resolve_conflicts_eq in Hres by done. injection Hres as <-.
  fold (resolved m cost) in Hasm.
  pose proof (resolved_wf m cost Hm) as Hwf'.
  pose proof (resolved_shape m cost Hms) as [Hr' Hc'].
  destruct Hms as [Hr Hc]. destruct Hshape as [Hri Hci].
  destruct (assemble_eq (resolved m cost) iou gt_classes fg_mask)
    as (classes & Hasm' & Hlen & Hcl); try done.
  { split; congruence. }
  { rewrite Hc'. lia. }
  { congruence. }
  { congruence. }
  rewrite Hasm' in Hasm. rewrite (foreground_resolved m cost) in * by done.
  injection Hasm as <- <-. cbn [num_fg pred_ious_this_matching matched_gt_inds
    gt_matched_classes]. done.
Qed.

Lemma argmax_insert_one (r : list Q) j :
  (j < length r)%nat -> argmax (<[j := 1]> (map (fun x => x * 0) r)) = j.
Proof.
  intros Hj. set (r' := <[j := 1]> (map (fun x => x * 0) r)).
  assert (Forall bit r') as Hb.
  { apply Forall_insert; [|by right]. apply Forall_fmap, Forall_forall.
    intros x _. left. simpl. ring. }
  assert (Qsum r' == 1) as Hs.
  { apply Qsum_insert_zero; [|by rewrite length_map].
    apply Forall_fmap, Forall_forall. intros x _. simpl. ring. }
  destruct (argmax_one r' Hb Hs) as (x & Hx & Hx1).
  destruct (decide (argmax r' = j)) as [|Hne]; [done|]. exfalso.
  unfold r' in Hx. rewrite list_lookup_insert_ne in Hx by done.
  rewrite list_lookup_fmap in Hx.
  destruct (r !! _) as [q|]; simpl in Hx; [|discriminate].
  injection Hx as <-. lra.
Qed.

Lemma nonzero_from_filter_mask s (mask : list bool) :
  nonzero_from s mask = filter_mask mask (seq s (length mask)).
Proof.
  revert s. induction mask as [|b mask IH]; intros s; [done|].
  simpl. rewrite IH. by destruct b.
Qed.

(** The [n]-th [True] of a scattered mask is the position of the [i]-th
    [True] of the mask it was scattered over, [i] being the [n]-th [True]
    of the scattered values. *)
Lemma nonzero_scatter_mask t vals n :
  length vals = count_true t ->
  nonzero (scatter_mask t vals) !! n = nonzero vals !! n ≫= (nonzero t !!.).
Proof.
  intros Hlen. unfold nonzero at 1. rewrite nonzero_from_filter_mask.
  rewrite scatter_mask_length, filter_mask_scatter, <- nonzero_from_filter_mask.
  fold (nonzero t). apply filter_mask_lookup. by rewrite nonzero_length.
Qed.

Lemma entry_lookup t i j r : rows t !! i = Some r -> entry t i j = r !! j.
Proof. unfold entry. by intros ->. Qed.

Lemma bit_indicator (b : bool) x :
  x == 1 -> x = (if b then 1 else 0) -> b = true.
Proof. intros Hx ->. destruct b; [done|]. by vm_compute in Hx. Qed.

Lemma bits_pos_one r :
  Forall bit r -> 0 < Qsum r -> exists j x, r !! j = Some x /\ x == 1.
Proof.
  induction 1 as [|y r Hy Hr IH]; intros Hpos; [by vm_compute in Hpos|].
  rewrite Qsum_cons in Hpos. destruct Hy as [E|E].
  - destruct IH as (j & x & Hj & Hx); [lra|]. by exists (S j), x.
  - by exists O, y.
Qed.

Lemma bits_two_ones r :
  Forall bit r -> 1 < Qsum r ->
  exists j1 j2 x1 x2, j1 <> j2 /\ r !! j1 = Some x1 /\ x1 == 1 /\ r !! j2 = Some x2 /\ x2 == 1.
Proof.
  induction 1 as [|y r Hy Hr IH]; intros Hgt; [by vm_compute in Hgt|].
  rewrite Qsum_cons in Hgt. destruct Hy as [E|E].
  - destruct IH as (j1 & j2 & x1 & x2 & Hne & H1 & Hx1 & H2 & Hx2); [lra|].
    exists (S j1), (S j2), x1, x2. split; [lia|done].
  - destruct (bits_pos_one r Hr) as (j & x & Hj & Hx); [lra|].
    exists O, (S j), y, x. split; [lia|done].
Qed.

(** X9.  On every successful call of [dynamic_k_matching], called as
    [_assign] calls it, the [n]-th foreground prior of the returned mask
    is a valid prior that at least one ground truth selected among its
    [k_j] priors of lowest cost; the ground truth it is matched to costs
    no more, for this prior, than any ground truth that selected it; and
    when a single ground truth selected it, it is matched to that one. *)
Theorem matched_least_cost (self : SimOTAAssigner) (cost iou : Tensor2)
    (gt_classes : list Z) (num_gt : nat) (fg_mask fg_mask' : list bool) (res : Matching) :
  wf cost -> wf iou -> same_shape iou cost ->
  length gt_classes = ncols cost -> count_true fg_mask = nrows cost ->
  dynamic_k_matching self cost iou gt_classes num_gt fg_mask = Ok (fg_mask', res) ->
  exists ks, compute_dynamic_ks self iou = Ok ks /\
    forall n p, nonzero fg_mask' !! n = Some p ->
      exists i j,
        nonzero fg_mask !! i = Some p /\
        matched_gt_inds res !! n = Some j /\ (j < ncols cost)%nat /\
        (exists j', (j' < num_gt)%nat /\ selected cost ks i j' = true) /\
        (forall j' c c', (j' < num_gt)%nat -> selected cost ks i j' = true ->
           entry cost i j = Some c -> entry cost i j' = Some c' -> c <= c') /\
        ((forall j1 j2, (j1 < num_gt)%nat -> (j2 < num_gt)%nat ->
            selected cost ks i j1 = true -> selected cost ks i j2 = true -> j1 = j2) ->
         (j < num_gt)%nat /\ selected cost ks i j = true).
Proof.
  intros Hcost Hiou Hshape Hcls Hcount Hdkm.
  destruct (dynamic_k_matching_steps _ _ _ _ _ _ _ _ Hcost Hiou Hshape Hcls Hcount Hdkm)
    as (ks & m & Hks & Hn & Hk & Hst & -> & Hfg & Hious & Hinds & Hlen & Hcl).
  exists ks. split; [done|]. intros n p Hp.
  pose proof Hst as [(Hm & [Hr Hc] & Hbits) Hent].
  assert (length (foreground m) = length (rows m)) as Hfl
    by (unfold foreground; by rewrite length_map).
  assert (length (foreground m) = count_true fg_mask) as Hfc
    by (unfold nrows in *; lia).
  rewrite nonzero_scatter_mask in Hp by done.
  destruct (nonzero (foreground m) !! n) as [i|] eqn:Hi; [|done]. simpl in Hp.
  pose proof (nonzero_lookup_true _ _ _ Hi) as Hfi.
  assert (i < nrows cost)%nat as Hlt.
  { apply lookup_lt_Some in Hfi. unfold nrows in *. lia. }
  destruct (lookup_lt_is_Some_2 (rows m) i) as [r Hr']; [unfold nrows in *; lia|].
  destruct (lookup_lt_is_Some_2 (rows cost) i) as [c Hc']; [done|].
  pose proof (foreground_lookup m i r Hr') as Hfr. rewrite Hfi in Hfr.
  injection Hfr as Hpos. symmetry in Hpos. apply Qgtb_lt in Hpos.
  eapply Forall_lookup in Hbits as Hbr; [|exact Hr'].
  eapply Forall_lookup in Hm as Hlr; [|exact Hr']. simpl in Hlr.
  eapply Forall_lookup in Hcost as Hlc; [|exact Hc']. simpl in Hlc.
  assert (matched_gt_inds res !! n = Some (argmax (resolved_row r c))) as Hj.
  { rewrite Hinds, list_lookup_fmap, filter_mask_lookup.
    - rewrite Hi. cbn [mbind option_bind resolved rows].
      by rewrite lookup_zip_with, Hr', Hc'.
    - cbn [resolved rows]. rewrite length_zip_with. unfold nrows in *. lia. }
  assert (r <> []) as Hne by (intros ->; by vm_compute in Hpos).
  assert (forall j' x, r !! j' = Some x -> x == 1 ->
                       (j' < num_gt)%nat /\ selected cost ks i j' = true) as Hone.
  { intros j' x Hj' Hx. assert (j' < ncols cost)%nat as Hjc
      by (apply lookup_lt_Some in Hj'; lia).
    rewrite <- (entry_lookup m i j' r Hr'), (Hent i j' Hlt Hjc) in Hj'.
    injection Hj' as Hj'. symmetry in Hj'. apply (bit_indicator _ _ Hx) in Hj'.
    apply andb_true_iff in Hj' as [Hd Hs]. split; [|done].
    apply bool_decide_eq_true in Hd. rewrite elem_of_reverse, elem_of_seq in Hd. lia. }
  assert (forall j', (j' < num_gt)%nat -> selected cost ks i j' = true ->
                     r !! j' = Some 1) as Hsel.
  { intros j' Hj1 Hj2. rewrite <- (entry_lookup m i j' r Hr'), (Hent i j' Hlt) by lia.
    rewrite Hj2, bool_decide_eq_true_2; [done|].
    rewrite elem_of_reverse, elem_of_seq. lia. }
  exists i, (argmax (resolved_row r c)). split; [done|]. split; [done|].
  unfold resolved_row in *. destruct (Qgtb (Qsum r) 1) eqn:Hconf.
  - (* more than one ground truth selected the prior *)
    assert (argmin c < length r)%nat as Hargmin.
    { replace (length r) with (length c) by lia. apply argmin_lt. intros ->.
      simpl in Hlc. destruct r; [done|]. simpl in Hlr. lia. }
    rewrite argmax_insert_one by done. apply Qgtb_lt in Hconf.
    destruct (bits_two_ones r Hbr Hconf) as (j1 & j2 & x1 & x2 & Hne12 & H1 & Hx1 & H2 & Hx2).
    destruct (Hone j1 x1 H1 Hx1) as [Hlt1 Hs1]. destruct (Hone j2 x2 H2 Hx2) as [Hlt2 Hs2].
    split; [lia|]. split; [by exists j1|]. split.
    + intros j' v v' _ _ Hv Hv'. rewrite (entry_lookup cost i _ c Hc') in Hv.
      rewrite (entry_lookup cost i _ c Hc') in Hv'.
      pose proof (argmin_least c j' v' Hv') as Hle. by rewrite Hv in Hle.
    + intros Huniq. by specialize (Huniq j1 j2 Hlt1 Hlt2 Hs1 Hs2).
  - (* exactly one ground truth selected the prior *)
    apply Qgtb_le in Hconf.
    assert (Qsum r == 1) as Hsum.
    { destruct (Qsum_bits_le_1 r Hbr Hconf) as [E|E]; [lra|done]. }
    destruct (argmax_one r Hbr Hsum) as (x & Hx & Hx1).
    destruct (Hone _ x Hx Hx1) as [Hltj Hsj].
    split; [apply lookup_lt_Some in Hx; lia|]. split; [by exists (argmax r)|]. split.
    + intros j' v v' Hj1 Hj2 Hv Hv'. specialize (Hsel j' Hj1 Hj2).
      destruct (decide (j' = argmax r)) as [->|Hne'].
      * rewrite Hv in Hv'. injection Hv' as ->. lra.
      * pose proof (single_one r _ x Hbr Hsum Hx Hx1 j' 1 Hne' Hsel) as Habs.
        by vm_compute in Habs.
    + done.
Qed.

Section AssignMatches.
Context `{Backend}.

(** X10.  On every successful call of [_assign], the returned mask picks
    [num_fg] decoded boxes, and for the [n]-th of them the matched index
    points to a ground truth, the matched class is the label of that
    ground truth, and the returned IoU is the overlap of the decoded box
    with the box of that ground truth. *)
Theorem assign_matches (self : SimOTAAssigner) (inp : Inputs) (res : AssignResult) :
  _assign self inp = Ok res ->
  let fg := matching res in
  let boxes := filter_mask (valid_mask res) (decoded_bboxes inp) in
  length boxes = num_fg fg /\
  forall n, (n < num_fg fg)%nat ->
    exists j b g c q,
      matched_gt_inds fg !! n = Some j /\
      boxes !! n = Some b /\
      gt_bboxes inp !! j = Some g /\
      gt_labels inp !! j = Some c /\
      gt_matched_classes fg !! n = Some c /\
      pred_ious_this_matching fg !! n = Some q /\
      q == box_iou b g.
Proof.
  intros Hok. cbv zeta.
  pose proof (assign_inner_steps self inp res Hok) as Hsteps. cbv zeta in Hsteps.
  destruct Hsteps
    as (Hpre & Hdec & Hsc & Hlab & cost & Hcost & Hshape & Hcols & Hrows & Hdkm).
  set (pre := (get_in_gt_and_in_center_info self (priors inp) (gt_bboxes inp)).1) in *.
  set (vboxes := filter_mask pre (decoded_bboxes inp)) in *.
  set (iou := T2 (length (gt_bboxes inp)) (bbox_overlaps vboxes (gt_bboxes inp))) in *.
  assert (wf iou) as Hiou by apply bbox_overlaps_wf.
  assert (length (gt_labels inp) = ncols cost) as Hlc0 by congruence.
  assert (count_true pre = nrows cost) as Hcr0 by congruence.
  destruct (dynamic_k_matching_steps _ _ _ _ _ _ _ _ Hcost Hiou Hshape Hlc0 Hcr0 Hdkm)
    as (ks & m & Hks & Hn & Hk & Hst & Hmask & Hfg & Hious & Hinds & Hlen & Hcl).
  pose proof Hst as [(Hm & [Hr Hc] & Hbits) Hent].
  assert (length (foreground m) = length (rows m)) as Hfl
    by (unfold foreground; by rewrite length_map).
  assert (length vboxes = count_true pre) as Hvb.
  { apply filter_mask_length. lia. }
  rewrite Hmask, filter_mask_scatter. fold vboxes.
  split.
  { rewrite Hfg. apply filter_mask_length. unfold nrows in *. lia. }
  intros n Hn'. rewrite Hfg, <- nonzero_length in Hn'.
  destruct (lookup_lt_is_Some_2 _ _ Hn') as [i Hi].
  pose proof (nonzero_lookup_true _ _ _ Hi) as Hfi.
  assert (i < nrows cost)%nat as Hlt.
  { apply lookup_lt_Some in Hfi. unfold nrows in *. lia. }
  destruct (lookup_lt_is_Some_2 (rows m) i) as [r Hr']; [unfold nrows in *; lia|].
  destruct (lookup_lt_is_Some_2 (rows cost) i) as [c Hc']; [done|].
  destruct (lookup_lt_is_Some_2 vboxes i) as [b Hb]; [lia|].
  pose proof (foreground_lookup m i r Hr') as Hfr. rewrite Hfi in Hfr.
  injection Hfr as Hpos. symmetry in Hpos. apply Qgtb_lt in Hpos.
  eapply Forall_lookup in Hbits as Hbr; [|exact Hr'].
  eapply Forall_lookup in Hm as Hlr; [|exact Hr']. simpl in Hlr.
  eapply Forall_lookup in Hcost as Hlc; [|exact Hc']. simpl in Hlc.
  set (r' := resolved_row r c).
  assert (Forall bit r') as Hbr' by by apply resolved_row_bits.
  assert (Qsum r' == 1) as Hsum'.
  { assert (Qgtb (Qsum r') 0 = true) as Hp'.
    { unfold r'. rewrite resolved_row_foreground by (try done; lia). by apply Qgtb_lt. }
    apply Qgtb_lt in Hp'.
    destruct (resolved_row_sum r c Hbr ltac:(lia)) as [E|E]; fold r' in E; [lra|done]. }
  destruct (argmax_one r' Hbr' Hsum') as (x & Hx & Hx1).
  assert (argmax r' < length (gt_bboxes inp))%nat as Hj.
  { apply lookup_lt_Some in Hx. assert (length r' = length r) as Hlr'
      by apply resolved_row_length. lia. }
  destruct (lookup_lt_is_Some_2 (gt_bboxes inp) _ Hj) as [g Hg].
  destruct (lookup_lt_is_Some_2 (gt_labels inp) (argmax r')) as [cl Hcl']; [lia|].
  assert (matched_gt_inds (matching res) !! n = Some (argmax r')) as Hjn.
  { rewrite Hinds, list_lookup_fmap, filter_mask_lookup.
    - rewrite Hi. cbn [mbind option_bind resolved rows].
      by rewrite lookup_zip_with, Hr', Hc'.
    - cbn [resolved rows]. rewrite length_zip_with. unfold nrows in *. lia. }
  exists (argmax r'), b, g, cl,
    (Qsum (zip_with Qmult r' (map (box_iou b) (gt_bboxes inp)))).
  split; [done|]. split.
  { rewrite filter_mask_lookup by (unfold nrows in *; lia). by rewrite Hi. }
  split; [done|]. split; [done|]. split.
  { by rewrite (Hcl n _ Hjn). }
  split.
  { rewrite Hious, filter_mask_lookup.
    - rewrite Hi. cbn [mbind option_bind resolved rows iou].
      rewrite list_lookup_fmap, lookup_zip_with, lookup_zip_with, Hr', Hc'.
      cbn [mbind option_bind]. unfold bbox_overlaps. rewrite list_lookup_fmap, Hb. done.
    - cbn [resolved rows iou]. rewrite length_map, !length_zip_with.
      unfold bbox_overlaps. rewrite length_map. unfold nrows in *. lia. }
  eapply product_one_hot; [exact Hx|exact Hx1| |].
  - by apply (single_one r' (argmax r') x).
  - by rewrite list_lookup_fmap, Hg.
Qed.

End AssignMatches.

(** ** When _assign returns *)

Lemma mapR_is_Ok {A B} (f : A -> Res B) (l : list A) :
  Forall (fun x => is_Ok (f x)) l <-> is_Ok (mapR f l).
Proof.
  induction l as [|x l IH]; simpl.
  - split; [by exists []|constructor].
  - rewrite Forall_cons, IH. split.
    + intros [[y Hy] [ys Hys]]. rewrite Hy, Hys. by exists (y :: ys).
    + intros [ys (y & Hy & (ys' & Hys & _)%bindR_Ok)%bindR_Ok].
      split; [by exists y|by exists ys'].
Qed.

Lemma one_hot_is_Ok labels num_classes :
  Forall (fun l => 0 <= l < Z.of_nat num_classes)%Z labels <->
  is_Ok (one_hot labels num_classes).
Proof.
  unfold one_hot. rewrite <- mapR_is_Ok. apply Forall_iff. intros l.
  destruct (0 <=? l)%Z eqn:E1, (l <? Z.of_nat num_classes)%Z eqn:E2; simpl;
    try apply Z.leb_le in E1; try apply Z.leb_gt in E1;
    try apply Z.ltb_lt in E2; try apply Z.ltb_ge in E2.
  - split; [by eexists|lia].
  - split; [lia|by intros [? ?]].
  - split; [lia|by intros [? ?]].
  - split; [lia|by intros [? ?]].
Qed.

(** The dynamic k of every ground truth, for overlaps in [0, 1]. *)
Lemma dynamic_ks_in_range self iou :
  wf iou ->
  (0 <= candidate_topk self <= Z.of_nat (nrows iou))%Z ->
  (1 <= nrows iou)%nat ->
  Forall (Forall unit_interval) (rows iou) ->
  exists ks, compute_dynamic_ks self iou = Ok ks /\ length ks = ncols iou /\
    Forall (fun k => 1 <= k <= Z.of_nat (nrows iou))%Z ks.
Proof.
  intros Hwf Hk Hn Hunit. eexists. split; [by apply compute_dynamic_ks_eq|].
  split; [by rewrite length_map, length_seq|].
  apply Forall_fmap, Forall_forall. intros j Hj%elem_of_seq. simpl.
  set (K := Z.to_nat (candidate_topk self)).
  set (col := column_values iou j).
  assert (K <= length col)%nat as HK.
  { unfold col. rewrite column_values_length. lia. }
  destruct (top_values_spec K col HK) as (rest & Hperm & Hlen & Hsplit).
  split; [lia|].
  apply Z.max_lub; [lia|]. apply Z.le_trans with (Z.of_nat K); [|lia].
  apply Qtrunc_le; [lia|]. rewrite <- Hlen at 2. apply Qsum_le_length.
  assert (Forall unit_interval col) as Hcol
    by (apply column_values_Forall; [done|lia|done]).
  apply Forall_forall. intros v Hv.
  assert (v ∈ col) as Hin by (rewrite <- Hperm; apply elem_of_app; by left).
  eapply Forall_forall in Hcol; [|exact Hin]. apply Hcol.
Qed.

Lemma select_step_is_Ok cost ks st j k :
  (j < ncols cost)%nat -> ks !! j = Some k -> (0 <= k <= Z.of_nat (nrows cost))%Z ->
  exists st', select_step cost ks st j = Ok st' /\ is_Some st'.2.
Proof.
  intros Hj Hk Hr. unfold select_step. rewrite column_Ok by done. simpl.
  rewrite Hk. simpl. unfold topk. rewrite column_values_length.
  replace ((0 <=? k)%Z && (k <=? Z.of_nat (nrows cost))%Z) with true
    by (symmetry; apply andb_true_iff; split; apply Z.leb_le; lia).
  simpl. by eexists.
Qed.

Lemma select_loop_is_Ok cost ks gt_idxs st :
  Forall (fun j => (j < ncols cost)%nat /\
            exists k, ks !! j = Some k /\ (0 <= k <= Z.of_nat (nrows cost))%Z) gt_idxs ->
  exists st', select_loop cost ks st gt_idxs = Ok st' /\
    (gt_idxs <> [] \/ is_Some st.2 -> is_Some st'.2).
Proof.
  intros Hall. revert st. induction Hall as [|j gt_idxs (Hj & k & Hk & Hr) _ IH]; intros st.
  - exists st. split; [done|]. by intros [?|?].
  - simpl. destruct (select_step_is_Ok cost ks st j k Hj Hk Hr) as (st1 & -> & Hs1).
    simpl. destruct (IH st1) as (st' & -> & Hs'). exists st'. split; [done|].
    intros _. apply Hs'. by right.
Qed.

Lemma dynamic_k_matching_is_Ok self cost iou gt_classes num_gt fg_mask :
  wf cost -> wf iou -> same_shape iou cost ->
  length gt_classes = ncols cost -> count_true fg_mask = nrows cost ->
  (1 <= num_gt <= ncols cost)%nat -> (1 <= nrows cost)%nat ->
  (0 <= candidate_topk self <= Z.of_nat (nrows cost))%Z ->
  Forall (Forall unit_interval) (rows iou) ->
  is_Ok (dynamic_k_matching self cost iou gt_classes num_gt fg_mask).
Proof.
  intros Hcost Hiou [Hri Hci] Hcls Hcount Hn Hr Hk Hunit.
  destruct (dynamic_ks_in_range self iou Hiou) as (ks & Hks & Hlen & Hrange);
    [lia|lia|done|].
  destruct (select_loop_is_Ok cost ks (seq 0 num_gt) (zeros_like cost, None))
    as (st & Hloop & Hst).
  { apply Forall_forall. intros j Hj%elem_of_seq. split; [lia|].
    destruct (lookup_lt_is_Some_2 ks j) as [k Hkj]; [lia|].
    exists k. split; [done|]. eapply Forall_lookup in Hrange; [|exact Hkj].
    simpl in Hrange. lia. }
  destruct Hst as [pos Hpos]. { left. destruct num_gt; [lia|done]. }
  assert (select_candidates self cost iou num_gt = Ok st.1) as Hsel.
  { unfold select_candidates. cbv zeta. rewrite Hks. simpl. rewrite Hloop. simpl.
    by rewrite Hpos. }
  destruct (select_candidates_inv _ _ _ _ _ Hcost Hsel) as (Hm & Hms & Hbits).
  unfold dynamic_k_matching. rewrite Hsel. simpl.
  rewrite resolve_conflicts_eq by done. simpl. fold (resolved st.1 cost).
  pose proof (resolved_wf st.1 cost Hm) as Hwf'.
  pose proof (resolved_shape st.1 cost Hms) as [Hr' Hc'].
  destruct Hms as [Hmr Hmc].
  destruct (assemble_eq (resolved st.1 cost) iou gt_classes fg_mask)
    as (classes & -> & _); try done.
  - split; congruence.
  - rewrite Hc'. lia.
  - congruence.
  - congruence.
  - by eexists.
Qed.

Section AssignReturns.
Context `{Backend}.

Lemma cls_cost_of_is_Ok dev scores labels num_classes num_gt :
  is_Ok (cls_cost_of dev scores labels num_classes num_gt) <->
  Forall (fun l => 0 <= l < Z.of_nat num_classes)%Z labels /\
  out_of_memory dev (length scores * length labels * num_classes) = false /\
  out_of_memory dev (length scores * num_gt * num_classes) = false /\
  length labels = num_gt.
Proof.
  rewrite one_hot_is_Ok. unfold cls_cost_of, alloc. cbv zeta.
  destruct (one_hot labels num_classes) as [onehot|e]; simpl.
  2: { split; [by intros [? ?]|]. by intros [[? ?] _]. }
  destruct (out_of_memory dev (length scores * length labels * num_classes)); simpl.
  { split; [by intros [? ?]|]. by intros (_ & ? & _). }
  destruct (out_of_memory dev (length scores * num_gt * num_classes)); simpl.
  { split; [by intros [? ?]|]. by intros (_ & _ & ? & _). }
  destruct (length labels =? num_gt)%nat eqn:E.
  - apply Nat.eqb_eq in E. split; [|by eexists]. intros _. split; [by eexists|done].
  - apply Nat.eqb_neq in E. split; [by intros [? ?]|]. by intros (_ & _ & _ & ?).
Qed.


(** X12.  Whenever [_assign] returns a result, there is one decoded box
    and one row of scores per prior and one label per ground truth, the
    labels lie in [[0, num_classes)], the device holds a tensor of
    [num_valid * num_gt * num_classes] entries, there is at least one
    ground truth, [0 <= candidate_topk <= num_valid], and the result has
    at least one and at most [num_valid] foreground priors. *)
Theorem assign_success_conditions (self : SimOTAAssigner) (inp : Inputs)
    (res : AssignResult) :
  _assign self inp = Ok res ->
  let num_valid :=
    count_true (get_in_gt_and_in_center_info self (priors inp) (gt_bboxes inp)).1 in
  let num_gt := length (gt_bboxes inp) in
  let num_classes := ncols (pred_scores inp) in
  length (decoded_bboxes inp) = length (priors inp) /\
  nrows (pred_scores inp) = length (priors inp) /\
  length (gt_labels inp) = num_gt /\
  Forall (fun l => 0 <= l < Z.of_nat num_classes)%Z (gt_labels inp) /\
  out_of_memory (device inp) (num_valid * num_gt * num_classes) = false /\
  (1 <= num_gt)%nat /\
  (0 <= candidate_topk self <= Z.of_nat num_valid)%Z /\
  (1 <= num_fg (matching res) <= num_valid)%nat.
Proof.
  intros Hok. cbv zeta.
  pose proof (assign_inner_steps self inp res Hok) as Hsteps. cbv zeta in Hsteps.
  destruct Hsteps
    as (Hpre & Hdec & Hsc & Hlab & cost & Hcost & Hshape & Hcols & Hrows & Hdkm).
  split; [done|]. split; [done|]. split; [done|].
  assert (Forall (fun l => 0 <= l < Z.of_nat (ncols (pred_scores inp)))%Z (gt_labels inp) /\
          out_of_memory (device inp)
            (count_true (get_in_gt_and_in_center_info self (priors inp) (gt_bboxes inp)).1
             * length (gt_bboxes inp) * ncols (pred_scores inp)) = false) as [Hl Hm].
  { unfold _assign in Hok. cbv zeta in Hok.
    destruct (get_in_gt_and_in_center_info self (priors inp) (gt_bboxes inp))
      as [mask in_bc] eqn:Hfilter.
    apply bindR_Ok in Hok as (boxes & Hboxes & Hok).
    apply bindR_Ok in Hok as (scores & Hscores & Hok).
    apply bindR_Ok in Hok as (cls & Hcls & _).
    apply mask_select_length in Hscores as [_ Hls].
    assert (is_Ok (cls_cost_of (device inp) scores (gt_labels inp)
                     (ncols (pred_scores inp)) (length (gt_bboxes inp)))) as Hc
      by by eexists.
    apply cls_cost_of_is_Ok in Hc as (Hl & _ & Hm & _). rewrite Hls in Hm. done. }
  split; [done|]. split; [done|].
  unfold dynamic_k_matching in Hdkm.
  apply bindR_Ok in Hdkm as (m & Hsel & (m' & Hres & Hasm)%bindR_Ok).
  destruct (select_candidates_state _ _ _ _ _ Hcost Hsel) as (ks & Hks & Hn & Hk & Hst).
  split; [lia|]. split.
  - unfold compute_dynamic_ks, topk_dim0 in Hks.
    destruct ((0 <=? candidate_topk self)%Z && _) eqn:E; [|done].
    apply andb_true_iff in E as [E1%Z.leb_le E2%Z.leb_le].
    destruct Hshape as [Hr _]. rewrite Hr, Hrows in E2. lia.
  - pose proof Hst as [(Hwf & Hms & Hbits) _].
    rewrite resolve_conflicts_eq in Hres by done. injection Hres as <-.
    fold (resolved m cost) in Hasm.
    apply assemble_num_fg in Hasm. rewrite foreground_resolved in Hasm by done.
    rewrite Hasm, <- Hrows.
    by destruct (foreground_bounds cost ks _ m Hn Hk Hst) as (_ & ? & _).
Qed.

End AssignReturns.

(** ** The learning-rate hook *)

Lemma warmup_groups_eq {K} self cur (groups : list (K * list Q)) k :
  (forall lrs, LrUpdater._get_warmup_lr self cur lrs = Done (replicate (length lrs) k)) ->
  LrUpdater.warmup_groups self cur groups
  = Done (map (fun g => (g.1, replicate (length g.2) k)) groups).
Proof.
  intros Hk. induction groups as [|[key lrs] groups IH]; [done|].
  simpl. by rewrite Hk, IH.
Qed.

Lemma map_const_replicate {A B} (l : list A) (b : B) :
  map (fun _ => b) l = replicate (length l) b.
Proof. induction l as [|a l IH]; [done|]. simpl. by rewrite IH. Qed.

Lemma Qsquare_le a b : 0 <= a -> a <= b -> a ^ 2 <= b ^ 2.
Proof. intros Ha Hab. simpl. nra. Qed.


Section GetLrProperties.
Variable annealing_cos : Q -> Q -> Q -> Q.

(** X14.  With [by_epoch=False] and [max_iters = max_epochs *
    len(data_loader)], [get_lr] returns the fixed [target_lr] exactly
    from the first iteration of epoch [max_epochs - no_aug_epoch] on, and
    before that the annealed rate (or a [ZeroDivisionError], when the
    annealing span is 0).  With [by_epoch=True] the stop point is compared
    in epochs against a number of iterations: [target_lr] is returned as
    soon as [epoch >= max_epochs - len(data_loader) * no_aug_epoch]. *)
Theorem get_lr_stop_point (self : LrUpdater.Hook) (runner : Runner) (base_lr : Q) :
  (0 < data_loader_len runner)%Z ->
  (LrUpdater.by_epoch self = false ->
   max_iters runner = (max_epochs runner * data_loader_len runner)%Z ->
   LrUpdater.get_lr annealing_cos self runner base_lr
   = if (max_epochs runner - LrUpdater.no_aug_epoch self
           <=? iter runner / data_loader_len runner)%Z
     then Done (LrUpdater.target_lr self)
     else
       let span := (max_iters runner - LrUpdater.warmup_iters self
                    - LrUpdater.no_aug_iter self runner)%Z in
       if (span =? 0)%Z then Fail ZeroDivisionError
       else Done (annealing_cos (LrUpdater.base_lr_ self) (LrUpdater.target_lr self)
                    (inject_Z (iter runner - LrUpdater.warmup_iters self)
                     / inject_Z span))) /\
  (LrUpdater.by_epoch self = true ->
   (max_epochs runner
      - data_loader_len runner * LrUpdater.no_aug_epoch self <= epoch runner)%Z ->
   LrUpdater.get_lr annealing_cos self runner base_lr = Done (LrUpdater.target_lr self)).
Proof.
  intros HL. split.
  - intros Hby Hmax. unfold LrUpdater.get_lr. cbv zeta.
    unfold LrUpdater.max_progress, LrUpdater.progress. rewrite Hby.
    replace (max_iters runner - LrUpdater.no_aug_iter self runner <=? iter runner)%Z
      with (max_epochs runner - LrUpdater.no_aug_epoch self
              <=? iter runner / data_loader_len runner)%Z; [done|].
    unfold LrUpdater.no_aug_iter. rewrite Hmax.
    apply eq_iff_eq_true. rewrite !Z.leb_le. split.
    + intros Hle.
      pose proof (Z.mul_div_le (iter runner) (data_loader_len runner) HL). nia.
    + intros Hle. apply Z.div_le_lower_bound; [done|]. lia.
  - intros Hby Hle. unfold LrUpdater.get_lr. cbv zeta.
    unfold LrUpdater.max_progress, LrUpdater.progress, LrUpdater.no_aug_iter.
    rewrite Hby. by replace (_ <=? _)%Z with true by (symmetry; apply Z.leb_le; lia).
Qed.

(** X15.  Before the stop point [max_progress - no_aug_iter]: [get_lr]
    raises [ZeroDivisionError] when [warmup_iters] equals the stop point;
    when [warmup_iters] is below it, [get_lr] returns [annealing_cos] of
    [base_lr_], [target_lr] and a factor that is less than 1, not negative
    exactly from the end of the warm-up on, and 0 at [progress =
    warmup_iters]. *)
Theorem get_lr_annealing (self : LrUpdater.Hook) (runner : Runner) (base_lr : Q) :
  let stop := (LrUpdater.max_progress self runner - LrUpdater.no_aug_iter self runner)%Z in
  let progress := LrUpdater.progress self runner in
  (progress < stop)%Z ->
  (LrUpdater.warmup_iters self = stop ->
   LrUpdater.get_lr annealing_cos self runner base_lr = Fail ZeroDivisionError) /\
  ((LrUpdater.warmup_iters self < stop)%Z ->
   exists factor,
     LrUpdater.get_lr annealing_cos self runner base_lr
     = Done (annealing_cos (LrUpdater.base_lr_ self) (LrUpdater.target_lr self) factor) /\
     factor < 1 /\
     (0 <= factor <-> (LrUpdater.warmup_iters self <= progress)%Z) /\
     (progress = LrUpdater.warmup_iters self -> factor == 0)).
Proof.
  cbv zeta. intros Hlt. unfold LrUpdater.get_lr. cbv zeta.
  replace (_ <=? _)%Z with false by (symmetry; apply Z.leb_gt; lia).
  split.
  - intros Hw. by replace (_ =? 0)%Z with true by (symmetry; apply Z.eqb_eq; lia).
  - intros Hw. replace (_ =? 0)%Z with false by (symmetry; apply Z.eqb_neq; lia).
    eexists. split; [done|].
    set (p := LrUpdater.progress self runner) in *.
    set (w := LrUpdater.warmup_iters self) in *.
    set (span := (LrUpdater.max_progress self runner - w
                  - LrUpdater.no_aug_iter self runner)%Z).
    assert (0 < span)%Z as Hspan by (unfold span; lia).
    assert (0 < inject_Z span) as Hq.
    { change 0 with (inject_Z 0). by rewrite <- Zlt_Qlt. }
    split; [|split].
    + apply Qlt_shift_div_r; [done|]. rewrite Qmult_1_l, <- Zlt_Qlt. unfold span. lia.
    + split.
      * intros Hf.
        assert (0 <= inject_Z (p - w)) as Hn.
        { assert (inject_Z (p - w) == inject_Z (p - w) / inject_Z span * inject_Z span) as ->
            by (field; lra).
          apply Qmult_le_0_compat; lra. }
        change 0 with (inject_Z 0) in Hn. rewrite <- Zle_Qle in Hn. lia.
      * intros Hle. apply Qle_shift_div_l; [done|]. rewrite Qmult_0_l.
        change 0 with (inject_Z 0). rewrite <- Zle_Qle. lia.
    + intros ->. unfold Qdiv. rewrite Z.sub_diag. change (inject_Z 0) with 0. ring.
Qed.

End GetLrProperties.

(** ** The process hook *)

Lemma Qtrunc_inject_Z q (n : Z) : q == inject_Z n -> Qtrunc q = n.
Proof.
  unfold Qeq, Qtrunc. simpl. rewrite Z.mul_1_r. intros ->. by apply Z.quot_mul.
Qed.

(** X16.  On rank 0, for a value drawn within [random_size] and an input
    size whose first entry is not 0, [random_resize] sets a scale [(w, h)]
    with [w = 32 * drawn], between 32 times the bounds of [random_size],
    and [h] a multiple of 32; for a square input size, [h = w]. *)
Theorem random_resize_rank0 (random_size input_size : Z * Z) (is_distributed : bool)
    (drawn : Z) (tensor received : Z * Z) :
  (random_size.1 <= drawn <= random_size.2)%Z ->
  (input_size.1 <> 0)%Z ->
  exists w h,
    ProcessHook.random_resize random_size 0 is_distributed input_size drawn tensor received
    = Done (w, h) /\
    w = (32 * drawn)%Z /\ (32 * random_size.1 <= w <= 32 * random_size.2)%Z /\
    (32 | h)%Z /\
    (input_size.1 = input_size.2 -> h = w).
Proof.
  intros Hd Hz. unfold ProcessHook.random_resize. cbv zeta. simpl (0 =? 0)%Z. cbv iota.
  replace (input_size.1 =? 0)%Z with false by (symmetry; apply Z.eqb_neq; lia).
  replace (random_size.1 <=? random_size.2)%Z with true by (symmetry; apply Z.leb_le; lia).
  rewrite andb_false_r. do 2 eexists. split; [done|].
  split; [done|]. split; [lia|]. split; [by eexists; rewrite Z.mul_comm|].
  intros Heq. f_equal. rewrite <- Heq. apply Qtrunc_inject_Z.
  field. intros Hq. unfold Qeq in Hq. simpl in Hq. lia.
Qed.

(** X17.  After the calls of [before_train_epoch] for [n] consecutive
    epochs from [runner.epoch], mosaic and mixup are off and the L1 loss
    is on if and only if the epoch [max_epochs - no_aug_epoch - 1] is
    among them; otherwise the state is untouched.  So a run from epoch 0
    trains the last [no_aug_epoch + 1] epochs without the augmentation,
    and a run that starts after the switch epoch, or with
    [no_aug_epoch >= max_epochs], never closes it. *)
Theorem augmentation_switch (self : ProcessHook.Hook) (runner : Runner) (n : nat)
    (st : ProcessHook.Training) :
  let switch := (max_epochs runner - ProcessHook.no_aug_epoch self - 1)%Z in
  ProcessHook.train_epochs self runner n st
  = if (epoch runner <=? switch)%Z && (switch <? epoch runner + Z.of_nat n)%Z
    then no_aug else st.
Proof.
  cbv zeta. revert runner st. induction n as [|n IH]; intros runner st.
  - simpl. destruct (_ <=? _)%Z eqn:E1, (_ <? _)%Z eqn:E2; try done.
    apply Z.leb_le in E1. apply Z.ltb_lt in E2. lia.
  - cbn [ProcessHook.train_epochs]. cbv zeta. rewrite IH. cbn [epoch max_epochs].
    unfold ProcessHook.before_train_epoch.
    destruct (epoch runner + 1 =? _)%Z eqn:E0;
      [apply Z.eqb_eq in E0|apply Z.eqb_neq in E0];
      repeat match goal with
        | |- context [(?a <=? ?b)%Z] => destruct (Z.leb_spec a b)
        | |- context [(?a <? ?b)%Z] => destruct (Z.ltb_spec a b)
        end; simpl; try done; lia.
Qed.

(** ** all_reduce *)

Lemma mapH_Done {A B} (f : A -> HookRes B) (g : A -> B) (l : list A) :
  (forall x, x ∈ l -> f x = Done (g x)) -> mapH f l = Done (map g l).
Proof.
  induction l as [|x l IH]; intros Hf; [done|]. simpl.
  rewrite Hf by left. rewrite IH; [done|]. intros y Hy. apply Hf. by right.
Qed.

Lemma split_sizes_length x sizes : length (split_sizes x sizes) = length sizes.
Proof. revert x. induction sizes as [|n sizes IH]; intros x; [done|]. simpl. by rewrite IH. Qed.

(** The [p]-th part of a split starts where the parts before it end. *)
Lemma split_sizes_lookup x sizes p n :
  sizes !! p = Some n ->
  split_sizes x sizes !! p = Some (take n (drop (foldr Nat.add 0%nat (take p sizes)) x)).
Proof.
  revert x p. induction sizes as [|m sizes IH]; intros x p Hp; [done|].
  destruct p as [|p]; simpl in *.
  - by injection Hp as ->.
  - rewrite (IH _ _ Hp). by rewrite drop_drop.
Qed.

Lemma concat_lookup_offset {A} (xss : list (list A)) p xs i :
  xss !! p = Some xs -> (i < length xs)%nat ->
  concat xss !! (foldr Nat.add 0%nat (take p (map length xss)) + i)%nat = xs !! i.
Proof.
  revert p. induction xss as [|ys xss IH]; intros p Hp Hi; [done|].
  destruct p as [|p]; simpl in *.
  - injection Hp as ->. by rewrite lookup_app_l.
  - rewrite lookup_app_r by lia.
    replace (length ys + foldr Nat.add 0%nat (take p (map length xss)) + i - length ys)%nat
      with (foldr Nat.add 0%nat (take p (map length xss)) + i)%nat by lia.
    by apply IH.
Qed.

Lemma concat_length_sum {A} (xss : list (list A)) :
  length (concat xss) = foldr Nat.add 0%nat (map length xss).
Proof. induction xss as [|xs xss IH]; [done|]. simpl. by rewrite length_app, IH. Qed.

Lemma Qsum_ext {A} (f g : A -> Q) (l : list A) :
  (forall x, x ∈ l -> f x == g x) -> Qsum (map f l) == Qsum (map g l).
Proof.
  induction l as [|x l IH]; intros Hfg; [done|]. simpl. rewrite !Qsum_cons.
  rewrite Hfg by left. rewrite IH; [done|]. intros y Hy. apply Hfg. by right.
Qed.

Lemma sum_take_le (sizes : list nat) p n :
  sizes !! p = Some n ->
  (foldr Nat.add 0%nat (take p sizes) + n <= foldr Nat.add 0%nat sizes)%nat.
Proof.
  revert p. induction sizes as [|m sizes IH]; intros p Hp; [done|].
  destruct p as [|p]; simpl in *.
  - injection Hp as ->. lia.
  - specialize (IH p Hp). lia.
Qed.

Section AllReduceProperties.
Context {K : Type} `{EqDecision K}.
Variable dist_all_reduce : ReduceOp -> list (HookRes (list Q)) -> nat -> HookRes (list Q).

Lemma flatten_of_Done (d : PyDict) (py_key : list K) :
  py_key <> [] ->
  (forall k, k ∈ py_key -> is_Some (dict_get d k)) ->
  flatten_of d py_key = Done (concat (map (fun k => data (tensor_of d k)) py_key)).
Proof.
  intros Hne Hk. unfold flatten_of.
  rewrite (mapH_Done (getitem d) (tensor_of d)).
  - rewrite map_map. destruct py_key; [done|]. done.
  - intros k [t Ht]%Hk. unfold getitem, tensor_of. by rewrite Ht.
Qed.

(** X18.  With at least two processes whose dicts hold, for every key of
    rank 0, a tensor of the same number of entries, and a [dist.all_reduce]
    that adds the tensors of the processes entry by entry, [all_reduce]
    with [op="mean"] returns on every process a dict with the keys of
    rank 0 in their order, where the tensor of each key has the shape this
    process had for it and holds, entry by entry, the mean over the
    processes (over exact rationals). *)
Theorem all_reduce_mean (before after : list PyDict) (py_dict : PyDict) (sizes : K -> nat) :
  let world := before ++ py_dict :: after in
  let py_key := keys (default py_dict (head before)) in
  (2 <= length world)%nat ->
  py_key <> [] ->
  (forall d k, d ∈ world -> k ∈ py_key ->
     exists t, dict_get d k = Some t /\ numel t = sizes k) ->
  (forall k t, dict_get py_dict k = Some t -> shape_numel (shape t) = numel t) ->
  (forall flats n,
     Forall (fun f => length f = n) flats -> length flats = length world ->
     exists out,
       dist_all_reduce SUM (map Done flats) (length before) = Done out /\
       length out = n /\
       forall i x, out !! i = Some x ->
                   x == Qsum (map (fun f => default 0 (f !! i)) flats)) ->
  exists result,
    all_reduce dist_all_reduce before py_dict after "mean" = Done result /\
    keys result = py_key /\
    forall p k, py_key !! p = Some k ->
      exists t t',
        dict_get py_dict k = Some t /\ result !! p = Some (k, t') /\
        shape t' = shape t /\ numel t' = numel t /\
        forall i x, data t' !! i = Some x ->
          x == Qsum (map (fun d => dict_entry d k i) world)
               / inject_Z (Z.of_nat (length world)).
Proof.
  cbv zeta. set (world := before ++ py_dict :: after).
  set (py_key := keys (default py_dict (head before))).
  intros Hworld Hne Hsame Hwf Hcoll.
  assert (py_dict ∈ world) as Hown by (apply elem_of_app; right; left).
  assert (forall d, d ∈ world ->
            map (fun k => length (data (tensor_of d k))) py_key = map sizes py_key) as Hlens.
  { intros d Hd. apply map_ext_in. intros k Hk%list_elem_of_In.
    destruct (Hsame d k Hd Hk) as (t & Ht & Hn). unfold tensor_of. by rewrite Ht. }
  set (N := foldr Nat.add 0%nat (map sizes py_key)).
  set (flat := fun d : PyDict => concat (map (fun k => data (tensor_of d k)) py_key)).
  assert (forall d, d ∈ world -> flatten_of d py_key = Done (flat d)) as Hflat.
  { intros d Hd. apply flatten_of_Done; [done|]. intros k Hk.
    destruct (Hsame d k Hd Hk) as (t & -> & _). by eexists. }
  assert (forall d, d ∈ world -> length (flat d) = N) as HflatN.
  { intros d Hd. unfold flat. rewrite concat_length_sum, map_map. by rewrite Hlens. }
  destruct (Hcoll (map flat world) N) as (out & Hout & HoutN & Hentries).
  { apply Forall_fmap, Forall_forall. intros d Hd. by apply HflatN. }
  { by rewrite length_map. }
  set (n := inject_Z (Z.of_nat (length world))).
  set (out' := map (fun x => x / n) out).
  set (tensors := map (tensor_of py_dict) py_key).
  assert (mapH (getitem py_dict) py_key = Done tensors) as Htensors.
  { apply mapH_Done. intros k Hk. destruct (Hsame py_dict k Hown Hk) as (t & Ht & _).
    unfold getitem, tensor_of. by rewrite Ht. }
  assert (map numel tensors = map sizes py_key) as Hnumels.
  { unfold tensors. rewrite map_map. by apply (Hlens py_dict). }
  set (rebuilt := map (fun xs : list Q * list nat => {| shape := xs.2; data := xs.1 |})
                      (zip (split_sizes out' (map numel tensors)) (map shape tensors))).
  assert (forall p k, py_key !! p = Some k ->
            split_sizes out' (map numel tensors) !! p
            = Some (take (sizes k)
                      (drop (foldr Nat.add 0%nat (take p (map sizes py_key))) out')) /\
            (foldr Nat.add 0%nat (take p (map sizes py_key)) + sizes k <= N)%nat) as Hparts.
  { intros p k Hp. rewrite Hnumels. split.
    - apply split_sizes_lookup. by rewrite list_lookup_fmap, Hp.
    - apply sum_take_le. by rewrite list_lookup_fmap, Hp. }
  assert (length out' = N) as Hout'N by (unfold out'; by rewrite length_map).
  exists (zip py_key rebuilt). split; [|split].
  - unfold all_reduce. cbv zeta. fold world py_key.
    replace (length world =? 1)%nat with false by (symmetry; apply Nat.eqb_neq; lia).
    rewrite Htensors.
    assert (torch_cat (map data tensors) = Done (flat py_dict)) as ->.
    { unfold tensors. rewrite map_map. unfold flat. by destruct py_key. }
    change (_get_reduce_op "mean") with (Done SUM).
    replace (map (fun d => flatten_of d py_key) world) with (map Done (map flat world)).
    2: { rewrite map_map. apply map_ext_in. intros d Hd%list_elem_of_In.
         symmetry. by apply Hflat. }
    rewrite Hout. change (String.eqb "mean" "mean") with true. cbv iota.
    fold n out'. unfold rebuild, torch_split.
    replace (foldr Nat.add 0%nat (map numel tensors) =? length out')%nat with true
      by (symmetry; apply Nat.eqb_eq; rewrite Hnumels, Hout'N; done).
    rewrite (mapH_Done _ (fun xs : list Q * list nat => {| shape := xs.2; data := xs.1 |})).
    + done.
    + intros [part sh] Hin. apply list_elem_of_lookup in Hin as [p Hp].
      apply lookup_zip_with_Some in Hp as (part' & sh' & [= <- <-] & Hpart & Hsh).
      unfold tensors in Hsh. rewrite !list_lookup_fmap in Hsh.
      destruct (py_key !! p) as [k|] eqn:Hk; [|done]. simpl in Hsh. injection Hsh as <-.
      destruct (Hparts p k Hk) as [Hpk Hle]. rewrite Hpk in Hpart. injection Hpart as <-.
      destruct (Hsame py_dict k Hown) as (t & Ht & Hnt); [by eapply list_elem_of_lookup_2|].
      unfold reshape, tensor_of. rewrite Ht. simpl.
      rewrite (Hwf k t Ht), Hnt.
      rewrite length_take, length_drop.
      by replace (sizes k =? sizes k `min` (length out' - _))%nat with true
        by (symmetry; apply Nat.eqb_eq; lia).
  - unfold keys. apply fst_zip. unfold rebuilt.
    rewrite length_map, length_zip, split_sizes_length, !length_map. unfold tensors.
    rewrite length_map. lia.
  - intros p k Hp. destruct (Hparts p k Hp) as [Hpk Hle].
    assert (k ∈ py_key) as Hk by by eapply list_elem_of_lookup_2.
    destruct (Hsame py_dict k Hown Hk) as (t & Ht & Hnt).
    set (off := foldr Nat.add 0%nat (take p (map sizes py_key))) in *.
    exists t, {| shape := shape t; data := take (sizes k) (drop off out') |}.
    split; [done|]. split; [|split; [done|split]].
    + unfold PyDict. rewrite lookup_zip_with, Hp. simpl. unfold rebuilt.
      rewrite list_lookup_fmap, lookup_zip_with, Hpk. simpl. unfold tensors.
      rewrite !list_lookup_fmap, Hp. simpl. unfold tensor_of. by rewrite Ht.
    + unfold numel in *. simpl. rewrite length_take, length_drop. lia.
    + intros i x. simpl. intros Hx.
      assert (i < sizes k)%nat as Hi.
      { apply lookup_lt_Some in Hx. rewrite length_take in Hx. lia. }
      rewrite lookup_take_lt, lookup_drop in Hx by done.
      unfold out' in Hx. rewrite list_lookup_fmap in Hx.
      destruct (out !! (off + i)%nat) as [y|] eqn:Hy; [|done]. simpl in Hx.
      injection Hx as <-. rewrite (Hentries _ _ Hy), map_map.
      apply Qmult_comp; [|done]. apply Qsum_ext. intros d Hd.
      destruct (Hsame d k Hd Hk) as (td & Htd & Hntd).
      unfold dict_entry. rewrite Htd. simpl. unfold flat, off.
      rewrite <- (Hlens d Hd), <- (map_map (fun k => data (tensor_of d k)) length).
      rewrite (concat_lookup_offset _ p (data td)).
      * done.
      * rewrite list_lookup_fmap, Hp. simpl. unfold tensor_of. by rewrite Htd.
      * unfold numel in Hntd. lia.
Qed.

End AllReduceProperties.

Section AllReduceOp.
Context {K : Type} `{EqDecision K}.
Variable dist_all_reduce : ReduceOp -> list (HookRes (list Q)) -> nat -> HookRes (list Q).

(** X19.  With at least two processes: an [op] that differs from ["mean"]
    only by upper case, such as ["MEAN"], makes [all_reduce] return what
    [op="sum"] returns, the sum without the division; an [op] whose lower
    case is neither ["sum"] nor ["mean"] makes it raise. *)
Theorem all_reduce_op_names (before after : list PyDict) (py_dict : PyDict (K := K))
    (op : string) :
  (2 <= length (before ++ py_dict :: after))%nat ->
  (lower op = "mean" -> op <> "mean" ->
   all_reduce dist_all_reduce before py_dict after op
   = all_reduce dist_all_reduce before py_dict after "sum") /\
  (lower op <> "sum" -> lower op <> "mean" ->
   exists e, all_reduce dist_all_reduce before py_dict after op = Fail e).
Proof.
  intros Hworld. unfold all_reduce. cbv zeta.
  replace (length (before ++ py_dict :: after) =? 1)%nat with false
    by (symmetry; apply Nat.eqb_neq; lia).
  destruct (mapH _ _) as [tensors|e]; [|split; [done|by eexists]].
  destruct (torch_cat _) as [flat|e]; [|split; [done|by eexists]].
  unfold _get_reduce_op. split.
  - intros Hl Hne. rewrite Hl. apply String.eqb_neq in Hne. rewrite Hne.
    change (String.eqb (lower "sum") "sum") with true.
    change (String.eqb "mean" "sum") with false.
    change (String.eqb "mean" "mean") with true.
    change (String.eqb "sum" "mean") with false. done.
  - intros Hs Hm. apply String.eqb_neq in Hs, Hm. rewrite Hs, Hm. by eexists.
Qed.

End AllReduceOp.

(** ** DataTransformer.py *)

Lemma py_getitem_nat {A} (l : list A) (i : nat) x :
  l !! i = Some x -> py_getitem l (Z.of_nat i) = Ok x.
Proof.
  intros Hx. unfold py_getitem, py_index.
  pose proof (lookup_lt_Some _ _ _ Hx).
  replace ((0 <=? Z.of_nat i)%Z && (Z.of_nat i <? Z.of_nat (length l))%Z) with true
    by (symmetry; apply andb_true_iff; split; [apply Z.leb_le|apply Z.ltb_lt]; lia).
  simpl. by rewrite Nat2Z.id, Hx.
Qed.

Lemma py_setitem_nat {A} (l : list A) (n : nat) v :
  (n < length l)%nat -> py_setitem l (Z.of_nat n) v = Ok (<[n := v]> l).
Proof.
  intros Hn. unfold py_setitem, py_index.
  replace ((0 <=? Z.of_nat n)%Z && (Z.of_nat n <? Z.of_nat (length l))%Z) with true
    by (symmetry; apply andb_true_iff; split; [apply Z.leb_le|apply Z.ltb_lt]; lia).
  by rewrite Nat2Z.id.
Qed.

(** The loop over [range] writes the result of image [i] at the position
    [pos i], for positions in range that differ from each other. *)
Lemma fill_spec {A} (image_order : list Z) (content : list A) (pos : nat -> nat)
    (range : list nat) (ans : list (Slot A)) :
  NoDup (map pos range) ->
  (forall i, i ∈ range ->
     is_Some (content !! i) /\ image_order !! i = Some (Z.of_nat (pos i)) /\
     (pos i < length ans)%nat) ->
  exists ans',
    fill image_order content ans range = Ok ans' /\
    length ans' = length ans /\
    (forall i, i ∈ range -> ans' !! pos i = Result <$> content !! i) /\
    (forall n, n ∉ map pos range -> ans' !! n = ans !! n).
Proof.
  revert ans. induction range as [|i range IH]; intros ans Hnd Hr.
  { exists ans. split; [done|]. split; [done|]. split; [|done].
    intros i Hi. by apply elem_of_nil in Hi. }
  simpl in Hnd. apply NoDup_cons in Hnd as [Hni Hnd].
  destruct (Hr i) as ([c Hc] & Hj & Hlt); [left|].
  simpl. rewrite (py_getitem_nat _ _ _ Hc). simpl.
  rewrite (py_getitem_nat _ _ _ Hj). simpl.
  rewrite py_setitem_nat by done. simpl.
  destruct (IH (<[pos i := Result c]> ans) Hnd) as (ans' & Hfill & Hlen & Hset & Hkeep).
  { intros i' Hi'. rewrite length_insert. apply Hr. by right. }
  exists ans'. split; [done|]. rewrite length_insert in Hlen. split; [done|]. split.
  - intros i' [->|Hi']%elem_of_cons.
    + rewrite Hkeep by done. rewrite list_lookup_insert_eq by done. by rewrite Hc.
    + by apply Hset.
  - intros n Hn. simpl in Hn. apply not_elem_of_cons in Hn as [Hne Hn].
    rewrite Hkeep by done. by apply list_lookup_insert_ne.
Qed.

(** X20.  When the first 3000 numbers of the file are distinct and lie
    between 10001 and 13000 and there are at least 3000 results, the loop
    of lines 23-24 fills [ans] without an error: [ans] has 3000 entries,
    the result of the [i]-th image is stored at its number minus 10001,
    and no entry keeps the [0] it was created with. *)
Theorem reorder_by_number {A} (numbers : list Z) (content : list A) :
  (3000 <= length content)%nat ->
  NoDup (take 3000 numbers) ->
  (3000 <= length numbers)%nat ->
  Forall (fun line => 10001 <= line <= 13000)%Z (take 3000 numbers) ->
  exists ans,
    reorder numbers content = Ok ans /\
    length ans = 3000%nat /\
    (forall i line, (i < 3000)%nat -> numbers !! i = Some line ->
       ans !! Z.to_nat (line - 10001) = Result <$> content !! i) /\
    (forall n, (n < 3000)%nat ->
       exists i c, (i < 3000)%nat /\ content !! i = Some c /\ ans !! n = Some (Result c)).
Proof.
  intros Hc Hnd Hn Hrange.
  set (pos := fun i => Z.to_nat (default 0%Z (numbers !! i) - 10001)).
  assert (forall i, (i < 3000)%nat ->
            exists line, numbers !! i = Some line /\ (10001 <= line <= 13000)%Z) as Hline.
  { intros i Hi. destruct (lookup_lt_is_Some_2 numbers i) as [line Hl]; [lia|].
    exists line. split; [done|].
    eapply Forall_lookup in Hrange; [exact Hrange|]. by rewrite lookup_take_lt. }
  assert (NoDup (map pos (seq 0 3000))) as Hpos.
  { apply NoDup_fmap_2_strong; [|apply NoDup_seq].
    intros i i' Hi%elem_of_seq Hi'%elem_of_seq Heq.
    destruct (Hline i) as (l & Hl & Hlr); [lia|].
    destruct (Hline i') as (l' & Hl' & Hlr'); [lia|].
    unfold pos in Heq. rewrite Hl, Hl' in Heq. simpl in Heq.
    assert (l = l') as <- by lia.
    eapply NoDup_lookup; [exact Hnd| |]; by rewrite lookup_take_lt by lia. }
  destruct (fill_spec (image_order_of numbers) content pos (seq 0 3000)
              (replicate 3000 Zero) Hpos) as (ans & Hfill & Hlen & Hset & Hkeep).
  { intros i Hi%elem_of_seq. destruct (Hline i) as (l & Hl & Hlr); [lia|].
    split; [apply lookup_lt_is_Some_2; lia|]. split.
    - unfold image_order_of. rewrite list_lookup_fmap, Hl. simpl. f_equal.
      unfold pos. rewrite Hl. simpl. lia.
    - rewrite length_replicate. unfold pos. rewrite Hl. simpl. lia. }
  rewrite length_replicate in Hlen.
  exists ans. split; [done|]. split; [done|]. split.
  - intros i line Hi Hl. rewrite <- (Hset i) by (apply elem_of_seq; lia).
    unfold pos. by rewrite Hl.
  - intros n Hlt.
    assert (map pos (seq 0 3000) ≡ₚ seq 0 3000) as Hperm.
    { apply submseteq_length_Permutation.
      - apply NoDup_submseteq; [done|]. intros p (i & -> & Hi%elem_of_seq)%list_elem_of_fmap.
        apply elem_of_seq. destruct (Hline i) as (l & Hl & Hlr); [lia|].
        unfold pos. rewrite Hl. simpl. lia.
      - by rewrite length_map. }
    assert (n ∈ map pos (seq 0 3000)) as Hin.
    { rewrite Hperm. apply elem_of_seq. lia. }
    apply list_elem_of_fmap in Hin as (i & -> & Hi%elem_of_seq).
    destruct (lookup_lt_is_Some_2 content i) as [c Hci]; [lia|].
    exists i, c. split; [lia|]. split; [done|].
    rewrite (Hset i) by (apply elem_of_seq; lia). by rewrite Hci.
Qed.

(** * The properties on concrete inputs *)

(** Tactics for the hypotheses on concrete tensors. *)
Ltac forall_rows tac :=
  repeat first [ apply List.Forall_nil | apply List.Forall_cons | tac ].
Ltac solve_wf := unfold wf; forall_rows ltac:(reflexivity).
Ltac solve_bits := unfold bits; forall_rows ltac:(first [ by left | by right ]).
Ltac solve_unit := forall_rows ltac:(unfold unit_interval; lra).
Ltac solve_shape := split; reflexivity.

(** The scenario of the specification: the first two priors are valid,
    and both lie in the box and in the center region of the ground truth. *)
Example candidate_filter_example :
  get_in_gt_and_in_center_info default_assigner (priors one_gt_inputs)
    (gt_bboxes one_gt_inputs)
  = ([true; true; false], [[true]; [true]]).
Proof. reflexivity. Qed.

(** C1.  The code at the failing inputs.  On [one_gt_inputs] with the
    default assigner there are two valid priors for [candidate_topk = 10]:
    [torch.topk] raises a [RuntimeError] that is not an out-of-memory
    error.  On [bad_label_inputs] it is [F.one_hot].  In both cases
    [assign] warns about an OOM, empties the CUDA cache and runs the
    pipeline again on the CPU, where it fails in the same way. *)
Theorem assign_retries_without_oom :
  @_assign example_backend default_assigner one_gt_inputs
    = Raise (RuntimeError KOutOfRange) /\
  @assign example_backend default_assigner one_gt_inputs
    = ([WarnOOM; EmptyCache], Raise (RuntimeError KOutOfRange)) /\
  @_assign example_backend top2_assigner bad_label_inputs
    = Raise (RuntimeError ClassValueOutOfRange) /\
  @assign example_backend top2_assigner bad_label_inputs
    = ([WarnOOM; EmptyCache], Raise (RuntimeError ClassValueOutOfRange)).
Proof. repeat split; by vm_compute. Qed.

(** C2, counterexample: on [no_gt_inputs] the call raises; it returns no
    result with [num_fg = 0]. *)
Lemma assign_no_ground_truth_raises :
  gt_bboxes no_gt_inputs = [] /\
  @assign example_backend default_assigner no_gt_inputs
    = ([WarnOOM; EmptyCache], Raise (RuntimeError KOutOfRange)) /\
  ~ (exists r, (@assign example_backend default_assigner no_gt_inputs).2 = Ok r /\
               num_fg (matching r) = O).
Proof.
  split; [done|]. split; [by vm_compute|]. intros (r & Hr & _). by vm_compute in Hr.
Qed.

(** C2, witness: [assign_no_ground_truth] at [no_gt_inputs]. *)
Lemma assign_no_ground_truth_witness :
  get_in_gt_and_in_center_info default_assigner (priors no_gt_inputs) (gt_bboxes no_gt_inputs)
    = (replicate (length (priors no_gt_inputs)) false, []) /\
  (exists e, @_assign example_backend default_assigner no_gt_inputs = Raise e) /\
  (exists e, (@assign example_backend default_assigner no_gt_inputs).2 = Raise e).
Proof.
  exact (@assign_no_ground_truth example_backend default_assigner no_gt_inputs eq_refl).
Defined.

(** C3, counterexample: two valid priors with IoUs in [0, 1] and the
    default [candidate_topk = 10]; no dynamic k is computed. *)
Lemma dynamic_k_few_priors :
  wf small_iou /\ Forall (Forall unit_interval) (rows small_iou) /\
  (Z.of_nat (nrows small_iou) < candidate_topk default_assigner)%Z /\
  compute_dynamic_ks default_assigner small_iou = Raise (RuntimeError KOutOfRange) /\
  ~ (exists ks, compute_dynamic_ks default_assigner small_iou = Ok ks /\
                Forall (fun k => 1 <= k <= Z.of_nat (nrows small_iou))%Z ks).
Proof.
  split; [solve_wf|]. split; [solve_unit|]. split; [by vm_compute|].
  split; [by vm_compute|]. intros (ks & Hks & _). by vm_compute in Hks.
Qed.

(** C3, witness: [dynamic_k_bounds] at [ex_iou] with [candidate_topk = 2]. *)
Lemma dynamic_k_bounds_witness :
  exists ks, compute_dynamic_ks top2_assigner ex_iou = Ok ks /\ length ks = ncols ex_iou /\
    forall j, (j < ncols ex_iou)%nat ->
      exists k col top rest,
        ks !! j = Some k /\ column ex_iou j = Ok col /\
        top ++ rest ≡ₚ col /\
        length top = Z.to_nat (candidate_topk top2_assigner) /\
        (forall v r, v ∈ top -> r ∈ rest -> r <= v) /\
        k = Z.max 1 (Qtrunc (Qsum top)) /\
        (1 <= k <= Z.of_nat (nrows ex_iou))%Z.
Proof.
  apply (dynamic_k_bounds top2_assigner ex_iou).
  - solve_wf.
  - by vm_compute.
  - vm_compute. lia.
  - solve_unit.
Defined.

(** C4, witness: [resolve_conflicts_row_sums] at [ex_matching]. *)
Lemma resolve_conflicts_row_sums_witness :
  exists m', resolve_conflicts ex_matching ex_cost = Ok m' /\
    Forall (fun r => Qsum r == 0 \/ Qsum r == 1) (rows m').
Proof.
  apply (resolve_conflicts_row_sums ex_matching ex_cost).
  - solve_wf.
  - solve_wf.
  - solve_shape.
  - solve_bits.
Defined.

(** C5, witness: [resolve_conflicts_frame] at [ex_matching]. *)
Lemma resolve_conflicts_frame_witness :
  exists m', resolve_conflicts ex_matching ex_cost = Ok m' /\ same_shape m' ex_matching /\
    forall i r c, rows ex_matching !! i = Some r -> rows ex_cost !! i = Some c ->
      exists r', rows m' !! i = Some r' /\ length r' = length r /\
        length c = ncols ex_cost /\
        (Qsum r <= 1 -> r' = r) /\
        (1 < Qsum r ->
           (exists cj, c !! argmin c = Some cj /\
                       forall j' c', c !! j' = Some c' -> cj <= c') /\
           r' !! argmin c = Some 1 /\
           forall j' x, j' <> argmin c -> r' !! j' = Some x -> x == 0).
Proof.
  apply (resolve_conflicts_frame ex_matching ex_cost).
  - solve_wf.
  - solve_wf.
  - solve_shape.
Defined.

(** C8, witness: [assemble_spec] at [ex_matching], with four priors of
    which the second is not valid. *)
Lemma assemble_spec_witness :
  exists m' fg_mask' res,
    resolve_conflicts ex_matching ex_cost = Ok m' /\
    assemble m' ex_iou [2; 5]%Z [true; false; true; true] = Ok (fg_mask', res) /\
    (forall i r, rows m' !! i = Some r ->
       (foreground m' !! i = Some true <-> 0 < Qsum r)) /\
    num_fg res = count_true (foreground m') /\
    (forall n i, nonzero (foreground m') !! n = Some i ->
       exists r j x c,
         rows m' !! i = Some r /\ matched_gt_inds res !! n = Some j /\
         r !! j = Some x /\ x == 1 /\
         (forall j' y, j' <> j -> r !! j' = Some y -> y == 0) /\
         [2; 5]%Z !! j = Some c /\ gt_matched_classes res !! n = Some c) /\
    length fg_mask' = length [true; false; true; true] /\
    (forall p, fg_mask' !! p = Some true <->
       exists n, nonzero [true; false; true; true] !! n = Some p /\
                 foreground m' !! n = Some true).
Proof.
  apply (assemble_spec ex_matching ex_cost ex_iou [2; 5]%Z [true; false; true; true]).
  - solve_wf.
  - solve_bits.
  - solve_wf.
  - solve_shape.
  - solve_wf.
  - solve_shape.
  - vm_compute. lia.
  - reflexivity.
  - reflexivity.
Defined.

(** C9, witness: [matched_ious_unit] at [ex_cost] and [ex_iou]. *)
Lemma matched_ious_unit_witness :
  Forall unit_interval [70 # 100; 5 # 10].
Proof.
  apply (matched_ious_unit top2_assigner ex_cost ex_iou [2; 5]%Z 2
           [true; false; true; true] [false; false; true; true]
           {| num_fg := 2; gt_matched_classes := [2; 5]%Z;
              pred_ious_this_matching := [70 # 100; 5 # 10];
              matched_gt_inds := [0; 1]%nat |}).
  - solve_wf.
  - solve_wf.
  - solve_shape.
  - solve_unit.
  - reflexivity.
Defined.

(** C10, witness: [assign_result_sizes] at [one_gt_inputs] with
    [candidate_topk = 2]. *)
Lemma assign_result_sizes_witness :
  let res := {| result_device := Cuda;
                valid_mask := [true; false; false];
                matching := {| num_fg := 1; gt_matched_classes := [2%Z];
                               pred_ious_this_matching := [81 # 100];
                               matched_gt_inds := [0%nat] |} |} in
  let fg := matching res in
  let pre := (get_in_gt_and_in_center_info top2_assigner (priors one_gt_inputs)
                (gt_bboxes one_gt_inputs)).1 in
  length (gt_matched_classes fg) = num_fg fg /\
  length (pred_ious_this_matching fg) = num_fg fg /\
  length (matched_gt_inds fg) = num_fg fg /\
  count_true (valid_mask res) = num_fg fg /\
  length (valid_mask res) = length (priors one_gt_inputs) /\
  forall p, valid_mask res !! p = Some true -> pre !! p = Some true.
Proof.
  apply (@assign_result_sizes example_backend top2_assigner one_gt_inputs). reflexivity.
Defined.

(** X6, witness: the selection on [ex_cost] and [ex_iou]. *)
Lemma selection_yields_matching_matrix_witness :
  wf (T2 2 [[0; 0]; [1; 0]; [0; 1]]) /\
  same_shape (T2 2 [[0; 0]; [1; 0]; [0; 1]]) ex_cost /\
  bits (T2 2 [[0; 0]; [1; 0]; [0; 1]]).
Proof.
  apply (selection_yields_matching_matrix top2_assigner ex_cost ex_iou 2).
  - solve_wf.
  - reflexivity.
Defined.


(** X2, witness: [assign_foreground_bounds] at [one_gt_inputs]. *)
Lemma assign_foreground_bounds_witness :
  (1 <= count_true (get_in_gt_and_in_center_info top2_assigner (priors one_gt_inputs)
                      (gt_bboxes one_gt_inputs)).1)%nat /\
  (count_true (get_in_gt_and_in_center_info top2_assigner (priors one_gt_inputs)
                 (gt_bboxes one_gt_inputs)).1 <= length (priors one_gt_inputs))%nat.
Proof.
  exact (@assign_foreground_bounds example_backend top2_assigner one_gt_inputs
           {| result_device := Cuda;
              valid_mask := [true; false; false];
              matching := {| num_fg := 1; gt_matched_classes := [2%Z];
                             pred_ious_this_matching := [81 # 100];
                             matched_gt_inds := [0%nat] |} |} eq_refl).
Defined.




(** X7, witness: the selection on [ex_cost] and [ex_iou]. *)
Lemma selection_columns_witness :
  exists ks, compute_dynamic_ks top2_assigner ex_iou = Ok ks /\
    forall j, (j < 2)%nat ->
      exists k, ks !! j = Some k /\ (1 <= k <= Z.of_nat (nrows ex_cost))%Z /\
        Qsum (column_values (T2 2 [[0; 0]; [1; 0]; [0; 1]]) j) == inject_Z k /\
        forall i i' c c',
          entry (T2 2 [[0; 0]; [1; 0]; [0; 1]]) i j = Some 1 ->
          entry (T2 2 [[0; 0]; [1; 0]; [0; 1]]) i' j = Some 0 ->
          entry ex_cost i j = Some c -> entry ex_cost i' j = Some c' -> c <= c'.
Proof.
  apply (selection_columns top2_assigner ex_cost ex_iou 2).
  - solve_wf.
  - reflexivity.
Defined.

(** X8, witness: two ground truths with dynamic k 1 each, two foreground
    priors. *)
Lemma foreground_count_witness :
  exists ks, compute_dynamic_ks top2_assigner ex_iou = Ok ks /\
    (forall j k, (j < 2)%nat -> ks !! j = Some k -> (k <= 2)%Z) /\
    (1 <= 2 <= nrows ex_cost)%nat /\
    (2 <= total_k ks 2)%Z.
Proof.
  apply (foreground_count top2_assigner ex_cost ex_iou [2; 5]%Z 2
           [true; false; true; true] [false; false; true; true]
           {| num_fg := 2; gt_matched_classes := [2; 5]%Z;
              pred_ious_this_matching := [70 # 100; 5 # 10];
              matched_gt_inds := [0; 1]%nat |}).
  - solve_wf.
  - reflexivity.
Defined.

(** X9, witness: the same matching. *)
Lemma matched_least_cost_witness :
  exists ks, compute_dynamic_ks top2_assigner ex_iou = Ok ks /\
    forall n p, nonzero [false; false; true; true] !! n = Some p ->
      exists i j,
        nonzero [true; false; true; true] !! i = Some p /\
        [0; 1]%nat !! n = Some j /\ (j < ncols ex_cost)%nat /\
        (exists j', (j' < 2)%nat /\ selected ex_cost ks i j' = true) /\
        (forall j' c c', (j' < 2)%nat -> selected ex_cost ks i j' = true ->
           entry ex_cost i j = Some c -> entry ex_cost i j' = Some c' -> c <= c') /\
        ((forall j1 j2, (j1 < 2)%nat -> (j2 < 2)%nat ->
            selected ex_cost ks i j1 = true -> selected ex_cost ks i j2 = true -> j1 = j2) ->
         (j < 2)%nat /\ selected ex_cost ks i j = true).
Proof.
  apply (matched_least_cost top2_assigner ex_cost ex_iou [2; 5]%Z 2
           [true; false; true; true] [false; false; true; true]
           {| num_fg := 2; gt_matched_classes := [2; 5]%Z;
              pred_ious_this_matching := [70 # 100; 5 # 10];
              matched_gt_inds := [0; 1]%nat |}).
  - solve_wf.
  - solve_wf.
  - solve_shape.
  - reflexivity.
  - reflexivity.
  - reflexivity.
Defined.

(** X10, witness: [assign_matches] at [one_gt_inputs] with
    [candidate_topk = 2]. *)
Lemma assign_matches_witness :
  let boxes := filter_mask [true; false; false] (decoded_bboxes one_gt_inputs) in
  length boxes = 1%nat /\
  forall n, (n < 1)%nat ->
    exists j b g c q,
      [0%nat] !! n = Some j /\
      boxes !! n = Some b /\
      gt_bboxes one_gt_inputs !! j = Some g /\
      gt_labels one_gt_inputs !! j = Some c /\
      [2%Z] !! n = Some c /\
      [81 # 100] !! n = Some q /\
      q == iou_of b g.
Proof.
  exact (@assign_matches example_backend top2_assigner one_gt_inputs
           {| result_device := Cuda;
              valid_mask := [true; false; false];
              matching := {| num_fg := 1; gt_matched_classes := [2%Z];
                             pred_ious_this_matching := [81 # 100];
                             matched_gt_inds := [0%nat] |} |} eq_refl).
Defined.


(** X12, witness: the same call. *)
Lemma assign_success_conditions_witness :
  let num_valid :=
    count_true (get_in_gt_and_in_center_info top2_assigner (priors one_gt_inputs)
                  (gt_bboxes one_gt_inputs)).1 in
  length (decoded_bboxes one_gt_inputs) = length (priors one_gt_inputs) /\
  nrows (pred_scores one_gt_inputs) = length (priors one_gt_inputs) /\
  length (gt_labels one_gt_inputs) = length (gt_bboxes one_gt_inputs) /\
  Forall (fun l => 0 <= l < Z.of_nat (ncols (pred_scores one_gt_inputs)))%Z
         (gt_labels one_gt_inputs) /\
  @out_of_memory example_backend (device one_gt_inputs)
    (num_valid * length (gt_bboxes one_gt_inputs) * ncols (pred_scores one_gt_inputs))
    = false /\
  (1 <= length (gt_bboxes one_gt_inputs))%nat /\
  (0 <= candidate_topk top2_assigner <= Z.of_nat num_valid)%Z /\
  (1 <= 1 <= num_valid)%nat.
Proof.
  exact (@assign_success_conditions example_backend top2_assigner one_gt_inputs
           {| result_device := Cuda;
              valid_mask := [true; false; false];
              matching := {| num_fg := 1; gt_matched_classes := [2%Z];
                             pred_ious_this_matching := [81 # 100];
                             matched_gt_inds := [0%nat] |} |} eq_refl).
Defined.

Lemma sum_all_reduce_spec (op : ReduceOp) (flats : list (list Q)) (n rank : nat) :
  Forall (fun f => length f = n) flats -> flats <> [] ->
  exists out,
    sum_all_reduce op (map Done flats) rank = Done out /\
    length out = n /\
    forall i x, out !! i = Some x ->
                x == Qsum (map (fun f => default 0 (f !! i)) flats).
Proof.
  intros Hlen Hne. unfold sum_all_reduce.
  assert (mapH (fun t => t) (map Done flats) = Done flats) as ->.
  { clear. induction flats as [|f flats IH]; [done|]. simpl. by rewrite IH. }
  eexists. split; [done|]. destruct flats as [|f flats]; [done|]. simpl head. simpl default.
  apply Forall_cons in Hlen as [Hf _]. split.
  - by rewrite length_map, length_seq.
  - intros i x Hx. rewrite list_lookup_fmap in Hx.
    destruct (seq 0 (length f) !! i) as [i'|] eqn:Hi; [|done].
    apply lookup_seq in Hi as [-> _]. simpl in Hx. by injection Hx as <-.
Qed.


(** XB, witness: iteration 28500 is the first of epoch 285 = 300 - 15. *)
Lemma get_lr_stop_point_witness :
  LrUpdater.get_lr linear_annealing yolox_lr_hook (runner_at 28500) 1
  = Done (LrUpdater.target_lr yolox_lr_hook) /\
  LrUpdater.get_lr linear_annealing yolox_lr_hook (runner_at 28499) 1
  = Done (linear_annealing (LrUpdater.base_lr_ yolox_lr_hook)
            (LrUpdater.target_lr yolox_lr_hook)
            (inject_Z (28499 - 500) / inject_Z (30000 - 500 - 1500))).
Proof.
  split.
  - exact (proj1 (get_lr_stop_point linear_annealing yolox_lr_hook (runner_at 28500) 1
                    eq_refl) eq_refl eq_refl).
  - exact (proj1 (get_lr_stop_point linear_annealing yolox_lr_hook (runner_at 28499) 1
                    eq_refl) eq_refl eq_refl).
Defined.

(** XC, witness: iteration 500, the end of the warm-up. *)
Lemma get_lr_annealing_witness :
  exists factor,
    LrUpdater.get_lr linear_annealing yolox_lr_hook (runner_at 500) 1
    = Done (linear_annealing (LrUpdater.base_lr_ yolox_lr_hook)
              (LrUpdater.target_lr yolox_lr_hook) factor) /\
    factor < 1 /\
    (0 <= factor <-> (500 <= 500)%Z) /\
    (500%Z = 500%Z -> factor == 0).
Proof.
  exact (proj2 (get_lr_annealing linear_annealing yolox_lr_hook (runner_at 500) 1 eq_refl)
           eq_refl).
Defined.

(** XD, witness: the default ranges of the hook, with 20 drawn. *)
Lemma random_resize_rank0_witness :
  exists w h,
    ProcessHook.random_resize (14, 26)%Z 0 true (640, 640)%Z 20 (0, 0)%Z (0, 0)%Z
    = Done (w, h) /\
    w = (32 * 20)%Z /\ (32 * 14 <= w <= 32 * 26)%Z /\
    (32 | h)%Z /\
    (640%Z = 640%Z -> h = w).
Proof.
  apply (random_resize_rank0 (14, 26)%Z (640, 640)%Z true 20 (0, 0)%Z (0, 0)%Z).
  - simpl. lia.
  - simpl. lia.
Defined.

(** XF, witness: the mean of the statistics of the two processes, on the
    second. *)
Lemma all_reduce_mean_witness :
  exists result,
    all_reduce sum_all_reduce [norm_rank0] norm_rank1 [] "mean" = Done result /\
    keys result = ["bn.running_mean"; "bn.running_var"]%string /\
    forall p k, ["bn.running_mean"; "bn.running_var"]%string !! p = Some k ->
      exists t t',
        dict_get norm_rank1 k = Some t /\ result !! p = Some (k, t') /\
        shape t' = shape t /\ numel t' = numel t /\
        forall i x, data t' !! i = Some x ->
          x == Qsum (map (fun d => dict_entry d k i) [norm_rank0; norm_rank1])
               / inject_Z (Z.of_nat 2).
Proof.
  apply (all_reduce_mean sum_all_reduce [norm_rank0] [] norm_rank1 (fun _ => 2%nat)).
  - simpl. lia.
  - discriminate.
  - intros d k Hd Hk.
    repeat (apply elem_of_cons in Hd as [->|Hd]); [| |by apply elem_of_nil in Hd];
      repeat (apply elem_of_cons in Hk as [->|Hk]); try (by apply elem_of_nil in Hk);
      eexists; split; reflexivity.
  - intros k t. unfold norm_rank1. simpl. repeat case_decide; intros [= <-]; reflexivity.
  - intros flats n Hall Hlen. apply sum_all_reduce_spec; [done|]. by destruct flats.
Defined.

(** XG, witness: [op="MEAN"] returns the sum. *)
Lemma all_reduce_op_names_witness :
  (lower "MEAN" = "mean"%string -> "MEAN"%string <> "mean"%string ->
   all_reduce sum_all_reduce [norm_rank0] norm_rank1 [] "MEAN"
   = all_reduce sum_all_reduce [norm_rank0] norm_rank1 [] "sum") /\
  (lower "MEAN" <> "sum"%string -> lower "MEAN" <> "mean"%string ->
   exists e, all_reduce sum_all_reduce [norm_rank0] norm_rank1 [] "MEAN" = Fail e).
Proof.
  apply (all_reduce_op_names sum_all_reduce [norm_rank0] [] norm_rank1 "MEAN").
  simpl. lia.
Defined.

(** XH, witness: 3000 images numbered downwards from 13000. *)
Lemma reorder_by_number_witness :
  exists ans,
    reorder descending_numbers positions = Ok ans /\
    length ans = 3000%nat /\
    (forall i line, (i < 3000)%nat -> descending_numbers !! i = Some line ->
       ans !! Z.to_nat (line - 10001) = Result <$> positions !! i) /\
    (forall n, (n < 3000)%nat ->
       exists i c, (i < 3000)%nat /\ positions !! i = Some c /\ ans !! n = Some (Result c)).
Proof.
  apply (reorder_by_number descending_numbers positions).
  - unfold positions. rewrite length_seq. lia.
  - unfold descending_numbers. rewrite take_ge by (rewrite length_map, length_seq; lia).
    apply NoDup_fmap_2_strong; [|apply NoDup_seq]. intros i i' _ _. lia.
  - unfold descending_numbers. rewrite length_map, length_seq. lia.
  - unfold descending_numbers. rewrite take_ge by (rewrite length_map, length_seq; lia).
    apply Forall_fmap, Forall_forall. intros i Hi%elem_of_seq. simpl. lia.
Defined.
